(** * Session persistence core of the contract-review client

    A shallow embedding of [app/utils/storage.ts] (the chunking layer over
    the capacity-bounded SecureStore primitive) and of the session
    orchestrator in [app/contexts/SessionContext.tsx], followed by the
    properties established about them.

    Conventions.
    - JavaScript strings are modelled as [string]; [String.length] plays the
      role of [.length] (the two agree on ASCII text).
    - JavaScript numbers that are computed with are IEEE 754 doubles
      ([float]); counts and indices are natural numbers.
    - An [async] function over the primitive store is a state transformer
      that may throw: [M A := secure_store -> outcome A * secure_store].
    - A rejected promise of the SecureStore primitive is decided by a fault
      oracle [faulty clock op]; the clock advances at every primitive call,
      so that transient failures are covered.
    - [new Date().toISOString()] is the argument [now] of the operation that
      reads the clock; the remote API client is a set of functions from the
      request to its outcome, and every call made is logged in the state.
    - An operation of the provider sees the state of the render that created
      it: the values it closes over are those of the state it is run on. *)

From stdpp Require Import gmap strings pretty list.
From Stdlib Require Import Ascii Floats Uint63.

Open Scope nat_scope.

(** ** JavaScript values and helpers *)

Inductive outcome (A : Type) : Type :=
  | Ok (a : A)
  | Throw (message : string).
Arguments Ok {A} a.
Arguments Throw {A} message.

Module Js.

(** [if (s)] for a value of type [string | null]. *)
Definition truthy (v : option string) : bool :=
  match v with
  | Some (String _ _) => true
  | _ => false
  end.

Fixpoint take (n : nat) (s : string) : string :=
  match n, s with
  | S n', String c s' => String c (take n' s')
  | _, _ => EmptyString
  end.

Fixpoint drop (n : nat) (s : string) : string :=
  match n, s with
  | S n', String _ s' => drop n' s'
  | _, _ => s
  end.

(** [s.slice(i, j)] for [0 <= i <= j] (both clipped to the length). *)
Definition slice (i j : nat) (s : string) : string := take (j - i) (drop i s).

Fixpoint skip_space (s : string) : string :=
  match s with
  | String c s' => if Ascii.is_space c then skip_space s' else s
  | EmptyString => EmptyString
  end.

Fixpoint digits_value (s : string) (acc : N) : N :=
  match s with
  | String c s' =>
      match Ascii.is_nat c with
      | Some d => digits_value s' (acc * 10 + N.of_nat d)
      | None => acc
      end
  | EmptyString => acc
  end.

Definition starts_with_digit (s : string) : bool :=
  match s with
  | String c _ => match Ascii.is_nat c with Some _ => true | None => false end
  | EmptyString => false
  end.

(** [parseInt(s, 10)]: leading white space, an optional sign, then the
    longest run of decimal digits; [None] stands for [NaN]. *)
Definition parseInt (s : string) : option Z :=
  let s1 := skip_space s in
  let '(negative, s2) :=
    match s1 with
    | String "-"%char r => (true, r)
    | String "+"%char r => (false, r)
    | _ => (false, s1)
    end in
  if starts_with_digit s2 then
    let v := Z.of_N (digits_value s2 0) in
    Some (if negative then (- v)%Z else v)
  else None.

(** Number of iterations of [for (let i = 0; i < n; i++)]; the test
    [i < NaN] is false. *)
Definition loop_count (n : option Z) : nat :=
  match n with
  | Some z => Z.to_nat z
  | None => 0
  end.

(** [s.includes(p)]. *)
Fixpoint starts_with (p s : string) : bool :=
  match p, s with
  | EmptyString, _ => true
  | String a p', String b s' => if decide (a = b) then starts_with p' s' else false
  | String _ _, EmptyString => false
  end.

Fixpoint includes (p s : string) : bool :=
  starts_with p s ||
  match s with
  | String _ s' => includes p s'
  | EmptyString => false
  end.

End Js.

(** ** The SecureStore primitive *)

Inductive prim_op : Type :=
  | OpGet (key : string)
  | OpSet (key value : string)
  | OpDelete (key : string).

Record secure_store : Type := MkStore {
  cells : gmap string string;
  clock : nat
}.

Definition M (A : Type) : Type := secure_store -> outcome A * secure_store.

Definition ret {A} (a : A) : M A := fun s => (Ok a, s).

Definition throw {A} (e : string) : M A := fun s => (Throw e, s).

Definition bind {A B} (m : M A) (k : A -> M B) : M B :=
  fun s =>
    match m s with
    | (Ok a, s') => k a s'
    | (Throw e, s') => (Throw e, s')
    end.

(** [try { m } catch (e) { h e }]. *)
Definition try_catch {A} (m : M A) (h : string -> M A) : M A :=
  fun s =>
    match m s with
    | (Ok a, s') => (Ok a, s')
    | (Throw e, s') => h e s'
    end.

Notation "'let*' x ':=' m 'in' k" := (bind m (fun x => k))
  (at level 10, x name, m at level 100, k at level 200).
Notation "m ';;' k" := (bind m (fun _ => k))
  (at level 100, k at level 200, right associativity).

Definition tick (s : secure_store) : secure_store :=
  MkStore (cells s) (S (clock s)).

Module SecureStore.
Section Primitive.
Variable faulty : nat -> prim_op -> option string.

Definition getItemAsync (key : string) : M (option string) :=
  fun s =>
    match faulty (clock s) (OpGet key) with
    | Some e => (Throw e, tick s)
    | None => (Ok (cells s !! key), tick s)
    end.

Definition setItemAsync (key value : string) : M unit :=
  fun s =>
    match faulty (clock s) (OpSet key value) with
    | Some e => (Throw e, tick s)
    | None => (Ok tt, MkStore (<[key := value]> (cells s)) (S (clock s)))
    end.

Definition deleteItemAsync (key : string) : M unit :=
  fun s =>
    match faulty (clock s) (OpDelete key) with
    | Some e => (Throw e, tick s)
    | None => (Ok tt, MkStore (delete key (cells s)) (S (clock s)))
    end.
End Primitive.
End SecureStore.

(** ** nativeStorage: chunking over SecureStore (storage.ts) *)

Module nativeStorage.

Definition chunkSize : nat := 2000.

(** [`${key}_chunks`] and [`${key}_chunk_${i}`]. *)
Definition manifest_key (key : string) : string := key +:+ "_chunks".
Definition chunk_key (key : string) (i : nat) : string :=
  key +:+ "_chunk_" +:+ pretty i.

(** [for (let i = 0; i < value.length; i += chunkSize)
       chunks.push(value.slice(i, i + chunkSize))];
    every iteration advances [i] by [chunkSize], so [S (length value)]
    iterations always suffice. *)
Fixpoint chunk_loop (fuel i : nat) (value : string) : list string :=
  match fuel with
  | 0 => []
  | S fuel' =>
      if decide (i < String.length value) then
        Js.slice i (i + chunkSize) value :: chunk_loop fuel' (i + chunkSize) value
      else []
  end.

Definition make_chunks (value : string) : list string :=
  chunk_loop (S (String.length value)) 0 value.

Section Chunked.
Variable faulty : nat -> prim_op -> option string.

Abbreviation sget := (SecureStore.getItemAsync faulty).
Abbreviation sset := (SecureStore.setItemAsync faulty).
Abbreviation sdel := (SecureStore.deleteItemAsync faulty).

(** Body of the read loop: [n] iterations left, next index [i]. *)
Fixpoint read_chunks (key : string) (n i : nat) (reconstructed : string)
  : M string :=
  match n with
  | 0 => ret reconstructed
  | S n' =>
      let* chunk := sget (chunk_key key i) in
      read_chunks key n' (S i)
        (if Js.truthy chunk then reconstructed +:+ default "" chunk
         else reconstructed)
  end.

Definition getItemAsync (key : string) : M (option string) :=
  try_catch
    (let* chunkInfo := sget (manifest_key key) in
     if Js.truthy chunkInfo then
       let chunkCount := Js.parseInt (default "" chunkInfo) in
       let* reconstructed := read_chunks key (Js.loop_count chunkCount) 0 "" in
       ret (Some reconstructed)
     else sget key)
    (fun _ => ret None).

Fixpoint delete_chunk_loop (key : string) (n i : nat) : M unit :=
  match n with
  | 0 => ret tt
  | S n' =>
      try_catch (sdel (chunk_key key i)) (fun _ => ret tt) ;;
      delete_chunk_loop key n' (S i)
  end.

Definition deleteChunks (key : string) : M unit :=
  try_catch
    (let* chunkInfo := sget (manifest_key key) in
     if Js.truthy chunkInfo then
       let chunkCount := Js.parseInt (default "" chunkInfo) in
       delete_chunk_loop key (Js.loop_count chunkCount) 0 ;;
       sdel (manifest_key key)
     else ret tt)
    (fun _ => ret tt).

Fixpoint store_chunks (key : string) (chunks : list string) (i : nat)
  : M unit :=
  match chunks with
  | [] => ret tt
  | c :: rest => sset (chunk_key key i) c ;; store_chunks key rest (S i)
  end.

Definition setItemAsync (key value : string) : M unit :=
  try_catch
    (if decide (2000 < String.length value) then
       let chunks := make_chunks value in
       sset (manifest_key key) (pretty (length chunks)) ;;
       store_chunks key chunks 0 ;;
       try_catch (sdel key) (fun _ => ret tt)
     else
       deleteChunks key ;;
       sset key value)
    (fun e => throw e).

Definition deleteItemAsync (key : string) : M unit :=
  try_catch
    (sdel key ;; deleteChunks key)
    (fun e => throw e).

End Chunked.
End nativeStorage.

(** A primitive store that never rejects. *)
Definition reliable : nat -> prim_op -> option string := fun _ _ => None.

(** Reads of the primitive never reject under [faulty]. *)
Definition gets_reliable (faulty : nat -> prim_op -> option string) : Prop :=
  forall t k, faulty t (OpGet k) = None.

(** Deletions of the primitive never reject under [faulty]. *)
Definition deletes_reliable (faulty : nat -> prim_op -> option string) : Prop :=
  forall t k, faulty t (OpDelete k) = None.

Definition empty_store : secure_store := MkStore ∅ 0.

Fixpoint repeat_string (n : nat) (c : ascii) : string :=
  match n with
  | 0 => EmptyString
  | S n' => String c (repeat_string n' c)
  end.

(** ** JSON values and [JSON.stringify] *)

(** A JavaScript value as far as JSON is concerned. A number is carried by
    its canonical decimal rendering (what [String(n)] yields), an object by
    its own properties in insertion order. *)
#[warnings="-register-all"] Inductive jsval : Type :=
  | JUndefined
  | JNull
  | JBool (b : bool)
  | JNum (rendering : string)
  | JStr (s : string)
  | JArr (items : list jsval)
  | JObj (fields : list (string * jsval)).

Module Json.

Definition hex_digit (n : nat) : ascii :=
  match n with
  | 0 => "0" | 1 => "1" | 2 => "2" | 3 => "3" | 4 => "4" | 5 => "5"
  | 6 => "6" | 7 => "7" | 8 => "8" | 9 => "9" | 10 => "a" | 11 => "b"
  | 12 => "c" | 13 => "d" | 14 => "e" | _ => "f"
  end%char.

Definition double_quote : ascii := ascii_of_nat 34.
Definition backslash : ascii := ascii_of_nat 92.

(** Escape of one character inside a JSON string literal. *)
Definition escape_char (c : ascii) : string :=
  let n := nat_of_ascii c in
  if decide (n = 34) then String backslash (String double_quote "")
  else if decide (n = 92) then String backslash (String backslash "")
  else if decide (n = 8) then String backslash "b"
  else if decide (n = 9) then String backslash "t"
  else if decide (n = 10) then String backslash "n"
  else if decide (n = 12) then String backslash "f"
  else if decide (n = 13) then String backslash "r"
  else if decide (n < 32) then
    String backslash (String "u" (String "0" (String "0"
      (String (hex_digit (n / 16)) (String (hex_digit (n mod 16)) "")))))
  else String c "".

Fixpoint escape (s : string) : string :=
  match s with
  | EmptyString => EmptyString
  | String c s' => escape_char c +:+ escape s'
  end.

Definition quote (s : string) : string :=
  String double_quote (escape s +:+ String double_quote "").

(** [JSON.stringify(v)] for [v] other than [undefined]: a property whose
    value is [undefined] is left out of an object, an [undefined] array
    element is written [null]. *)
Fixpoint stringify (v : jsval) : string :=
  match v with
  | JUndefined => "null"
  | JNull => "null"
  | JBool true => "true"
  | JBool false => "false"
  | JNum rendering => rendering
  | JStr s => quote s
  | JArr items =>
      "[" +:+
      (fix elements (l : list jsval) : string :=
         match l with
         | [] => ""
         | x :: rest =>
             match rest with
             | [] => stringify x
             | _ :: _ => stringify x +:+ "," +:+ elements rest
             end
         end) items +:+ "]"
  | JObj fields =>
      "{" +:+
      (fix members (first : bool) (l : list (string * jsval)) : string :=
         match l with
         | [] => ""
         | (k, x) :: rest =>
             match x with
             | JUndefined => members first rest
             | _ =>
                 (if first then "" else ",") +:+ quote k +:+ ":" +:+
                 stringify x +:+ members false rest
             end
         end) true fields +:+ "}"
  end.

Fixpoint lookup_field (k : string) (fields : list (string * jsval))
  : option jsval :=
  match fields with
  | [] => None
  | (k', x) :: rest => if decide (k' = k) then Some x else lookup_field k rest
  end.

(** [v.k] for a property name [k] that no built-in prototype defines:
    reading a property of [null] or [undefined] throws a TypeError. *)
Definition prop (v : jsval) (k : string) : outcome jsval :=
  match v with
  | JUndefined | JNull => Throw "TypeError: cannot read properties"
  | JObj fields => Ok (default JUndefined (lookup_field k fields))
  | _ => Ok JUndefined
  end.

(** [k in v]: a TypeError unless [v] is an object. *)
Definition has_prop (k : string) (v : jsval) : outcome bool :=
  match v with
  | JObj fields =>
      Ok (match lookup_field k fields with Some _ => true | None => false end)
  | JArr _ => Ok false
  | _ => Throw "TypeError: cannot use 'in' operator"
  end.

(** [a === b]; objects and arrays are compared by reference, and the values
    compared here never share one. *)
Definition strict_eq (a b : jsval) : bool :=
  match a, b with
  | JUndefined, JUndefined => true
  | JNull, JNull => true
  | JBool x, JBool y => bool_decide (x = y)
  | JNum x, JNum y => bool_decide (x = y)
  | JStr x, JStr y => bool_decide (x = y)
  | _, _ => false
  end.

End Json.

(** Synchronous code that may throw. *)
Definition obind {A B} (m : outcome A) (k : A -> outcome B) : outcome B :=
  match m with
  | Ok a => k a
  | Throw e => Throw e
  end.

Notation "'let?' x ':=' m 'in' k" := (obind m (fun x => k))
  (at level 10, x name, m at level 100, k at level 200).

(** [l.map(f)] for a callback that may throw. *)
Fixpoint map_outcome {A B} (f : A -> outcome B) (l : list A) : outcome (list B) :=
  match l with
  | [] => Ok []
  | x :: rest =>
      let? y := f x in
      let? ys := map_outcome f rest in
      Ok (y :: ys)
  end.

(** Lift of a synchronous computation into an [async] function. *)
Definition lift {A} (m : outcome A) : M A := fun s => (m, s).

(** ** Session history kept in local storage (SessionContext.tsx) *)

Module storageKeys.
Definition SHARIAA_SESSIONS : string := "shariaa_sessions".
Definition SESSION_INTERACTIONS : string := "shariaa_session_interactions".
Definition CURRENT_SESSION_ID : string := "current_session_id".
Definition CURRENT_ANALYSIS_TERMS : string := "current_analysis_terms".
Definition CURRENT_SESSION_DETAILS : string := "current_session_details".
End storageKeys.

Inductive interaction_type : Type :=
  | question_asked
  | term_modified
  | contract_generated
  | expert_feedback.

#[global] Instance interaction_type_eq_dec : EqDecision interaction_type.
Proof. solve_decision. Defined.

Record SessionInteraction : Type := MkInteraction {
  i_sessionId : string;
  i_timestamp : string;
  i_type : interaction_type;
  i_termId : option string;
  i_data : jsval
}.

(** [sessionInteractions.filter(i => i.sessionId === sessionId)]. *)
Definition getSessionInteractions (sessionInteractions : list SessionInteraction)
    (sessionId : jsval) : list SessionInteraction :=
  filter (fun i => Json.strict_eq (JStr (i_sessionId i)) sessionId = true)
    sessionInteractions.

(** [sessions.findIndex(s => s.session_id === sessionData.session_id)],
    scanning from index [i]. *)
Fixpoint findIndex_from (i : nat) (sessionData : jsval) (sessions : list jsval)
  : outcome (option nat) :=
  match sessions with
  | [] => Ok None
  | s :: rest =>
      let? id := Json.prop s "session_id" in
      let? target := Json.prop sessionData "session_id" in
      if Json.strict_eq id target then Ok (Some i)
      else findIndex_from (S i) sessionData rest
  end.

Definition findIndex (sessionData : jsval) (sessions : list jsval)
  : outcome (option nat) :=
  findIndex_from 0 sessionData sessions.

(** The receiver of [.findIndex] must be an array. *)
Definition as_array (v : jsval) : outcome (list jsval) :=
  match v with
  | JArr items => Ok items
  | _ => Throw "TypeError: sessions.findIndex is not a function"
  end.

(** The per-term projection kept in the session history. *)
Definition optimized_term (term : jsval) : outcome jsval :=
  let? term_id := Json.prop term "term_id" in
  let? is_valid_sharia := Json.prop term "is_valid_sharia" in
  let? is_confirmed_by_user := Json.prop term "is_confirmed_by_user" in
  let? has_expert_feedback := Json.prop term "has_expert_feedback" in
  let? expert_override := Json.prop term "expert_override_is_valid_sharia" in
  Ok (JObj [("term_id", term_id);
            ("is_valid_sharia", is_valid_sharia);
            ("is_confirmed_by_user", is_confirmed_by_user);
            ("has_expert_feedback", has_expert_feedback);
            ("expert_override_is_valid_sharia", expert_override)]).

(** [optimizedSessionData]: the full projection of one session record. *)
Definition optimizedSessionData (sessionData : jsval)
    (sessionInteractions : list SessionInteraction) (now : string)
  : outcome jsval :=
  let? results := Json.prop sessionData "analysis_results" in
  let analysisResults := match results with JArr l => l | _ => [] end in
  let? _id := Json.prop sessionData "_id" in
  let? session_id := Json.prop sessionData "session_id" in
  let? original_filename := Json.prop sessionData "original_filename" in
  let? analysis_timestamp := Json.prop sessionData "analysis_timestamp" in
  let? compliance_percentage := Json.prop sessionData "compliance_percentage" in
  let? language := Json.prop sessionData "detected_contract_language" in
  let? original_format := Json.prop sessionData "original_format" in
  let? terms := map_outcome optimized_term analysisResults in
  Ok (JObj [("_id", _id);
            ("session_id", session_id);
            ("original_filename", original_filename);
            ("analysis_timestamp", analysis_timestamp);
            ("compliance_percentage", compliance_percentage);
            ("detected_contract_language", language);
            ("original_format", original_format);
            ("analysis_results", JArr terms);
            ("totalInteractions",
             JNum (pretty (length
                     (getSessionInteractions sessionInteractions session_id))));
            ("lastInteractionTime", JStr now)]).

(** Replace in place when the identifier is known, prepend otherwise, then
    [slice(0, 20)]. *)
Definition upsert (existingIndex : option nat) (optimized : jsval)
    (sessions : list jsval) : list jsval :=
  take 20
    (match existingIndex with
     | Some i => <[i := optimized]> sessions
     | None => optimized :: sessions
     end).

(** The minimal projection of one stored record. *)
Definition minimal_session (session : jsval) : outcome jsval :=
  let? session_id := Json.prop session "session_id" in
  let? original_filename := Json.prop session "original_filename" in
  let? analysis_timestamp := Json.prop session "analysis_timestamp" in
  let? compliance_percentage := Json.prop session "compliance_percentage" in
  let? has_total := Json.has_prop "totalInteractions" session in
  let? totalInteractions :=
    if has_total then Json.prop session "totalInteractions" else Ok (JNum "0") in
  let? has_last := Json.has_prop "lastInteractionTime" session in
  let? lastInteractionTime :=
    if has_last then Json.prop session "lastInteractionTime" else Ok (JStr "") in
  Ok (JObj [("session_id", session_id);
            ("original_filename", original_filename);
            ("analysis_timestamp", analysis_timestamp);
            ("compliance_percentage", compliance_percentage);
            ("totalInteractions", totalInteractions);
            ("lastInteractionTime", lastInteractionTime)]).

(** [updatedSessions] of [saveSessionLocally], from the list read back. *)
Definition updatedSessions (stored sessionData : jsval)
    (sessionInteractions : list SessionInteraction) (now : string)
  : outcome (list jsval) :=
  let? sessions := as_array stored in
  let? existingIndex := findIndex sessionData sessions in
  let? optimized := optimizedSessionData sessionData sessionInteractions now in
  Ok (upsert existingIndex optimized sessions).

(** The string handed to [storage.setItemAsync] for a given
    [updatedSessions]. *)
Definition sessions_payload (updated : list jsval) : outcome string :=
  let dataToStore := Json.stringify (JArr updated) in
  if decide (2000 < String.length dataToStore) then
    let? minimalSessions := map_outcome minimal_session updated in
    Ok (Json.stringify (JArr minimalSessions))
  else Ok dataToStore.

Section LocalSessions.
Variable faulty : nat -> prim_op -> option string.
(** [JSON.parse]; it throws a SyntaxError on malformed text. *)
Variable JSON_parse : string -> outcome jsval.

Definition getLocalSessions : M jsval :=
  try_catch
    (let* storedSessions :=
       nativeStorage.getItemAsync faulty storageKeys.SHARIAA_SESSIONS in
     if Js.truthy storedSessions then lift (JSON_parse (default "" storedSessions))
     else ret (JArr []))
    (fun _ => ret (JArr [])).

Definition saveSessionLocally (sessionData : jsval)
    (sessionInteractions : list SessionInteraction) (now : string) : M unit :=
  try_catch
    (let* sessions := getLocalSessions in
     let* updated := lift (updatedSessions sessions sessionData sessionInteractions now) in
     let* payload := lift (sessions_payload updated) in
     nativeStorage.setItemAsync faulty storageKeys.SHARIAA_SESSIONS payload)
    (fun _ => ret tt).

End LocalSessions.

(** ** Analysis terms and derived compliance statistics *)

Record FrontendAnalysisTerm : Type := MkTerm {
  term_id : string;
  term_text : string;
  is_valid_sharia : bool;
  has_expert_feedback : option bool;
  expert_override_is_valid_sharia : option bool;
  isUserConfirmed : option bool;
  userModifiedText : option string;
  currentQaAnswer : option string;
  reviewedSuggestion : option string;
  isReviewedSuggestionValid : option bool;
  reviewedSuggestionIssue : option string;
  lastModified : option string;
  interactionCount : option nat
}.

Record ComplianceStats : Type := MkStats {
  totalTerms : nat;
  currentUserEffectiveCompliantCount : nat;
  currentUserEffectiveNonCompliantCount : nat;
  overallCompliancePercentage : float;
  expertReviewedTerms : nat;
  userModifiedTerms : nat
}.

(** A count as a JavaScript number (an IEEE 754 double). *)
Definition number_of_nat (n : nat) : float :=
  PrimFloat.of_uint63 (Uint63.of_Z (Z.of_nat n)).

(** [x ?? otherwise]. *)
Definition nullish {A} (x : option A) (otherwise : A) : A :=
  match x with
  | Some v => v
  | None => otherwise
  end.

(** Truthiness of an optional boolean ([undefined] is falsy). *)
Definition flag (b : option bool) : bool :=
  match b with
  | Some true => true
  | _ => false
  end.

(** The predicate of the [compliantCount] filter. *)
Definition counts_as_compliant (t : FrontendAnalysisTerm) : bool :=
  nullish (expert_override_is_valid_sharia t)
    (if flag (isUserConfirmed t)
     then nullish (isReviewedSuggestionValid t) true
     else is_valid_sharia t).

Definition complianceStats (analysisTerms : option (list FrontendAnalysisTerm))
  : option ComplianceStats :=
  match analysisTerms with
  | None => None
  | Some terms =>
      let totalTerms := length terms in
      if decide (totalTerms = 0) then
        Some (MkStats 0 0 0 0%float 0 0)
      else
        let compliantCount :=
          length (filter (fun t => counts_as_compliant t = true) terms) in
        let expertReviewedTerms :=
          length (filter (fun t => flag (has_expert_feedback t) = true) terms) in
        let userModifiedTerms :=
          length (filter (fun t => flag (isUserConfirmed t) = true) terms) in
        Some (MkStats totalTerms compliantCount (totalTerms - compliantCount)
                (number_of_nat compliantCount / number_of_nat totalTerms * 100)%float
                expertReviewedTerms userModifiedTerms)
  end.

(** *** Reference definition of the statistics *)

(** Effective verdict, in precedence order: the expert override when there
    is one; else, for a modification the user confirmed, the validity of the
    reviewed suggestion when there is one and [true] otherwise; else the
    verdict of the original analysis. *)
Definition effective_verdict (t : FrontendAnalysisTerm) : bool :=
  match expert_override_is_valid_sharia t with
  | Some verdict => verdict
  | None =>
      match isUserConfirmed t with
      | Some true =>
          match isReviewedSuggestionValid t with
          | Some valid => valid
          | None => true
          end
      | _ => is_valid_sharia t
      end
  end.

Fixpoint count_terms (p : FrontendAnalysisTerm -> bool)
    (terms : list FrontendAnalysisTerm) : nat :=
  match terms with
  | [] => 0
  | t :: rest => (if p t then 1 else 0) + count_terms p rest
  end.

Definition reference_stats (terms : list FrontendAnalysisTerm) : ComplianceStats :=
  let total := length terms in
  let compliant := count_terms effective_verdict terms in
  MkStats total compliant (total - compliant)
    (match total with
     | 0 => 0
     | S _ => number_of_nat compliant / number_of_nat total * 100
     end)%float
    (count_terms (fun t => bool_decide (has_expert_feedback t = Some true)) terms)
    (count_terms (fun t => bool_decide (isUserConfirmed t = Some true)) terms).

(** ** The session orchestrator (SessionProvider) *)

Module UploadFile.
(** The [file] argument of [uploadAndAnalyzeContract], as far as it is
    inspected before the upload. *)
Record t : Type := Mk {
  name : option string;
  type : option string;
  uri : option string
}.
End UploadFile.

(** Calls made to the remote API client. *)
Inductive api_call : Type :=
  | CallUploadContract (file : UploadFile.t)
  | CallGetSessionDetails (sid : string)
  | CallGetSessionTerms (sid : string)
  | CallAskQuestion (sid question : string) (termId termText : option string).

(** The provider's state, together with the persistent store it writes to,
    the alerts it has raised and the API calls it has made (oldest first). *)
Record context : Type := MkContext {
  sessionId : option string;
  selectedSessionId : option string;
  analysisTerms : option (list FrontendAnalysisTerm);
  sessionDetails : option jsval;
  sessionInteractions : list SessionInteraction;
  isUploading : bool;
  uploadProgress : float;
  isAnalyzingContract : bool;
  isFetchingSession : bool;
  isTermProcessing : gmap string bool;
  isAskingQuestion : bool;
  error : option string;
  uploadError : option string;
  analysisError : option string;
  store : secure_store;
  alerts : list (string * string);
  api_calls : list api_call
}.

Definition set_sessionId v (c : context) : context :=
  MkContext v (selectedSessionId c) (analysisTerms c) (sessionDetails c)
    (sessionInteractions c) (isUploading c) (uploadProgress c)
    (isAnalyzingContract c) (isFetchingSession c) (isTermProcessing c)
    (isAskingQuestion c) (error c) (uploadError c) (analysisError c)
    (store c) (alerts c) (api_calls c).
Definition set_selectedSessionId v (c : context) : context :=
  MkContext (sessionId c) v (analysisTerms c) (sessionDetails c)
    (sessionInteractions c) (isUploading c) (uploadProgress c)
    (isAnalyzingContract c) (isFetchingSession c) (isTermProcessing c)
    (isAskingQuestion c) (error c) (uploadError c) (analysisError c)
    (store c) (alerts c) (api_calls c).
Definition set_analysisTerms v (c : context) : context :=
  MkContext (sessionId c) (selectedSessionId c) v (sessionDetails c)
    (sessionInteractions c) (isUploading c) (uploadProgress c)
    (isAnalyzingContract c) (isFetchingSession c) (isTermProcessing c)
    (isAskingQuestion c) (error c) (uploadError c) (analysisError c)
    (store c) (alerts c) (api_calls c).
Definition set_sessionDetails v (c : context) : context :=
  MkContext (sessionId c) (selectedSessionId c) (analysisTerms c) v
    (sessionInteractions c) (isUploading c) (uploadProgress c)
    (isAnalyzingContract c) (isFetchingSession c) (isTermProcessing c)
    (isAskingQuestion c) (error c) (uploadError c) (analysisError c)
    (store c) (alerts c) (api_calls c).
Definition set_sessionInteractions v (c : context) : context :=
  MkContext (sessionId c) (selectedSessionId c) (analysisTerms c)
    (sessionDetails c) v (isUploading c) (uploadProgress c)
    (isAnalyzingContract c) (isFetchingSession c) (isTermProcessing c)
    (isAskingQuestion c) (error c) (uploadError c) (analysisError c)
    (store c) (alerts c) (api_calls c).
Definition set_isUploading v (c : context) : context :=
  MkContext (sessionId c) (selectedSessionId c) (analysisTerms c)
    (sessionDetails c) (sessionInteractions c) v (uploadProgress c)
    (isAnalyzingContract c) (isFetchingSession c) (isTermProcessing c)
    (isAskingQuestion c) (error c) (uploadError c) (analysisError c)
    (store c) (alerts c) (api_calls c).
Definition set_uploadProgress v (c : context) : context :=
  MkContext (sessionId c) (selectedSessionId c) (analysisTerms c)
    (sessionDetails c) (sessionInteractions c) (isUploading c) v
    (isAnalyzingContract c) (isFetchingSession c) (isTermProcessing c)
    (isAskingQuestion c) (error c) (uploadError c) (analysisError c)
    (store c) (alerts c) (api_calls c).
Definition set_isAnalyzingContract v (c : context) : context :=
  MkContext (sessionId c) (selectedSessionId c) (analysisTerms c)
    (sessionDetails c) (sessionInteractions c) (isUploading c)
    (uploadProgress c) v (isFetchingSession c) (isTermProcessing c)
    (isAskingQuestion c) (error c) (uploadError c) (analysisError c)
    (store c) (alerts c) (api_calls c).
Definition set_isFetchingSession v (c : context) : context :=
  MkContext (sessionId c) (selectedSessionId c) (analysisTerms c)
    (sessionDetails c) (sessionInteractions c) (isUploading c)
    (uploadProgress c) (isAnalyzingContract c) v (isTermProcessing c)
    (isAskingQuestion c) (error c) (uploadError c) (analysisError c)
    (store c) (alerts c) (api_calls c).
Definition set_isTermProcessing v (c : context) : context :=
  MkContext (sessionId c) (selectedSessionId c) (analysisTerms c)
    (sessionDetails c) (sessionInteractions c) (isUploading c)
    (uploadProgress c) (isAnalyzingContract c) (isFetchingSession c) v
    (isAskingQuestion c) (error c) (uploadError c) (analysisError c)
    (store c) (alerts c) (api_calls c).
Definition set_isAskingQuestion v (c : context) : context :=
  MkContext (sessionId c) (selectedSessionId c) (analysisTerms c)
    (sessionDetails c) (sessionInteractions c) (isUploading c)
    (uploadProgress c) (isAnalyzingContract c) (isFetchingSession c)
    (isTermProcessing c) v (error c) (uploadError c) (analysisError c)
    (store c) (alerts c) (api_calls c).
Definition set_error v (c : context) : context :=
  MkContext (sessionId c) (selectedSessionId c) (analysisTerms c)
    (sessionDetails c) (sessionInteractions c) (isUploading c)
    (uploadProgress c) (isAnalyzingContract c) (isFetchingSession c)
    (isTermProcessing c) (isAskingQuestion c) v (uploadError c)
    (analysisError c) (store c) (alerts c) (api_calls c).
Definition set_uploadError v (c : context) : context :=
  MkContext (sessionId c) (selectedSessionId c) (analysisTerms c)
    (sessionDetails c) (sessionInteractions c) (isUploading c)
    (uploadProgress c) (isAnalyzingContract c) (isFetchingSession c)
    (isTermProcessing c) (isAskingQuestion c) (error c) v
    (analysisError c) (store c) (alerts c) (api_calls c).
Definition set_analysisError v (c : context) : context :=
  MkContext (sessionId c) (selectedSessionId c) (analysisTerms c)
    (sessionDetails c) (sessionInteractions c) (isUploading c)
    (uploadProgress c) (isAnalyzingContract c) (isFetchingSession c)
    (isTermProcessing c) (isAskingQuestion c) (error c) (uploadError c)
    v (store c) (alerts c) (api_calls c).
Definition set_store v (c : context) : context :=
  MkContext (sessionId c) (selectedSessionId c) (analysisTerms c)
    (sessionDetails c) (sessionInteractions c) (isUploading c)
    (uploadProgress c) (isAnalyzingContract c) (isFetchingSession c)
    (isTermProcessing c) (isAskingQuestion c) (error c) (uploadError c)
    (analysisError c) v (alerts c) (api_calls c).
Definition alert (title message : string) (c : context) : context :=
  MkContext (sessionId c) (selectedSessionId c) (analysisTerms c)
    (sessionDetails c) (sessionInteractions c) (isUploading c)
    (uploadProgress c) (isAnalyzingContract c) (isFetchingSession c)
    (isTermProcessing c) (isAskingQuestion c) (error c) (uploadError c)
    (analysisError c) (store c) (alerts c ++ [(title, message)]) (api_calls c).
Definition record_call (call : api_call) (c : context) : context :=
  MkContext (sessionId c) (selectedSessionId c) (analysisTerms c)
    (sessionDetails c) (sessionInteractions c) (isUploading c)
    (uploadProgress c) (isAnalyzingContract c) (isFetchingSession c)
    (isTermProcessing c) (isAskingQuestion c) (error c) (uploadError c)
    (analysisError c) (store c) (alerts c) (api_calls c ++ [call]).

(** Run an [async] storage function against the context's store; the
    outcome is returned next to the new context. *)
Definition on_store {A} (m : M A) (c : context) : outcome A * context :=
  let '(r, s) := m (store c) in (r, set_store s c).

(** [try { await m } catch (error) { console.error(...) }]. *)
Definition on_store_logged (m : M unit) (c : context) : context :=
  (on_store m c).2.

Definition interaction_type_name (t : interaction_type) : string :=
  match t with
  | question_asked => "question_asked"
  | term_modified => "term_modified"
  | contract_generated => "contract_generated"
  | expert_feedback => "expert_feedback"
  end.

(** An interaction as [JSON.stringify] sees it. *)
Definition interaction_json (i : SessionInteraction) : jsval :=
  JObj [("type", JStr (interaction_type_name (i_type i)));
        ("termId", match i_termId i with Some t => JStr t | None => JUndefined end);
        ("data", i_data i);
        ("sessionId", JStr (i_sessionId i));
        ("timestamp", JStr (i_timestamp i))].

(** [{...fields, [k]: v}]. *)
Fixpoint set_field (k : string) (v : jsval) (fields : list (string * jsval))
  : list (string * jsval) :=
  match fields with
  | [] => [(k, v)]
  | (k', x) :: rest =>
      if decide (k' = k) then (k', v) :: rest else (k', x) :: set_field k v rest
  end.

(** The timestamp that [sort]ing by descending time puts first; timestamps
    are ISO 8601 UTC strings, which order as the instants they denote. *)
Fixpoint latest_timestamp (l : list SessionInteraction) : option string :=
  match l with
  | [] => None
  | i :: rest =>
      match latest_timestamp rest with
      | Some t => if String.ltb (i_timestamp i) t then Some t else Some (i_timestamp i)
      | None => Some (i_timestamp i)
      end
  end.

(** The step of the simulated upload progress, every 200 ms:
    [prev => prev >= 90 ? 90 : prev + Math.random() * 10]. *)
Definition progress_tick (random prev : float) : float :=
  if PrimFloat.leb 90 prev then 90%float else (prev + random * 10)%float.

(** The values the progress indicator takes while the timer fires with the
    given draws of [Math.random()], oldest first. *)
Fixpoint progress_trace (draws : list float) (prev : float) : list float :=
  match draws with
  | [] => []
  | random :: rest =>
      let next := progress_tick random prev in
      next :: progress_trace rest next
  end.

Definition interval_tick (random : float) (c : context) : context :=
  set_uploadProgress (progress_tick random (uploadProgress c)) c.

(** [await Promise.all([a, b])] for two requests that are both in flight:
    the two results when both resolve, otherwise the message of the request
    that rejects first in time. When both reject, [second_first] tells
    whether the second request rejects before the first. *)
Definition promise_all {A B} (second_first : bool) (a : outcome A)
    (b : outcome B) : outcome (A * B) :=
  match a, b with
  | Ok x, Ok y => Ok (x, y)
  | Throw e, Ok _ => Throw e
  | Ok _, Throw e => Throw e
  | Throw e1, Throw e2 => Throw (if second_first then e2 else e1)
  end.

Section Orchestrator.
Variable faulty : nat -> prim_op -> option string.
Variable JSON_parse : string -> outcome jsval.
(** The remote API client: each call resolves or rejects with a message. *)
Variable api_uploadContract : UploadFile.t -> outcome string.
Variable api_getSessionDetails : string -> outcome jsval.
Variable api_getSessionTerms :
  string -> outcome (option (list FrontendAnalysisTerm)).
(** The timing of the two requests of a session load: whether the terms
    request for the session settles before the details request. *)
Variable terms_settle_first : string -> bool.
Variable api_askQuestion :
  string -> string -> option string -> option string -> outcome string.

(** [addInteraction] as created by a render in which the state held
    [captured_sessionId] and [captured_interactions]. *)
Definition addInteraction_from (captured_sessionId : option string)
    (captured_interactions : list SessionInteraction)
    (type : interaction_type) (termId : option string) (data : jsval)
    (now : string) (c : context) : context :=
  if Js.truthy captured_sessionId then
    let newInteraction :=
      MkInteraction (default "" captured_sessionId) now type termId data in
    let updatedInteractions := newInteraction :: captured_interactions in
    let c1 := set_sessionInteractions updatedInteractions c in
    on_store_logged
      (nativeStorage.setItemAsync faulty storageKeys.SESSION_INTERACTIONS
         (Json.stringify (JArr (map interaction_json updatedInteractions))))
      c1
  else c.

Definition addInteraction (type : interaction_type) (termId : option string)
    (data : jsval) (now : string) (c : context) : context :=
  addInteraction_from (sessionId c) (sessionInteractions c) type termId data now c.

Definition clearSession (c : context) : context :=
  let c1 :=
    MkContext None (selectedSessionId c) None None (sessionInteractions c)
      false 0%float false false ∅ false None None None
      (store c) (alerts c) (api_calls c) in
  on_store_logged
    (nativeStorage.deleteItemAsync faulty storageKeys.CURRENT_SESSION_ID ;;
     nativeStorage.deleteItemAsync faulty storageKeys.CURRENT_ANALYSIS_TERMS ;;
     nativeStorage.deleteItemAsync faulty storageKeys.CURRENT_SESSION_DETAILS)
    c1.

(** A term enriched with its interaction data. *)
Definition enrich_term (interactions : list SessionInteraction)
    (term : FrontendAnalysisTerm) : FrontendAnalysisTerm :=
  let mine :=
    filter (fun i => i_termId i = Some (term_id term)) interactions in
  let modifications := filter (fun i => i_type i = term_modified) mine in
  MkTerm (term_id term) (term_text term) (is_valid_sharia term)
    (has_expert_feedback term) (expert_override_is_valid_sharia term)
    (isUserConfirmed term) (userModifiedText term) (currentQaAnswer term)
    (reviewedSuggestion term) (isReviewedSuggestionValid term)
    (reviewedSuggestionIssue term)
    (latest_timestamp modifications) (Some (length mine)).

Definition loadSessionData (sid now : string) (c : context) : context :=
  let captured := sessionInteractions c in
  let c1 := set_error None (set_isFetchingSession true c) in
  let c2 := record_call (CallGetSessionTerms sid)
              (record_call (CallGetSessionDetails sid) c1) in
  let fetched :=
    let? both :=
      promise_all (terms_settle_first sid)
        (api_getSessionDetails sid) (api_getSessionTerms sid) in
    let? session_id := Json.prop both.1 "session_id" in
    Ok (both.1, both.2, session_id) in
  let c3 :=
    match fetched with
    | Ok (sessionData, termsData, session_id) =>
        let mine := getSessionInteractions captured (JStr sid) in
        let enrichedTerms := map (enrich_term mine) (default [] termsData) in
        let id := match session_id with JStr s => Some s | _ => None end in
        let details :=
          JObj (set_field "lastInteractionTime"
                  (match mine with i :: _ => JStr (i_timestamp i) | [] => JUndefined end)
                  (set_field "totalInteractions" (JNum (pretty (length mine)))
                     (match sessionData with JObj fields => fields | _ => [] end))) in
        let c' :=
          set_analysisTerms (Some enrichedTerms)
            (set_sessionDetails (Some details)
               (set_selectedSessionId id (set_sessionId id c2))) in
        on_store_logged (saveSessionLocally faulty JSON_parse sessionData captured now) c'
    | Throw errorMessage =>
        clearSession (alert "Session Load Error" errorMessage
                        (set_error (Some errorMessage) c2))
    end in
  set_isFetchingSession false c3.

(** [clearSession()] is called without [await]: its state resets happen at
    the call, and its deletions, which touch keys no other step of the
    upload touches, are run there as well. The progress timer started after
    the validation is [interval_tick], a transition of its own. *)
Definition uploadAndAnalyzeContract (file : UploadFile.t) (now : string)
    (c : context) : option string * context :=
  let c0 := clearSession c in
  let c1 :=
    set_analysisError None (set_uploadError None (set_error None
      (set_isAnalyzingContract true (set_uploadProgress 0%float
         (set_isUploading true c0))))) in
  let attempt : outcome string * context :=
    if negb (Js.truthy (UploadFile.name file)) then
      (Throw "Invalid file: missing name", c1)
    else if negb (Js.truthy (UploadFile.type file)) then
      (Throw "Invalid file: missing type", c1)
    else
      let c2 := record_call (CallUploadContract file) c1 in
      match api_uploadContract file with
      | Throw e => (Throw e, c2)
      | Ok session_id =>
          let c3 := loadSessionData session_id now c2 in
          let c4 :=
            addInteraction_from (sessionId c) (sessionInteractions c)
              question_asked None
              (JObj [("action", JStr "contract_uploaded");
                     ("filename", JStr (default "" (UploadFile.name file)))])
              now c3 in
          (Ok session_id, c4)
      end in
  let '(result, c5) :=
    match attempt with
    | (Ok session_id, c') => (Some session_id, c')
    | (Throw message, c') =>
        let shown :=
          if Js.includes "400" message then
            "Invalid file format. Please check your file and try again."
          else if Js.includes "413" message then
            "File too large. Please use a smaller file."
          else message in
        (None,
         alert "Analysis Error" message
           (set_error (Some message)
              (set_analysisError (Some message)
                 (set_uploadError (Some shown) c'))))
    end in
  (result,
   set_uploadProgress 0%float
     (set_isAnalyzingContract false (set_isUploading false c5))).

(** The update applied to the term a question was answered about. *)
Definition answer_term (termId answer now : string) (t : FrontendAnalysisTerm)
  : FrontendAnalysisTerm :=
  if decide (term_id t = termId) then
    MkTerm (term_id t) (term_text t) (is_valid_sharia t)
      (has_expert_feedback t) (expert_override_is_valid_sharia t)
      (isUserConfirmed t) (userModifiedText t) (Some answer)
      (reviewedSuggestion t) (isReviewedSuggestionValid t)
      (reviewedSuggestionIssue t) (Some now)
      (Some (default 0 (interactionCount t) + 1))
  else t.

Definition askQuestionAboutTerm (termId question now : string) (c : context)
  : option string * context :=
  if negb (Js.truthy (sessionId c)) then (None, c)
  else
    match analysisTerms c with
    | None => (None, c)
    | Some terms =>
        match find (fun t => bool_decide (term_id t = termId)) terms with
        | None => (None, c)
        | Some term =>
            let sid := default "" (sessionId c) in
            let c1 :=
              set_isTermProcessing (<[termId := true]> (isTermProcessing c))
                (set_isAskingQuestion true c) in
            let c2 :=
              record_call
                (CallAskQuestion sid question (Some termId) (Some (term_text term)))
                c1 in
            let '(result, c3) :=
              match api_askQuestion sid question (Some termId)
                      (Some (term_text term)) with
              | Ok answer =>
                  let c' :=
                    set_analysisTerms
                      (option_map (map (answer_term termId answer now))
                         (analysisTerms c2)) c2 in
                  (Some answer,
                   addInteraction_from (sessionId c) (sessionInteractions c)
                     question_asked (Some termId)
                     (JObj [("question", JStr question); ("answer", JStr answer)])
                     now c')
              | Throw errorMessage =>
                  (None, alert "Interaction Error" errorMessage c2)
              end in
            (result,
             set_isTermProcessing (<[termId := false]> (isTermProcessing c3))
               (set_isAskingQuestion false c3))
        end
    end.

End Orchestrator.

(** The state of a freshly mounted provider over an empty store. *)
Definition idle_context : context :=
  MkContext None None None None [] false 0%float false false ∅ false
    None None None empty_store [] [].

(** A remote client for the examples: every call resolves. *)
Definition sample_upload (file : UploadFile.t) : outcome string := Ok "sid-1".
Definition sample_details (sid : string) : outcome jsval :=
  Ok (JObj [("session_id", JStr sid); ("original_filename", JStr "contract.pdf")]).
Definition sample_term : FrontendAnalysisTerm :=
  MkTerm "t1" "clause one" true None None None None None None None None None None.
Definition sample_terms (sid : string)
  : outcome (option (list FrontendAnalysisTerm)) :=
  Ok (Some [sample_term]).
Definition sample_answer (sid question : string) (termId termText : option string)
  : outcome string := Ok "an answer".
Definition no_parse (text : string) : outcome jsval :=
  Throw "SyntaxError: unexpected token".

Definition loaded_context : context :=
  set_analysisTerms (Some [sample_term]) (set_sessionId (Some "sid-1") idle_context).

(** The primitive never rejects under [faulty]. *)
Definition never_rejects (faulty : nat -> prim_op -> option string) : Prop :=
  forall t op, faulty t op = None.

Definition is_object (v : jsval) : Prop :=
  match v with
  | JObj _ => True
  | _ => False
  end.

(** *** Reference definition of the minimal projection *)

(** Of a stored record only the identifier, the file name, the timestamp,
    the compliance percentage and the interaction counters are kept; a
    missing interaction count reads 0 and a missing interaction time reads
    the empty string. *)
Definition minimal_projection (session : jsval) : jsval :=
  match session with
  | JObj fields =>
      let field k := default JUndefined (Json.lookup_field k fields) in
      JObj [("session_id", field "session_id");
            ("original_filename", field "original_filename");
            ("analysis_timestamp", field "analysis_timestamp");
            ("compliance_percentage", field "compliance_percentage");
            ("totalInteractions",
             default (JNum "0") (Json.lookup_field "totalInteractions" fields));
            ("lastInteractionTime",
             default (JStr "") (Json.lookup_field "lastInteractionTime" fields))]
  | other => other
  end.

(** A session as the remote client returns it, with a file name of [n]
    characters. *)
Definition sample_session (n : nat) : jsval :=
  JObj [("_id", JStr "64f0");
        ("session_id", JStr "s1");
        ("original_filename", JStr (repeat_string n "a"));
        ("analysis_timestamp", JStr "2024-01-01T00:00:00.000Z");
        ("compliance_percentage", JNum "50");
        ("analysis_results",
         JArr [JObj [("term_id", JStr "t1"); ("is_valid_sharia", JBool true)]])].


(** A primitive that rejects the call made at clock [t], and only that one. *)
Definition reject_at (t : nat) : nat -> prim_op -> option string :=
  fun now _ => if decide (now = t) then Some "primitive rejected" else None.

(** ** The web fallback of the storage interface (storage.ts) *)

(** [window.localStorage]: a key-value primitive of the same shape as
    SecureStore, without a per-entry capacity. *)
Module localStorage.
Section LocalStorage.
Variable faulty : nat -> prim_op -> option string.

Definition getItem (key : string) : M (option string) :=
  fun s =>
    match faulty (clock s) (OpGet key) with
    | Some e => (Throw e, tick s)
    | None => (Ok (cells s !! key), tick s)
    end.

Definition setItem (key value : string) : M unit :=
  fun s =>
    match faulty (clock s) (OpSet key value) with
    | Some e => (Throw e, tick s)
    | None => (Ok tt, MkStore (<[key := value]> (cells s)) (S (clock s)))
    end.

Definition removeItem (key : string) : M unit :=
  fun s =>
    match faulty (clock s) (OpDelete key) with
    | Some e => (Throw e, tick s)
    | None => (Ok tt, MkStore (delete key (cells s)) (S (clock s)))
    end.
End LocalStorage.
End localStorage.

Module webStorage.
Section Web.
(** [typeof window !== 'undefined' && window.localStorage]. *)
Variable has_localStorage : bool.
Variable faulty : nat -> prim_op -> option string.

Definition getItemAsync (key : string) : M (option string) :=
  try_catch
    (if has_localStorage then localStorage.getItem faulty key else ret None)
    (fun _ => ret None).

Definition setItemAsync (key value : string) : M unit :=
  try_catch
    (if has_localStorage then localStorage.setItem faulty key value else ret tt)
    (fun e => throw e).

Definition deleteItemAsync (key : string) : M unit :=
  try_catch
    (if has_localStorage then localStorage.removeItem faulty key else ret tt)
    (fun e => throw e).
End Web.
End webStorage.

(** ** More of the session history *)

(** Truthiness of a JSON value ([!v] is its negation). *)
Definition js_truthy (v : jsval) : bool :=
  match v with
  | JUndefined | JNull => false
  | JBool b => b
  | JNum rendering =>
      negb (bool_decide (rendering = "0") || bool_decide (rendering = "-0")
            || bool_decide (rendering = "NaN"))
  | JStr s => negb (bool_decide (s = ""))
  | JArr _ | JObj _ => true
  end.

(** [l.filter(f)] for a callback that may throw. *)
Fixpoint filter_outcome {A} (f : A -> outcome bool) (l : list A)
  : outcome (list A) :=
  match l with
  | [] => Ok []
  | x :: rest =>
      let? keep := f x in
      let? kept := filter_outcome f rest in
      Ok (if keep then x :: kept else kept)
  end.

(** [s => s.session_id !== sessionIdToDelete]. *)
Definition other_session (sessionIdToDelete : string) (s : jsval) : outcome bool :=
  let? id := Json.prop s "session_id" in
  Ok (negb (Json.strict_eq id (JStr sessionIdToDelete))).

(** The callback of [bookmarkSession]:
    [s.session_id === sessionId ? {...s, isBookmarked: !s.isBookmarked} : s]. *)
Definition toggle_bookmark (sessionId : string) (s : jsval) : outcome jsval :=
  let? id := Json.prop s "session_id" in
  if Json.strict_eq id (JStr sessionId) then
    let? bookmarked := Json.prop s "isBookmarked" in
    Ok (JObj (set_field "isBookmarked" (JBool (negb (js_truthy bookmarked)))
                (match s with JObj fields => fields | _ => [] end)))
  else Ok s.

Section MoreLocalSessions.
Variable faulty : nat -> prim_op -> option string.
Variable JSON_parse : string -> outcome jsval.

Definition deleteLocalSession (sessionIdToDelete : string) (c : context)
  : context :=
  let captured := sessionInteractions c in
  let '(stored, s1) := getLocalSessions faulty JSON_parse (store c) in
  let filtered :=
    let? stored := stored in
    let? sessions := as_array stored in
    filter_outcome (other_session sessionIdToDelete) sessions in
  match filtered with
  | Throw _ => set_store s1 c
  | Ok updatedSessions =>
      match nativeStorage.setItemAsync faulty storageKeys.SHARIAA_SESSIONS
              (Json.stringify (JArr updatedSessions)) s1 with
      | (Throw _, s2) => set_store s2 c
      | (Ok _, s2) =>
          let updatedInteractions :=
            filter (fun i => i_sessionId i <> sessionIdToDelete) captured in
          on_store_logged
            (nativeStorage.setItemAsync faulty storageKeys.SESSION_INTERACTIONS
               (Json.stringify (JArr (map interaction_json updatedInteractions))))
            (set_sessionInteractions updatedInteractions (set_store s2 c))
      end
  end.

Definition bookmarkSession (sessionId : string) : M unit :=
  try_catch
    (let* stored := getLocalSessions faulty JSON_parse in
     let* sessions := lift (as_array stored) in
     let* updatedSessions := lift (map_outcome (toggle_bookmark sessionId) sessions) in
     nativeStorage.setItemAsync faulty storageKeys.SHARIAA_SESSIONS
       (Json.stringify (JArr updatedSessions)))
    (fun _ => ret tt).

End MoreLocalSessions.

(** ** Persistence of the active session across restarts *)

(** The essential projection of one term. *)
Definition essential_term (term : jsval) : outcome jsval :=
  let? term_id := Json.prop term "term_id" in
  let? is_valid_sharia := Json.prop term "is_valid_sharia" in
  let? isUserConfirmed := Json.prop term "isUserConfirmed" in
  let? userModifiedText := Json.prop term "userModifiedText" in
  let? isReviewedSuggestionValid := Json.prop term "isReviewedSuggestionValid" in
  let? lastModified := Json.prop term "lastModified" in
  let? interactionCount := Json.prop term "interactionCount" in
  Ok (JObj [("term_id", term_id);
            ("is_valid_sharia", is_valid_sharia);
            ("isUserConfirmed", isUserConfirmed);
            ("userModifiedText", userModifiedText);
            ("isReviewedSuggestionValid", isReviewedSuggestionValid);
            ("lastModified", lastModified);
            ("interactionCount", interactionCount)]).

(** The essential projection of the session details. *)
Definition essential_details (details : jsval) : outcome jsval :=
  let? session_id := Json.prop details "session_id" in
  let? original_filename := Json.prop details "original_filename" in
  let? analysis_timestamp := Json.prop details "analysis_timestamp" in
  let? compliance_percentage := Json.prop details "compliance_percentage" in
  let? totalInteractions := Json.prop details "totalInteractions" in
  let? lastInteractionTime := Json.prop details "lastInteractionTime" in
  let? isBookmarked := Json.prop details "isBookmarked" in
  Ok (JObj [("session_id", session_id);
            ("original_filename", original_filename);
            ("analysis_timestamp", analysis_timestamp);
            ("compliance_percentage", compliance_percentage);
            ("totalInteractions", totalInteractions);
            ("lastInteractionTime", lastInteractionTime);
            ("isBookmarked", isBookmarked)]).

Section ActiveSession.
Variable faulty : nat -> prim_op -> option string.
Variable JSON_parse : string -> outcome jsval.

(** The effect run whenever the session identifier, the term list or the
    details change, on the values the state then holds (the terms and the
    details as the JSON values they are). *)
Definition saveSessionData (sessionId : option string)
    (analysisTerms : option (list jsval)) (sessionDetails : option jsval)
  : M unit :=
  match analysisTerms with
  | Some terms =>
      if Js.truthy sessionId then
        try_catch
          (nativeStorage.setItemAsync faulty storageKeys.CURRENT_SESSION_ID
             (default "" sessionId) ;;
           let* essentialTerms := lift (map_outcome essential_term terms) in
           let termsDataString := Json.stringify (JArr essentialTerms) in
           (if decide (String.length termsDataString < 2000) then
              nativeStorage.setItemAsync faulty
                storageKeys.CURRENT_ANALYSIS_TERMS termsDataString
            else ret tt) ;;
           match sessionDetails with
           | Some details =>
               if js_truthy details then
                 let* essentialDetails := lift (essential_details details) in
                 let detailsDataString := Json.stringify essentialDetails in
                 if decide (String.length detailsDataString < 2000) then
                   nativeStorage.setItemAsync faulty
                     storageKeys.CURRENT_SESSION_DETAILS detailsDataString
                 else ret tt
               else ret tt
           | None => ret tt
           end)
          (fun _ => ret tt)
      else ret tt
  | None => ret tt
  end.

(** What [restoreSessionData] hands to [setSessionId], [setAnalysisTerms]
    and [setSessionDetails]; [None] where the setter is not called. *)
Definition restoreSessionData
  : M (option string * option jsval * option jsval) :=
  let* savedSessionId :=
    nativeStorage.getItemAsync faulty storageKeys.CURRENT_SESSION_ID in
  let* savedAnalysisTerms :=
    nativeStorage.getItemAsync faulty storageKeys.CURRENT_ANALYSIS_TERMS in
  let* savedSessionDetails :=
    nativeStorage.getItemAsync faulty storageKeys.CURRENT_SESSION_DETAILS in
  if Js.truthy savedSessionId && Js.truthy savedAnalysisTerms then
    match JSON_parse (default "" savedAnalysisTerms) with
    | Throw _ => ret (savedSessionId, None, None)
    | Ok terms =>
        if Js.truthy savedSessionDetails then
          match JSON_parse (default "" savedSessionDetails) with
          | Throw _ => ret (savedSessionId, Some terms, None)
          | Ok details => ret (savedSessionId, Some terms, Some details)
          end
        else ret (savedSessionId, Some terms, None)
    end
  else ret (None, None, None).

End ActiveSession.

(** ** Term-level operations of the orchestrator *)

(** The argument of [updateTermLocally]: the identifier of the term and the
    properties to overwrite ([None]: the property is not in the object). *)
Record TermUpdate : Type := MkUpdate {
  u_term_id : string;
  u_has_expert_feedback : option (option bool);
  u_expert_override_is_valid_sharia : option (option bool);
  u_isUserConfirmed : option (option bool);
  u_userModifiedText : option (option string);
  u_reviewedSuggestion : option (option string);
  u_isReviewedSuggestionValid : option (option bool);
  u_reviewedSuggestionIssue : option (option string)
}.

(** [{...t, ...params, lastModified: now, interactionCount:
    (t.interactionCount || 0) + 1}]. *)
Definition merge_update (params : TermUpdate) (now : string)
    (t : FrontendAnalysisTerm) : FrontendAnalysisTerm :=
  MkTerm (u_term_id params) (term_text t) (is_valid_sharia t)
    (default (has_expert_feedback t) (u_has_expert_feedback params))
    (default (expert_override_is_valid_sharia t)
       (u_expert_override_is_valid_sharia params))
    (default (isUserConfirmed t) (u_isUserConfirmed params))
    (default (userModifiedText t) (u_userModifiedText params))
    (currentQaAnswer t)
    (default (reviewedSuggestion t) (u_reviewedSuggestion params))
    (default (isReviewedSuggestionValid t) (u_isReviewedSuggestionValid params))
    (default (reviewedSuggestionIssue t) (u_reviewedSuggestionIssue params))
    (Some now)
    (Some (default 0 (interactionCount t) + 1)).

Definition updateTermLocally (params : TermUpdate) (now : string)
    (c : context) : context :=
  set_analysisTerms
    (option_map
       (map (fun t =>
               if decide (term_id t = u_term_id params)
               then merge_update params now t else t))
       (analysisTerms c))
    c.

(** The answer of the remote review of a modification. *)
Record ReviewResponse : Type := MkReview {
  reviewed_text : string;
  is_still_valid_sharia : bool;
  new_sharia_issue : option string
}.

Inductive modification_call : Type :=
  | CallReviewUserModification (sid termId userText originalText : string)
  | CallConfirmTermModification (sid termId text : string).

(** The provider's state with the flags and the calls of the term-level
    operations. *)
Record provider : Type := MkProvider {
  base : context;
  isReviewingModification : gmap string bool;
  isProcessingGeneralQuestion : bool;
  modification_calls : list modification_call
}.

Definition with_base (f : context -> context) (p : provider) : provider :=
  MkProvider (f (base p)) (isReviewingModification p)
    (isProcessingGeneralQuestion p) (modification_calls p).

Section TermOperations.
Variable faulty : nat -> prim_op -> option string.
Variable api_askQuestion :
  string -> string -> option string -> option string -> outcome string.
Variable api_reviewUserModification :
  string -> string -> string -> string -> outcome ReviewResponse.
Variable api_confirmTermModification :
  string -> string -> string -> outcome unit.

Definition reviewUserModification (termId userTextToReview originalTermText
    now : string) (p : provider) : bool * provider :=
  let c := base p in
  if negb (Js.truthy (sessionId c)) then (false, p)
  else
    let sid := default "" (sessionId c) in
    let p1 :=
      MkProvider c (<[termId := true]> (isReviewingModification p))
        (isProcessingGeneralQuestion p)
        (modification_calls p ++
           [CallReviewUserModification sid termId userTextToReview
              originalTermText]) in
    let '(result, c2) :=
      match api_reviewUserModification sid termId userTextToReview
              originalTermText with
      | Ok reviewResponse =>
          let c' :=
            updateTermLocally
              (MkUpdate termId None None (Some (Some false))
                 (Some (Some (reviewed_text reviewResponse)))
                 (Some (Some (reviewed_text reviewResponse)))
                 (Some (Some (is_still_valid_sharia reviewResponse)))
                 (Some (if Js.truthy (new_sharia_issue reviewResponse)
                        then new_sharia_issue reviewResponse else None)))
              now c in
          (true,
           addInteraction_from faulty (sessionId c) (sessionInteractions c)
             term_modified (Some termId)
             (JObj [("originalText", JStr originalTermText);
                    ("reviewedText", JStr (reviewed_text reviewResponse));
                    ("isValid", JBool (is_still_valid_sharia reviewResponse))])
             now c')
      | Throw errorMessage => (false, alert "Review Error" errorMessage c)
      end in
    (result,
     MkProvider c2 (<[termId := false]> (isReviewingModification p1))
       (isProcessingGeneralQuestion p1) (modification_calls p1)).

Definition confirmTermModification (termId textToConfirm now : string)
    (p : provider) : bool * provider :=
  let c := base p in
  if negb (Js.truthy (sessionId c)) then (false, p)
  else
    let sid := default "" (sessionId c) in
    let c1 :=
      set_isTermProcessing (<[termId := true]> (isTermProcessing c)) c in
    let calls :=
      modification_calls p ++ [CallConfirmTermModification sid termId textToConfirm] in
    let '(result, c2) :=
      match api_confirmTermModification sid termId textToConfirm with
      | Ok _ =>
          let c' :=
            updateTermLocally
              (MkUpdate termId None None (Some (Some true))
                 (Some (Some textToConfirm)) None None None)
              now c1 in
          (true,
           addInteraction_from faulty (sessionId c) (sessionInteractions c)
             term_modified (Some termId)
             (JObj [("confirmedText", JStr textToConfirm);
                    ("action", JStr "confirmed")])
             now c')
      | Throw errorMessage => (false, alert "Confirmation Error" errorMessage c1)
      end in
    (result,
     MkProvider
       (set_isTermProcessing (<[termId := false]> (isTermProcessing c2)) c2)
       (isReviewingModification p) (isProcessingGeneralQuestion p) calls).

Definition askGeneralContractQuestion (question now : string) (p : provider)
  : option string * provider :=
  let c := base p in
  if negb (Js.truthy (sessionId c)) then (None, p)
  else
    let sid := default "" (sessionId c) in
    let c1 :=
      record_call (CallAskQuestion sid question None None)
        (set_isAskingQuestion true c) in
    let '(result, c2) :=
      match api_askQuestion sid question None None with
      | Ok answer =>
          (Some answer,
           addInteraction_from faulty (sessionId c) (sessionInteractions c)
             question_asked None
             (JObj [("question", JStr question); ("answer", JStr answer);
                    ("type", JStr "general")])
             now c1)
      | Throw errorMessage => (None, alert "Interaction Error" errorMessage c1)
      end in
    (result,
     MkProvider (set_isAskingQuestion false c2) (isReviewingModification p)
       false (modification_calls p)).

End TermOperations.

(** A provider around a context, nothing in flight. *)
Definition provider_of (c : context) : provider := MkProvider c ∅ false [].

(** The entries of the primitive store a key can own: its direct entry, its
    manifest and its chunks. Two keys are independent when they own no
    entry in common. *)
Definition key_family (key k : string) : Prop :=
  k = key \/ k = nativeStorage.manifest_key key \/
  exists j, k = nativeStorage.chunk_key key j.

Definition independent_keys (a b : string) : Prop :=
  forall k, key_family a k -> key_family b k -> False.

(** Whether a stored record carries the session identifier [sid]. *)
Definition has_session_id (sid : string) (s : jsval) : bool :=
  match s with
  | JObj fields =>
      match Json.lookup_field "session_id" fields with
      | Some (JStr x) => bool_decide (x = sid)
      | _ => false
      end
  | _ => false
  end.

(** A [JSON.parse] for the examples: whatever the text, it yields [v]. *)
Definition parse_as (v : jsval) (text : string) : outcome jsval := Ok v.

(** A store whose sessions key holds some text, and the list it stands for. *)
Definition history_store : secure_store :=
  MkStore (<["shariaa_sessions" := "stored history"]> ∅) 0.
Definition history : list jsval :=
  [JObj [("session_id", JStr "s1"); ("isBookmarked", JBool false)];
   JObj [("session_id", JStr "s2")]].

(** A [JSON.parse] for the examples that knows the documents of [table]: it
    yields the one whose serialization is the text, and throws otherwise. *)
Definition parse_table (table : list jsval) (text : string) : outcome jsval :=
  match find (fun v => bool_decide (Json.stringify v = text)) table with
  | Some v => Ok v
  | None => Throw "SyntaxError: unexpected token"
  end.

(** One analysed term and the details of its session, as JSON values. *)
Definition sample_json_term : jsval :=
  JObj [("term_id", JStr "t1"); ("term_text", JStr "clause one");
        ("is_valid_sharia", JBool true)].
Definition sample_json_details : jsval :=
  JObj [("session_id", JStr "sid-1"); ("original_filename", JStr "contract.pdf")].
Definition sample_essential_term : jsval :=
  JObj [("term_id", JStr "t1"); ("is_valid_sharia", JBool true);
        ("isUserConfirmed", JUndefined); ("userModifiedText", JUndefined);
        ("isReviewedSuggestionValid", JUndefined); ("lastModified", JUndefined);
        ("interactionCount", JUndefined)].
Definition sample_essential_details : jsval :=
  JObj [("session_id", JStr "sid-1"); ("original_filename", JStr "contract.pdf");
        ("analysis_timestamp", JUndefined); ("compliance_percentage", JUndefined);
        ("totalInteractions", JUndefined); ("lastInteractionTime", JUndefined);
        ("isBookmarked", JUndefined)].
(** A term whose text the user modified at length. *)
Definition long_json_term : jsval :=
  JObj [("term_id", JStr "t1"); ("is_valid_sharia", JBool true);
        ("userModifiedText", JStr (repeat_string 2000 "a"))].

(** Remote clients for the examples that reject, and a well-formed file. *)
Definition rejecting_answer (sid question : string)
    (termId termText : option string) : outcome string :=
  Throw "503 Service Unavailable".
Definition rejecting_upload (file : UploadFile.t) : outcome string :=
  Throw "Request failed with status code 400".
Definition rejecting_details (sid : string) : outcome jsval :=
  Throw "Network Error".
Definition rejecting_terms (sid : string)
  : outcome (option (list FrontendAnalysisTerm)) :=
  Throw "timeout of 30000ms exceeded".
(** Timings for the examples. *)
Definition details_first (sid : string) : bool := false.
Definition terms_first (sid : string) : bool := true.
Definition sample_file : UploadFile.t :=
  UploadFile.Mk (Some "contract.pdf") (Some "application/pdf") None.
Definition sample_review (sid termId userText originalText : string)
  : outcome ReviewResponse :=
  Ok (MkReview "a revised clause" false (Some "interest is charged")).
Definition rejecting_review (sid termId userText originalText : string)
  : outcome ReviewResponse :=
  Throw "Network Error".
Definition sample_confirm (sid termId text : string) : outcome unit := Ok tt.

(** Concatenation of a list of strings, in order. *)
Definition concat_strings (l : list string) : string :=
  foldr String.append "" l.

(** What a chunked read is expected to yield: the chunk entries present in
    the primitive store at indices [i, i + n), concatenated in index
    order; an absent entry contributes nothing. *)
Definition present_chunks (key : string) (m : gmap string string) (i n : nat)
  : string :=
  concat_strings
    (map (fun j => default "" (m !! nativeStorage.chunk_key key j)) (seq i n)).

(** * Properties *)

(** ** Strings *)

Lemma app_cons (c : ascii) (s t : string) :
  String c s +:+ t = String c (s +:+ t).
Proof. reflexivity. Qed.

Lemma app_empty_l (s : string) : "" +:+ s = s.
Proof. reflexivity. Qed.

Lemma app_empty_r (s : string) : s +:+ "" = s.
Proof. induction s as [|c s IH]; [done|]. by rewrite app_cons, IH. Qed.

Lemma app_assoc_string (a b c : string) : (a +:+ b) +:+ c = a +:+ (b +:+ c).
Proof. induction a as [|x a IH]; [done|]. by rewrite !app_cons, IH. Qed.

Lemma length_app_string (a b : string) :
  String.length (a +:+ b) = String.length a + String.length b.
Proof. induction a as [|x a IH]; [done|]. rewrite app_cons. simpl. by rewrite IH. Qed.

Lemma take_drop_string (n : nat) (s : string) : Js.take n s +:+ Js.drop n s = s.
Proof.
  revert s. induction n as [|n IH]; intros [|c s]; simpl; try done.
  by rewrite app_cons, IH.
Qed.

Lemma drop_drop_string (n m : nat) (s : string) :
  Js.drop n (Js.drop m s) = Js.drop (m + n) s.
Proof.
  revert s. induction m as [|m IH]; intros s; [done|].
  destruct s as [|c s]; simpl; [by destruct n|]. apply IH.
Qed.

Lemma drop_ge_string (n : nat) (s : string) :
  String.length s <= n -> Js.drop n s = "".
Proof.
  revert s. induction n as [|n IH]; intros [|c s]; simpl; intros; try done; try lia.
  apply IH. lia.
Qed.

Lemma length_drop_string (n : nat) (s : string) :
  String.length (Js.drop n s) = String.length s - n.
Proof. revert s. induction n as [|n IH]; intros [|c s]; simpl; auto. Qed.

Lemma app_ne_self (s t : string) : t <> "" -> s +:+ t <> s.
Proof.
  intros Ht Heq. apply (f_equal String.length) in Heq.
  rewrite length_app_string in Heq. destruct t; [done|]. simpl in Heq. lia.
Qed.

(** ** Decimal rendering and [parseInt] *)

Lemma digit_char_facts (d : N) :
  (d < 10)%N ->
  Ascii.is_nat (pretty_N_char d) = Some (N.to_nat d) /\
  Ascii.is_space (pretty_N_char d) = false /\
  pretty_N_char d <> "-"%char /\ pretty_N_char d <> "+"%char.
Proof.
  intros Hd.
  assert (d = 0 \/ d = 1 \/ d = 2 \/ d = 3 \/ d = 4 \/ d = 5 \/ d = 6 \/
          d = 7 \/ d = 8 \/ d = 9)%N as Hcases by lia.
  repeat (destruct Hcases as [->|Hcases]); try subst d; by vm_compute.
Qed.

Lemma pretty_N_go_head (x : N) (s : string) :
  (0 < x)%N ->
  exists d r, (d < 10)%N /\ pretty_N_go x s = String (pretty_N_char d) r.
Proof.
  revert s. induction (N.lt_wf_0 x) as [x _ IH]. intros s Hx.
  rewrite pretty_N_go_step by done.
  destruct (decide (x `div` 10 = 0)%N) as [Hz|Hz].
  - rewrite Hz, pretty_N_go_0. exists (x `mod` 10)%N, s. split; [|done].
    by apply N.mod_lt.
  - apply IH; [|by apply N.neq_0_lt_0]. apply N.div_lt; lia.
Qed.

Lemma digits_value_pretty_go (x : N) (s : string) (a : N) :
  exists k : N,
    Js.digits_value (pretty_N_go x s) a = Js.digits_value s (a * 10 ^ k + x)%N.
Proof.
  revert s a. induction (N.lt_wf_0 x) as [x _ IH]. intros s a.
  destruct (decide (x = 0)%N) as [->|Hx].
  - exists 0%N. rewrite pretty_N_go_0. f_equal. lia.
  - rewrite pretty_N_go_step by lia.
    destruct (IH (x `div` 10)%N) with
      (s := String (pretty_N_char (x `mod` 10)) s) (a := a) as [k Hk].
    { apply N.div_lt; lia. }
    exists (k + 1)%N. rewrite Hk. simpl.
    destruct (digit_char_facts (x `mod` 10)%N) as [-> _]; [by apply N.mod_lt|].
    f_equal. rewrite N.pow_add_r, N.pow_1_r, N2Nat.id.
    pose proof (N.div_mod x 10). lia.
Qed.

Lemma parseInt_digits (d : N) (r : string) :
  (d < 10)%N ->
  Js.parseInt (String (pretty_N_char d) r)
  = Some (Z.of_N (Js.digits_value (String (pretty_N_char d) r) 0)).
Proof.
  intros Hd. destruct (digit_char_facts d Hd) as (Hnat & Hsp & Hm & Hp).
  unfold Js.parseInt. cbn [Js.skip_space]. rewrite Hsp.
  assert ((match String (pretty_N_char d) r with
           | String "-"%char r0 => (true, r0)
           | String "+"%char r0 => (false, r0)
           | _ => (false, String (pretty_N_char d) r)
           end) = (false, String (pretty_N_char d) r)) as ->.
  { destruct (pretty_N_char d) as [[] [] [] [] [] [] [] []]; try done. }
  cbn [Js.starts_with_digit]. by rewrite Hnat.
Qed.

Lemma parseInt_pretty (n : nat) : Js.parseInt (pretty n) = Some (Z.of_nat n).
Proof.
  unfold pretty, pretty_nat, pretty, pretty_N.
  case_decide as Hn.
  - by replace n with 0 by lia.
  - destruct (pretty_N_go_head (N.of_nat n) "") as (d & r & Hd & Heq); [lia|].
    destruct (digits_value_pretty_go (N.of_nat n) "" 0) as [k Hk].
    rewrite Heq in *. rewrite parseInt_digits by done. rewrite Hk. simpl.
    f_equal. lia.
Qed.

Lemma pretty_nat_nonempty (n : nat) : exists c r, pretty n = String c r.
Proof.
  unfold pretty, pretty_nat, pretty, pretty_N.
  case_decide as Hn; [by eexists _, _|].
  destruct (pretty_N_go_head (N.of_nat n) "") as (d & r & _ & Heq); [lia|].
  eauto.
Qed.

Lemma loop_count_pretty (n : nat) : Js.loop_count (Js.parseInt (pretty n)) = n.
Proof. rewrite parseInt_pretty. simpl. lia. Qed.

(** ** The definitions on small inputs *)

Example parseInt_examples :
  Js.parseInt " 12abc" = Some 12%Z /\ Js.parseInt "abc" = None /\
  Js.parseInt "-7" = Some (-7)%Z /\ Js.parseInt "" = None.
Proof. repeat split; reflexivity. Qed.

Example make_chunks_lengths :
  map String.length (nativeStorage.make_chunks (repeat_string 4001 "a"))
  = [2000; 2000; 1] /\
  map String.length (nativeStorage.make_chunks (repeat_string 4000 "a"))
  = [2000; 2000].
Proof. split; vm_compute; reflexivity. Qed.

Example direct_value_has_no_manifest :
  map_to_list
    (cells (nativeStorage.setItemAsync reliable "k" "short" empty_store).2)
  = [("k", "short")].
Proof. vm_compute. reflexivity. Qed.

Example chunked_value_layout :
  let m := cells (nativeStorage.setItemAsync reliable "k" (repeat_string 2001 "a")
                    empty_store).2 in
  m !! "k_chunks" = Some "2" /\ m !! "k_chunk_1" = Some "a" /\
  m !! "k" = None /\ length (map_to_list m) = 3.
Proof. vm_compute. repeat split; reflexivity. Qed.

Example stats_one_of_three :
  complianceStats
    (Some [MkTerm "a" "" true None None None None None None None None None None;
           MkTerm "b" "" true None (Some false) (Some true) None None None
             (Some true) None None None;
           MkTerm "c" "" false (Some true) None None None None None None None
             None None])
  = Some (MkStats 3 1 2 (1 / 3 * 100)%float 1 1).
Proof. vm_compute. reflexivity. Qed.

Example includes_examples :
  Js.includes "400" "Request failed with status code 400" = true /\
  Js.includes "413" "Invalid file: missing name" = false.
Proof. split; reflexivity. Qed.

(** ** Chunk keys never collide *)

Import nativeStorage.

Lemma manifest_key_ne_key (key : string) : manifest_key key <> key.
Proof. by apply app_ne_self. Qed.

Lemma chunk_key_ne_key (key : string) (i : nat) : chunk_key key i <> key.
Proof. by apply app_ne_self. Qed.

Lemma chunk_key_ne_manifest (key : string) (i : nat) :
  chunk_key key i <> manifest_key key.
Proof.
  unfold chunk_key, manifest_key. intros H.
  apply (inj (String.app key)) in H.
  rewrite !app_cons in H. by simplify_eq.
Qed.

Lemma chunk_key_inj (key : string) (i j : nat) :
  chunk_key key i = chunk_key key j -> i = j.
Proof.
  unfold chunk_key. intros H.
  apply (inj (String.app key)) in H.
  apply (inj (String.app "_chunk_")) in H.
  by apply (inj pretty) in H.
Qed.

(** ** Splitting into chunks loses nothing *)

Lemma chunkSize_pos : 0 < chunkSize.
Proof. unfold chunkSize. lia. Qed.

Lemma slice_chunk (i n : nat) (value : string) :
  Js.slice i (i + n) value = Js.take n (Js.drop i value).
Proof. unfold Js.slice. f_equal. lia. Qed.

Lemma chunk_loop_concat (value : string) (fuel i : nat) :
  String.length value - i < fuel ->
  concat_strings (chunk_loop fuel i value) = Js.drop i value.
Proof.
  pose proof chunkSize_pos as Hpos. revert i.
  induction fuel as [|fuel IH]; intros i Hfuel; [lia|].
  cbn [chunk_loop]. case_decide as Hi.
  - cbn [concat_strings foldr]. fold (concat_strings (chunk_loop fuel (i + chunkSize) value)).
    rewrite IH by lia. rewrite slice_chunk, <- drop_drop_string.
    apply take_drop_string.
  - symmetry. apply drop_ge_string. lia.
Qed.

Lemma make_chunks_concat (value : string) :
  concat_strings (make_chunks value) = value.
Proof. unfold make_chunks. rewrite chunk_loop_concat by lia. done. Qed.

Lemma present_chunks_stored (key : string) (m : gmap string string)
    (chunks : list string) (i : nat) :
  (forall j c, chunks !! j = Some c -> m !! chunk_key key (i + j) = Some c) ->
  present_chunks key m i (length chunks) = concat_strings chunks.
Proof.
  revert i. induction chunks as [|c chunks IH]; intros i Hm; [done|].
  unfold present_chunks in *. cbn [length seq map concat_strings foldr].
  pose proof (Hm 0 c eq_refl) as H0. rewrite Nat.add_0_r in H0.
  rewrite H0. simpl default. f_equal.
  apply IH. intros j c' Hj. replace (S i + j) with (i + S j) by lia.
  by apply Hm.
Qed.

(** ** The chunking layer over a primitive that may reject *)

Ltac run_prim H :=
  match type of H with
  | context [SecureStore.setItemAsync ?f ?k ?v ?s] =>
      unfold SecureStore.setItemAsync in H;
      destruct (f (clock s) (OpSet k v)) eqn:?
  | context [SecureStore.deleteItemAsync ?f ?k ?s] =>
      unfold SecureStore.deleteItemAsync in H;
      destruct (f (clock s) (OpDelete k)) eqn:?
  | context [SecureStore.getItemAsync ?f ?k ?s] =>
      unfold SecureStore.getItemAsync in H;
      destruct (f (clock s) (OpGet k)) eqn:?
  end.

Section StorageProperties.
Variable faulty : nat -> prim_op -> option string.

Lemma set_ok_cells (k v : string) (s s' : secure_store) :
  SecureStore.setItemAsync faulty k v s = (Ok tt, s') ->
  cells s' = <[k := v]> (cells s).
Proof. intros H. run_prim H; by simplify_eq. Qed.

Lemma store_chunks_ok (key : string) (chunks : list string) (i : nat)
    (s s' : secure_store) :
  store_chunks faulty key chunks i s = (Ok tt, s') ->
  (forall j c, chunks !! j = Some c ->
     cells s' !! chunk_key key (i + j) = Some c) /\
  (forall k, (forall j, j < length chunks -> k <> chunk_key key (i + j)) ->
     cells s' !! k = cells s !! k).
Proof.
  revert i s. induction chunks as [|c chunks IH]; intros i s H.
  - cbn in H. unfold ret in H. simplify_eq. by split.
  - cbn [store_chunks] in H. unfold bind in H.
    destruct (SecureStore.setItemAsync faulty (chunk_key key i) c s)
      as [[[]|e] s1] eqn:Hset; [|done].
    apply set_ok_cells in Hset. apply IH in H as [Hin Hout].
    split.
    + intros [|j] c' Hj; simplify_eq/=.
      * rewrite Nat.add_0_r, Hout, Hset; [by rewrite lookup_insert_eq|].
        intros j _ Hj. apply chunk_key_inj in Hj. lia.
      * replace (i + S j) with (S i + j) by lia. by apply Hin.
    + intros k Hk. rewrite Hout, Hset.
      * rewrite lookup_insert_ne; [done|]. intros Heq.
        apply (Hk 0); [simpl; lia|]. by rewrite Nat.add_0_r.
      * intros j Hj. replace (S i + j) with (i + S j) by lia.
        apply Hk. simpl. lia.
Qed.

Lemma swallowed_delete (k : string) (s : secure_store) :
  exists s', try_catch (SecureStore.deleteItemAsync faulty k) (fun _ => ret tt) s
             = (Ok tt, s') /\
             forall k', k' <> k -> cells s' !! k' = cells s !! k'.
Proof.
  unfold try_catch, SecureStore.deleteItemAsync, ret.
  destruct (faulty (clock s) (OpDelete k)); eexists; (split; [done|]);
    intros k' Hk'; simpl; [done|]. by rewrite lookup_delete_ne.
Qed.

Lemma truthy_append (acc : string) (chunk : option string) :
  (if Js.truthy chunk then acc +:+ default "" chunk else acc)
  = acc +:+ default "" chunk.
Proof. destruct chunk as [[|c r]|]; simpl; by rewrite ?app_empty_r. Qed.

Lemma truthy_nonempty (v : string) : v <> "" -> Js.truthy (Some v) = true.
Proof. by destruct v. Qed.

Lemma read_chunks_reliable (key : string) (n i : nat) (acc : string)
    (s : secure_store) :
  gets_reliable faulty ->
  read_chunks faulty key n i acc s
  = (Ok (acc +:+ present_chunks key (cells s) i n),
     MkStore (cells s) (n + clock s)).
Proof.
  intros Hrel. revert i acc s. induction n as [|n IH]; intros i acc s.
  - cbn. unfold ret, present_chunks. cbn. rewrite app_empty_r. by destruct s.
  - cbn [read_chunks]. unfold bind, SecureStore.getItemAsync. rewrite Hrel.
    rewrite IH, truthy_append. cbn [tick cells clock].
    unfold present_chunks. cbn [seq map concat_strings foldr].
    rewrite app_assoc_string. do 2 f_equal. lia.
Qed.

(** A manifest that is found makes [getItemAsync] return the chunk entries
    present below the recorded count, whatever else the store holds. *)
Lemma getItemAsync_manifest (key manifest : string) (s : secure_store) :
  gets_reliable faulty ->
  cells s !! manifest_key key = Some manifest ->
  manifest <> "" ->
  (getItemAsync faulty key s).1
  = Ok (Some (present_chunks key (cells s) 0
                (Js.loop_count (Js.parseInt manifest)))).
Proof.
  intros Hrel Hm Hne. unfold getItemAsync, try_catch, bind.
  unfold SecureStore.getItemAsync at 1. rewrite Hrel, Hm.
  rewrite truthy_nonempty by done. cbn [default from_option]. unfold id.
  rewrite read_chunks_reliable by done. unfold ret. cbn [fst].
  by rewrite app_empty_l.
Qed.

Lemma setItemAsync_chunked_eq (key value : string) :
  2000 < String.length value ->
  setItemAsync faulty key value
  = try_catch
      (SecureStore.setItemAsync faulty (manifest_key key)
         (pretty (length (make_chunks value))) ;;
       store_chunks faulty key (make_chunks value) 0 ;;
       try_catch (SecureStore.deleteItemAsync faulty key) (fun _ => ret tt))
      (fun e => throw e).
Proof.
  intros Hlen. unfold setItemAsync. case_decide; [reflexivity|lia].
Qed.

Lemma setItemAsync_chunked_inv (key value : string) (s s' : secure_store) :
  2000 < String.length value ->
  setItemAsync faulty key value s = (Ok tt, s') ->
  exists s1 s2,
    SecureStore.setItemAsync faulty (manifest_key key)
      (pretty (length (make_chunks value))) s = (Ok tt, s1) /\
    store_chunks faulty key (make_chunks value) 0 s1 = (Ok tt, s2) /\
    try_catch (SecureStore.deleteItemAsync faulty key) (fun _ => ret tt) s2
      = (Ok tt, s').
Proof.
  intros Hlen H. rewrite setItemAsync_chunked_eq in H by done.
  unfold try_catch at 1 in H. unfold bind in H.
  destruct (SecureStore.setItemAsync faulty (manifest_key key) _ s)
    as [[[]|e1] s1] eqn:H1; [|done].
  destruct (store_chunks faulty key _ 0 s1) as [[[]|e2] s2] eqn:H2; [|done].
  destruct (swallowed_delete key s2) as (s3 & H3 & _).
  rewrite H3 in H. simplify_eq. eauto.
Qed.

(** What a completed chunked [setItemAsync] leaves in the primitive store:
    the manifest, every chunk at its index, and nothing else touched except
    possibly the direct entry. *)
Lemma setItemAsync_chunked_cells (key value : string) (s s' : secure_store) :
  2000 < String.length value ->
  setItemAsync faulty key value s = (Ok tt, s') ->
  cells s' !! manifest_key key = Some (pretty (length (make_chunks value))) /\
  (forall j c, make_chunks value !! j = Some c ->
     cells s' !! chunk_key key j = Some c) /\
  (forall k, k <> key -> k <> manifest_key key ->
     (forall j, j < length (make_chunks value) -> k <> chunk_key key j) ->
     cells s' !! k = cells s !! k).
Proof.
  intros Hlen H.
  destruct (setItemAsync_chunked_inv _ _ _ _ Hlen H) as (s1 & s2 & H1 & H2 & H3).
  apply set_ok_cells in H1. apply store_chunks_ok in H2 as [Hin Hout].
  destruct (swallowed_delete key s2) as (s3 & H3' & Hdel).
  rewrite H3' in H3. simplify_eq.
  split; [|split].
  - rewrite Hdel by apply manifest_key_ne_key.
    rewrite Hout, H1; [by rewrite lookup_insert_eq|].
    intros j _ Heq. by apply (chunk_key_ne_manifest key (0 + j)).
  - intros j c Hj. rewrite Hdel by apply chunk_key_ne_key. by apply (Hin j).
  - intros k Hk Hm Hc. rewrite Hdel, Hout, H1 by done.
    by rewrite lookup_insert_ne.
Qed.

(** Reading back a key whose manifest and chunks are those of [value]. *)
Lemma getItemAsync_chunked_cells (key value : string) (s : secure_store) :
  gets_reliable faulty ->
  cells s !! manifest_key key = Some (pretty (length (make_chunks value))) ->
  (forall j c, make_chunks value !! j = Some c ->
     cells s !! chunk_key key j = Some c) ->
  present_chunks key (cells s) 0
    (Js.loop_count (Js.parseInt (pretty (length (make_chunks value)))))
  = value.
Proof.
  intros Hrel Hm Hc.
  rewrite loop_count_pretty, present_chunks_stored by done.
  apply make_chunks_concat.
Qed.

(** C1. A value longer than 2000 characters that [setItemAsync] has stored
    (chunked) is returned unchanged by [getItemAsync], for every key, every
    such value (a length that is an exact multiple of 2000 included) and
    every prior content of the store (earlier, larger chunked values
    included). *)
Theorem chunked_put_get_roundtrip (key value : string) (s s' : secure_store) :
  2000 < String.length value ->
  setItemAsync faulty key value s = (Ok tt, s') ->
  gets_reliable faulty ->
  (getItemAsync faulty key s').1 = Ok (Some value).
Proof.
  intros Hlen Hput Hrel.
  destruct (setItemAsync_chunked_cells _ _ _ _ Hlen Hput) as (Hm & Hc & _).
  destruct (pretty_nat_nonempty (length (make_chunks value))) as (c & r & Hp).
  rewrite (getItemAsync_manifest key _ s' Hrel Hm) by (by rewrite Hp).
  do 2 f_equal. by apply getItemAsync_chunked_cells.
Qed.

(** C9. When a non-empty manifest is found for [key], [getItemAsync] does not
    throw and does not answer null: it answers the concatenation, in index
    order, of the chunk entries that are present below the recorded count
    (absent ones contribute nothing; the empty string when none is there). *)
Theorem getItemAsync_drops_missing_chunks (key manifest : string)
    (s : secure_store) :
  gets_reliable faulty ->
  cells s !! manifest_key key = Some manifest ->
  manifest <> "" ->
  let count := Js.loop_count (Js.parseInt manifest) in
  (getItemAsync faulty key s).1
    = Ok (Some (present_chunks key (cells s) 0 count)) /\
  ((forall i, i < count -> cells s !! chunk_key key i = None) ->
   (getItemAsync faulty key s).1 = Ok (Some "")).
Proof.
  intros Hrel Hm Hne count.
  rewrite (getItemAsync_manifest key manifest s Hrel Hm Hne).
  split; [done|]. intros Hnone. do 2 f_equal. fold count.
  unfold present_chunks.
  assert (forall i n, (forall j, i <= j < i + n ->
            cells s !! chunk_key key j = None) ->
          concat_strings
            (map (fun j => default "" (cells s !! chunk_key key j)) (seq i n))
          = "") as Hall.
  { intros i n. revert i. induction n as [|n IH]; intros i Hi; [done|].
    cbn [seq map concat_strings foldr]. rewrite Hi by lia.
    cbn [default]. rewrite app_empty_l. apply IH. intros j Hj. apply Hi. lia. }
  apply Hall. intros j Hj. apply Hnone. lia.
Qed.

(** Cleanup never surfaces an error: [deleteChunks] always completes. *)
Lemma deleteChunks_never_throws (key : string) (s : secure_store) :
  exists s', deleteChunks faulty key s = (Ok tt, s').
Proof.
  unfold deleteChunks, try_catch, ret.
  destruct (bind _ _ s) as [[[]|e] s1]; eauto.
Qed.

(** [deleteItemAsync] completes as soon as the deletion of the direct entry
    does, whatever fails while the chunks are cleaned up. *)
Lemma deleteItemAsync_completes (key : string) (s : secure_store) :
  faulty (clock s) (OpDelete key) = None ->
  exists s', deleteItemAsync faulty key s = (Ok tt, s').
Proof.
  intros Hok. unfold deleteItemAsync, try_catch at 1, bind.
  unfold SecureStore.deleteItemAsync at 1. rewrite Hok.
  destruct (deleteChunks_never_throws key
              (MkStore (delete key (cells s)) (S (clock s)))) as [s' ->].
  eauto.
Qed.

Lemma delete_chunk_loop_cells (key : string) (n i : nat) (s : secure_store) :
  exists s',
    delete_chunk_loop faulty key n i s = (Ok tt, s') /\
    (forall k, (forall j, i <= j < i + n -> k <> chunk_key key j) ->
       cells s' !! k = cells s !! k) /\
    (deletes_reliable faulty ->
     forall j, i <= j < i + n -> cells s' !! chunk_key key j = None).
Proof.
  revert i s. induction n as [|n IH]; intros i s.
  - exists s. cbn. unfold ret. split; [done|]. split; [done|].
    intros _ j Hj. lia.
  - cbn [delete_chunk_loop]. unfold bind.
    destruct (swallowed_delete (chunk_key key i) s) as (s1 & H1 & Hother).
    rewrite H1. destruct (IH (S i) s1) as (s' & Hloop & Hout & Hin).
    exists s'. split; [done|]. split.
    + intros k Hk. rewrite Hout by (intros j Hj; apply Hk; lia).
      apply Hother. apply Hk. lia.
    + intros Hrel j Hj. destruct (decide (j = i)) as [->|Hne].
      * rewrite Hout.
        -- unfold try_catch, SecureStore.deleteItemAsync in H1.
           rewrite Hrel in H1. simplify_eq. cbn. by rewrite lookup_delete_eq.
        -- intros j Hj' Heq. apply chunk_key_inj in Heq. lia.
      * apply Hin; [done|lia].
Qed.

(** On a primitive that does not reject, deleting a key whose last write was
    chunked removes the direct entry, the manifest and every chunk below the
    recorded count; chunk entries at or above that count are not visited. *)
Lemma delete_after_chunked_put (key value : string) (s s1 : secure_store) :
  gets_reliable faulty -> deletes_reliable faulty ->
  2000 < String.length value ->
  setItemAsync faulty key value s = (Ok tt, s1) ->
  exists s2,
    deleteItemAsync faulty key s1 = (Ok tt, s2) /\
    cells s2 !! key = None /\
    cells s2 !! manifest_key key = None /\
    (forall j, j < length (make_chunks value) ->
       cells s2 !! chunk_key key j = None) /\
    (forall j, length (make_chunks value) <= j ->
       cells s2 !! chunk_key key j = cells s !! chunk_key key j).
Proof.
  intros Hget Hdel Hlen Hput.
  destruct (setItemAsync_chunked_cells _ _ _ _ Hlen Hput) as (Hm & Hc & Hrest).
  destruct (pretty_nat_nonempty (length (make_chunks value))) as (c & r & Hp).
  unfold deleteItemAsync, try_catch at 1, bind.
  unfold SecureStore.deleteItemAsync at 1. rewrite Hdel.
  unfold deleteChunks, try_catch, bind.
  unfold SecureStore.getItemAsync. rewrite Hget. cbn [cells clock tick].
  rewrite lookup_delete_ne, Hm by (apply not_eq_sym, manifest_key_ne_key).
  assert (Js.truthy (Some (pretty (length (make_chunks value)))) = true)
    as -> by (by rewrite Hp).
  cbn [default]. unfold id. rewrite loop_count_pretty.
  match goal with
  | |- context [delete_chunk_loop faulty key ?n 0 ?st] =>
      destruct (delete_chunk_loop_cells key n 0 st) as (s3 & -> & Hout & Hin)
  end.
  unfold SecureStore.deleteItemAsync. rewrite Hdel. cbn [cells] in *.
  eexists. split; [done|]. cbn [cells].
  split; [|split; [|split]].
  - rewrite lookup_delete_ne by apply manifest_key_ne_key.
    rewrite Hout by (intros j _; apply not_eq_sym, chunk_key_ne_key).
    apply lookup_delete_eq.
  - apply lookup_delete_eq.
  - intros j Hj. rewrite lookup_delete_ne by apply not_eq_sym, chunk_key_ne_manifest.
    apply (Hin Hdel). lia.
  - intros j Hj. rewrite lookup_delete_ne by apply not_eq_sym, chunk_key_ne_manifest.
    rewrite Hout by (intros j' Hj' Heq; apply chunk_key_inj in Heq; lia).
    cbn [tick cells]. rewrite lookup_delete_ne by apply not_eq_sym, chunk_key_ne_key.
    apply Hrest; [apply chunk_key_ne_key|apply chunk_key_ne_manifest|].
    intros j' Hj' Heq. apply chunk_key_inj in Heq. lia.
Qed.

(** *** A primitive that never rejects *)

Lemma store_chunks_completes (key : string) (chunks : list string) (i : nat)
    (s : secure_store) :
  never_rejects faulty ->
  exists s', store_chunks faulty key chunks i s = (Ok tt, s').
Proof.
  intros Hrel. revert i s. induction chunks as [|c chunks IH]; intros i s.
  - by eexists.
  - cbn [store_chunks]. unfold bind, SecureStore.setItemAsync. rewrite Hrel.
    apply IH.
Qed.

Lemma setItemAsync_chunked_completes (key value : string) (s : secure_store) :
  never_rejects faulty ->
  2000 < String.length value ->
  exists s', setItemAsync faulty key value s = (Ok tt, s').
Proof.
  intros Hrel Hlen. rewrite setItemAsync_chunked_eq by done.
  unfold try_catch at 1. unfold bind.
  unfold SecureStore.setItemAsync at 1. rewrite Hrel.
  match goal with
  | |- context [store_chunks faulty key ?chunks 0 ?st] =>
      destruct (store_chunks_completes key chunks 0 st Hrel) as [s2 ->]
  end.
  destruct (swallowed_delete key s2) as (s3 & -> & _). eauto.
Qed.

Lemma deleteChunks_clears_manifest (key : string) (s : secure_store) :
  never_rejects faulty ->
  exists s', deleteChunks faulty key s = (Ok tt, s') /\
             Js.truthy (cells s' !! manifest_key key) = false.
Proof.
  intros Hrel. unfold deleteChunks, try_catch, bind.
  unfold SecureStore.getItemAsync. rewrite Hrel.
  destruct (Js.truthy (cells s !! manifest_key key)) eqn:Htruthy.
  - match goal with
    | |- context [delete_chunk_loop faulty key ?n 0 ?st] =>
        destruct (delete_chunk_loop_cells key n 0 st) as (s3 & -> & _ & _)
    end.
    unfold SecureStore.deleteItemAsync. rewrite Hrel.
    eexists. split; [done|]. cbn [cells]. by rewrite lookup_delete_eq.
  - unfold ret. eexists. split; [done|]. done.
Qed.

Lemma setItemAsync_direct (key value : string) (s : secure_store) :
  never_rejects faulty ->
  String.length value <= 2000 ->
  exists s', setItemAsync faulty key value s = (Ok tt, s') /\
             cells s' !! key = Some value /\
             Js.truthy (cells s' !! manifest_key key) = false.
Proof.
  intros Hrel Hlen. unfold setItemAsync. case_decide; [lia|].
  unfold try_catch at 1. unfold bind.
  destruct (deleteChunks_clears_manifest key s Hrel) as (s1 & -> & Hm).
  unfold SecureStore.setItemAsync. rewrite Hrel.
  eexists. split; [done|]. cbn [cells].
  rewrite lookup_insert_eq. split; [done|].
  by rewrite lookup_insert_ne by apply not_eq_sym, manifest_key_ne_key.
Qed.

(** Over a primitive that never rejects, [setItemAsync] completes and
    [getItemAsync] then gives the value back, chunked or not. *)
Lemma storage_roundtrip (key value : string) (s : secure_store) :
  never_rejects faulty ->
  exists s', setItemAsync faulty key value s = (Ok tt, s') /\
             (getItemAsync faulty key s').1 = Ok (Some value).
Proof.
  intros Hrel. destruct (decide (2000 < String.length value)) as [Hlen|Hlen].
  - destruct (setItemAsync_chunked_completes key value s Hrel Hlen) as [s' Hput].
    exists s'. split; [done|].
    assert (gets_reliable faulty) as Hget by (intros t k; apply Hrel).
    destruct (setItemAsync_chunked_cells _ _ _ _ Hlen Hput) as (Hm & Hc & _).
    destruct (pretty_nat_nonempty (length (make_chunks value))) as (c & r & Hp).
    rewrite (getItemAsync_manifest key _ s' Hget Hm) by (by rewrite Hp).
    do 2 f_equal. by apply getItemAsync_chunked_cells.
  - destruct (setItemAsync_direct key value s Hrel) as (s' & Hput & Hk & Hm); [lia|].
    exists s'. split; [done|].
    unfold getItemAsync, try_catch, bind, SecureStore.getItemAsync.
    rewrite Hrel, Hm. cbn [tick cells]. by rewrite Hrel, Hk.
Qed.

End StorageProperties.

Lemma chunked_put_get_roundtrip_witness :
  let key := "shariaa_sessions" in
  let older := repeat_string 4500 "b" in
  let value := repeat_string 4000 "a" in
  let s0 := (setItemAsync reliable key older empty_store).2 in
  2000 < String.length value /\
  (getItemAsync reliable key (setItemAsync reliable key value s0).2).1
    = Ok (Some value).
Proof.
  intros key older value s0.
  assert (2000 < String.length value) as Hlen by (vm_compute; lia).
  split; [exact Hlen|].
  apply (chunked_put_get_roundtrip reliable key value s0); [exact Hlen| |].
  - vm_compute. reflexivity.
  - intros t k. reflexivity.
Defined.

Lemma getItemAsync_drops_missing_chunks_witness :
  let s := MkStore (<["k_chunks" := "3"]> (<["k_chunk_1" := "mid"]> ∅)) 0 in
  (getItemAsync reliable "k" s).1 = Ok (Some "mid").
Proof.
  intros s.
  refine (proj1 (getItemAsync_drops_missing_chunks reliable "k" "3" s _ _ _)).
  - intros t k. reflexivity.
  - vm_compute. reflexivity.
  - discriminate.
Defined.

(** C7 (evaluation at the failing input). A three-chunk value is stored under
    ["k"], then a two-chunk value, then ["k"] is deleted, all on a primitive
    that never rejects: every call completes, the direct entry, the manifest
    and chunks 0 and 1 are gone, and the chunk entry ["k_chunk_2"] left over
    from the first write is still in the primitive store. *)
Theorem stale_chunk_survives_delete :
  let first := repeat_string 4001 "b" in
  let second := repeat_string 2001 "a" in
  let r1 := setItemAsync reliable "k" first empty_store in
  let r2 := setItemAsync reliable "k" second r1.2 in
  let r3 := deleteItemAsync reliable "k" r2.2 in
  r1.1 = Ok tt /\ r2.1 = Ok tt /\ r3.1 = Ok tt /\
  (getItemAsync reliable "k" r2.2).1 = Ok (Some second) /\
  cells r3.2 !! "k" = None /\
  cells r3.2 !! manifest_key "k" = None /\
  cells r3.2 !! chunk_key "k" 0 = None /\
  cells r3.2 !! chunk_key "k" 1 = None /\
  cells r3.2 !! chunk_key "k" 2 = Some "b".
Proof. vm_compute. repeat split; reflexivity. Qed.

(** ** Compliance statistics *)

Lemma counts_as_compliant_verdict (t : FrontendAnalysisTerm) :
  counts_as_compliant t = effective_verdict t.
Proof.
  unfold counts_as_compliant, effective_verdict, nullish, flag.
  destruct (expert_override_is_valid_sharia t); [done|].
  by destruct (isUserConfirmed t) as [[]|].
Qed.

Lemma flag_decide (b : option bool) : flag b = bool_decide (b = Some true).
Proof. by destruct b as [[]|]. Qed.

Lemma length_filter_count (p q : FrontendAnalysisTerm -> bool)
    (terms : list FrontendAnalysisTerm) :
  (forall t, p t = q t) ->
  length (filter (fun t => p t = true) terms) = count_terms q terms.
Proof.
  intros Hpq. induction terms as [|t terms IH]; [done|].
  rewrite filter_cons. cbn [count_terms]. rewrite <- Hpq, <- IH.
  case_decide as Hp; [by rewrite Hp|].
  by destruct (p t).
Qed.

(** C2. The statistics derived from a term list are those of the reference
    definition (effective verdict by precedence: expert override, then the
    confirmed modification's reviewed validity or true, then the analysis
    verdict; compliant count, non-compliant count and percentage
    [compliant / total * 100] from it); a term whose expert override is
    false is not counted as compliant even when the user confirmed it and
    its reviewed suggestion is valid; for the empty list every count and
    the percentage are zero. *)
Theorem complianceStats_matches_reference :
  (forall terms, complianceStats (Some terms) = Some (reference_stats terms)) /\
  (forall id text valid feedback modified answer suggestion issue stamp count,
     counts_as_compliant
       (MkTerm id text valid feedback (Some false) (Some true) modified answer
          suggestion (Some true) issue stamp count) = false) /\
  complianceStats (Some []) = Some (MkStats 0 0 0 0%float 0 0).
Proof.
  split; [|split; [done|done]].
  intros terms. unfold complianceStats, reference_stats.
  destruct terms as [|t terms]; [done|].
  case_decide as Hlen; [done|]. clear Hlen.
  rewrite (length_filter_count counts_as_compliant effective_verdict)
    by apply counts_as_compliant_verdict.
  rewrite (length_filter_count (fun t => flag (has_expert_feedback t))
             (fun t => bool_decide (has_expert_feedback t = Some true)))
    by (intros; apply flag_decide).
  rewrite (length_filter_count (fun t => flag (isUserConfirmed t))
             (fun t => bool_decide (isUserConfirmed t = Some true)))
    by (intros; apply flag_decide).
  reflexivity.
Qed.

(** ** The orchestrator *)

Section OrchestratorProperties.
Variable faulty : nat -> prim_op -> option string.
Variable JSON_parse : string -> outcome jsval.
Variable api_uploadContract : UploadFile.t -> outcome string.
Variable api_getSessionDetails : string -> outcome jsval.
Variable api_getSessionTerms :
  string -> outcome (option (list FrontendAnalysisTerm)).
Variable terms_settle_first : string -> bool.
Variable api_askQuestion :
  string -> string -> option string -> option string -> outcome string.

Lemma on_store_logged_api_calls (m : M unit) (c : context) :
  api_calls (on_store_logged m c) = api_calls c.
Proof. unfold on_store_logged, on_store. by destruct (m (store c)). Qed.

Lemma clearSession_api_calls (c : context) :
  api_calls (clearSession faulty c) = api_calls c.
Proof. unfold clearSession. by rewrite on_store_logged_api_calls. Qed.

Lemma find_term_absent (termId : string) (terms : list FrontendAnalysisTerm) :
  (forall t, t ∈ terms -> term_id t <> termId) ->
  find (fun t => bool_decide (term_id t = termId)) terms = None.
Proof.
  induction terms as [|t terms IH]; intros Habs; [done|].
  cbn [find]. rewrite bool_decide_eq_false_2 by (apply Habs; left).
  apply IH. intros t' Ht'. apply Habs. by right.
Qed.

(** C6. A file without a name, or without a resolved type, makes
    [uploadAndAnalyzeContract] answer null, sets the upload error (and the
    analysis error) to an invalid-file message, and makes no call to the
    remote client: the log of API calls is left as it was. *)
Theorem upload_rejects_invalid_file (file : UploadFile.t) (now : string)
    (c : context) :
  Js.truthy (UploadFile.name file) = false \/
  Js.truthy (UploadFile.type file) = false ->
  let r := uploadAndAnalyzeContract faulty JSON_parse api_uploadContract
             api_getSessionDetails api_getSessionTerms terms_settle_first
             file now c in
  let message :=
    if Js.truthy (UploadFile.name file) then "Invalid file: missing type"
    else "Invalid file: missing name" in
  r.1 = None /\
  uploadError r.2 = Some message /\
  analysisError r.2 = Some message /\
  error r.2 = Some message /\
  isUploading r.2 = false /\
  api_calls r.2 = api_calls c.
Proof.
  intros Hinvalid. unfold uploadAndAnalyzeContract.
  destruct (Js.truthy (UploadFile.name file)) eqn:Hname;
    [destruct (Js.truthy (UploadFile.type file)) eqn:Htype|].
  - by destruct Hinvalid.
  - cbn. by rewrite clearSession_api_calls.
  - cbn. by rewrite clearSession_api_calls.
Qed.

(** Whatever happens to the upload, the progress indicator is back at 0
    and the busy flags are down when [uploadAndAnalyzeContract] returns. *)
Lemma upload_resets_progress (file : UploadFile.t) (now : string) (c : context) :
  let r := uploadAndAnalyzeContract faulty JSON_parse api_uploadContract
             api_getSessionDetails api_getSessionTerms terms_settle_first
             file now c in
  uploadProgress r.2 = 0%float /\ isUploading r.2 = false /\
  isAnalyzingContract r.2 = false.
Proof.
  unfold uploadAndAnalyzeContract.
  repeat match goal with
         | |- context [let '(_, _) := ?m in _] => destruct m
         end.
  done.
Qed.

(** C8. Asking about a term identifier that is not in the current term list
    answers null and leaves the whole state as it was: the per-term busy
    flags, the term list, the interaction log, the store and the log of API
    calls. *)
Theorem askQuestionAboutTerm_unknown_term (termId question now : string)
    (c : context) :
  (forall terms t, analysisTerms c = Some terms -> t ∈ terms ->
     term_id t <> termId) ->
  askQuestionAboutTerm faulty api_askQuestion termId question now c = (None, c).
Proof.
  intros Habsent. unfold askQuestionAboutTerm.
  destruct (Js.truthy (sessionId c)); [|done]. cbn [negb].
  destruct (analysisTerms c) as [terms|] eqn:Hterms; [|done].
  rewrite find_term_absent; [done|]. intros t Ht. by apply (Habsent terms).
Qed.

(** C10. Without an active session, [addInteraction] does nothing: the state,
    its interaction list and the persistent store included, is returned as
    it was. *)
Theorem addInteraction_without_session (type : interaction_type)
    (termId : option string) (data : jsval) (now : string) (c : context) :
  sessionId c = None ->
  addInteraction faulty type termId data now c = c.
Proof.
  intros Hnone. unfold addInteraction, addInteraction_from. by rewrite Hnone.
Qed.

End OrchestratorProperties.

Lemma upload_rejects_invalid_file_witness :
  let file := UploadFile.Mk None (Some "application/pdf") None in
  let r := uploadAndAnalyzeContract reliable no_parse sample_upload
             sample_details sample_terms details_first file
             "2024-01-02T00:00:00.000Z"
             idle_context in
  r.1 = None /\
  uploadError r.2 = Some "Invalid file: missing name" /\
  api_calls r.2 = [].
Proof.
  intros file r.
  destruct (upload_rejects_invalid_file reliable no_parse sample_upload
              sample_details sample_terms details_first file
             "2024-01-02T00:00:00.000Z"
              idle_context) as (H1 & H2 & _ & _ & _ & H6).
  - left. reflexivity.
  - repeat split; assumption.
Defined.

Lemma askQuestionAboutTerm_unknown_term_witness :
  askQuestionAboutTerm reliable sample_answer "t2" "why?"
    "2024-01-02T00:00:00.000Z" loaded_context = (None, loaded_context).
Proof.
  apply (askQuestionAboutTerm_unknown_term reliable sample_answer "t2" "why?"
           "2024-01-02T00:00:00.000Z" loaded_context).
  intros terms t Hterms Ht. vm_compute in Hterms.
  injection Hterms as <-. apply list_elem_of_singleton in Ht as ->.
  vm_compute. discriminate.
Defined.

Lemma addInteraction_without_session_witness :
  addInteraction reliable question_asked None JNull "2024-01-02T00:00:00.000Z"
    idle_context = idle_context.
Proof.
  apply (addInteraction_without_session reliable question_asked None JNull
           "2024-01-02T00:00:00.000Z" idle_context).
  reflexivity.
Defined.

(** ** The simulated upload progress *)

(** C4 (evaluation at the failing input). With seventeen draws of 0.5
    followed by 0.75 and 0.25 from [Math.random()], all in [0, 1), the
    progress goes 5, 10, ..., 85, then 92.5, above the ceiling of 90, and at
    the next tick back down to 90. *)
Theorem progress_overshoots_ceiling :
  let draws := (repeat 0.5 17 ++ [0.75; 0.25])%float in
  let trace := progress_trace draws 0%float in
  forallb (fun r => PrimFloat.leb 0 r && PrimFloat.ltb r 1) draws = true /\
  trace !! 16 = Some 85%float /\
  trace !! 17 = Some 92.5%float /\
  trace !! 18 = Some 90%float /\
  PrimFloat.ltb 90 92.5 = true /\
  uploadProgress
    (interval_tick 0.75 (set_uploadProgress 85%float idle_context))
  = 92.5%float.
Proof. vm_compute. repeat split; reflexivity. Qed.

(** ** The local session history *)





Lemma minimal_session_object (fields : list (string * jsval)) :
  minimal_session (JObj fields) = Ok (minimal_projection (JObj fields)).
Proof.
  unfold minimal_session, minimal_projection. cbn [Json.prop Json.has_prop obind].
  by do 2 destruct (Json.lookup_field _ fields).
Qed.

Lemma map_outcome_minimal (updated : list jsval) :
  Forall is_object updated ->
  map_outcome minimal_session updated = Ok (map minimal_projection updated).
Proof.
  induction 1 as [|session updated Hobj _ IH]; [done|].
  cbn [map_outcome map]. destruct session; try done.
  by rewrite minimal_session_object, IH.
Qed.

Lemma length_map_outcome {A B} (f : A -> outcome B) (l : list A) (l' : list B) :
  map_outcome f l = Ok l' -> length l' = length l.
Proof.
  revert l'. induction l as [|x l IH]; intros l' H; cbn in H; [by simplify_eq|].
  destruct (f x); [|done]. cbn in H.
  destruct (map_outcome f l) as [ys|]; [|done]. cbn in H. simplify_eq.
  simpl. f_equal. by apply IH.
Qed.

(** The string written for a list of records, by size of the full form. *)
Lemma sessions_payload_objects (updated : list jsval) :
  Forall is_object updated ->
  sessions_payload updated
  = Ok (if decide (2000 < String.length (Json.stringify (JArr updated)))
        then Json.stringify (JArr (map minimal_projection updated))
        else Json.stringify (JArr updated)).
Proof.
  intros Hobj. unfold sessions_payload. case_decide; [|done].
  by rewrite map_outcome_minimal.
Qed.

Lemma sessions_payload_array (updated : list jsval) (payload : string) :
  sessions_payload updated = Ok payload ->
  exists persisted,
    payload = Json.stringify (JArr persisted) /\
    length persisted = length updated.
Proof.
  unfold sessions_payload. intros H.
  destruct (decide (2000 < String.length (Json.stringify (JArr updated)))).
  - destruct (map_outcome minimal_session updated) as [minimal|] eqn:Hmin;
      [|discriminate H].
    injection H as <-. exists minimal. split; [reflexivity|].
    by apply length_map_outcome in Hmin.
  - injection H as <-. by exists updated.
Qed.

Lemma optimizedSessionData_object (sessionData : jsval)
    (interactions : list SessionInteraction) (now : string) (optimized : jsval) :
  optimizedSessionData sessionData interactions now = Ok optimized ->
  is_object optimized.
Proof.
  unfold optimizedSessionData, obind. intros H.
  repeat match type of H with
         | match ?m with _ => _ end = _ => destruct m; [|done]
         end.
  by simplify_eq.
Qed.

Lemma updatedSessions_objects (sessions : list jsval) (sessionData : jsval)
    (interactions : list SessionInteraction) (now : string)
    (updated : list jsval) :
  Forall is_object sessions ->
  updatedSessions (JArr sessions) sessionData interactions now = Ok updated ->
  Forall is_object updated.
Proof.
  intros Hobj. unfold updatedSessions. cbn [as_array obind].
  destruct (findIndex sessionData sessions) as [existingIndex|]; [|done].
  cbn [obind].
  destruct (optimizedSessionData sessionData interactions now)
    as [optimized|] eqn:Hopt; [|done].
  cbn [obind]. intros [= <-]. apply optimizedSessionData_object in Hopt.
  unfold upsert. apply Forall_take.
  destruct existingIndex as [i|].
  - by apply Forall_insert.
  - by constructor.
Qed.



Section SessionProperties.
Variable faulty : nat -> prim_op -> option string.
Variable JSON_parse : string -> outcome jsval.

Lemma getLocalSessions_completes (s : secure_store) :
  exists stored s', getLocalSessions faulty JSON_parse s = (Ok stored, s').
Proof.
  unfold getLocalSessions, try_catch, ret.
  destruct (bind _ _ s) as [[stored|e] s']; eauto.
Qed.


(** C3 (amended). Over a primitive that never rejects, once
    [saveSessionLocally] has run, the sessions key reads back as follows:
    when the serialized [updatedSessions] is longer than 2000 characters,
    the serialized minimal projection of every record of the list
    (identifier, file name, timestamp, compliance percentage and the two
    interaction counters); when it is 2000 characters or shorter, the
    serialized full list. *)
Theorem saveSessionLocally_persists (sessionData : jsval)
    (interactions : list SessionInteraction) (now : string)
    (s : secure_store) (sessions updated : list jsval) :
  never_rejects faulty ->
  (getLocalSessions faulty JSON_parse s).1 = Ok (JArr sessions) ->
  Forall is_object sessions ->
  updatedSessions (JArr sessions) sessionData interactions now = Ok updated ->
  let dataToStore := Json.stringify (JArr updated) in
  let s' := (saveSessionLocally faulty JSON_parse sessionData interactions now s).2 in
  (nativeStorage.getItemAsync faulty storageKeys.SHARIAA_SESSIONS s').1
  = Ok (Some (if decide (2000 < String.length dataToStore)
              then Json.stringify (JArr (map minimal_projection updated))
              else dataToStore)).
Proof.
  intros Hrel Hstored Hobj Hupdated dataToStore s'. subst s'.
  pose proof (updatedSessions_objects _ _ _ _ _ Hobj Hupdated) as Hall.
  unfold saveSessionLocally, try_catch at 1. unfold bind.
  destruct (getLocalSessions faulty JSON_parse s) as [r s1].
  cbn in Hstored. subst r. unfold lift. rewrite Hupdated.
  rewrite sessions_payload_objects by done. fold dataToStore.
  match goal with
  | |- context [setItemAsync faulty ?k ?payload s1] =>
      destruct (storage_roundtrip faulty k payload s1 Hrel) as (s2 & -> & Hget)
  end.
  exact Hget.
Qed.

End SessionProperties.


Lemma saveSessionLocally_persists_witness :
  let now := "2024-01-02T00:00:00.000Z" in
  let s' := (saveSessionLocally reliable no_parse (sample_session 3000) [] now
               empty_store).2 in
  (nativeStorage.getItemAsync reliable storageKeys.SHARIAA_SESSIONS s').1
  = Ok (Some (Json.stringify
                (JArr [JObj [("session_id", JStr "s1");
                             ("original_filename", JStr (repeat_string 3000 "a"));
                             ("analysis_timestamp", JStr "2024-01-01T00:00:00.000Z");
                             ("compliance_percentage", JNum "50");
                             ("totalInteractions", JNum "0");
                             ("lastInteractionTime", JStr now)]]))).
Proof.
  intros now s'. subst s'.
  etransitivity.
  - apply (saveSessionLocally_persists reliable no_parse (sample_session 3000)
             [] now empty_store []
             [JObj [("_id", JStr "64f0");
                    ("session_id", JStr "s1");
                    ("original_filename", JStr (repeat_string 3000 "a"));
                    ("analysis_timestamp", JStr "2024-01-01T00:00:00.000Z");
                    ("compliance_percentage", JNum "50");
                    ("detected_contract_language", JUndefined);
                    ("original_format", JUndefined);
                    ("analysis_results",
                     JArr [JObj [("term_id", JStr "t1");
                                 ("is_valid_sharia", JBool true);
                                 ("is_confirmed_by_user", JUndefined);
                                 ("has_expert_feedback", JUndefined);
                                 ("expert_override_is_valid_sharia", JUndefined)]]);
                    ("totalInteractions", JNum "0");
                    ("lastInteractionTime", JStr now)]]).
    + intros t op. reflexivity.
    + vm_compute. reflexivity.
    + constructor.
    + vm_compute. reflexivity.
  - vm_compute. reflexivity.
Defined.

(** C3 (counterexample). A session whose serialized full list is exactly
    2000 characters long: the threshold is reached, and yet the sessions key
    holds the full list, which is not the minimal projection. *)
Lemma threshold_reached_full_list_persisted :
  let now := "2024-01-02T00:00:00.000Z" in
  exists updated minimal,
    updatedSessions (JArr []) (sample_session 1736) [] now = Ok updated /\
    map_outcome minimal_session updated = Ok minimal /\
    String.length (Json.stringify (JArr updated)) = 2000 /\
    (nativeStorage.getItemAsync reliable storageKeys.SHARIAA_SESSIONS
       (saveSessionLocally reliable no_parse (sample_session 1736) [] now
          empty_store).2).1
    = Ok (Some (Json.stringify (JArr updated))) /\
    Json.stringify (JArr updated) <> Json.stringify (JArr minimal).
Proof.
  intros now. eexists _, _.
  split; [vm_compute; reflexivity|].
  split; [vm_compute; reflexivity|].
  split; [vm_compute; reflexivity|].
  split; [vm_compute; reflexivity|].
  intros Heq. apply (f_equal String.length) in Heq. vm_compute in Heq.
  discriminate Heq.
Qed.

(** * Further properties of the chunking layer *)

Lemma length_take_string (n : nat) (s : string) :
  String.length (Js.take n s) = n `min` String.length s.
Proof.
  revert s. induction n as [|n IH]; intros [|c s]; simpl; try done.
  by rewrite IH.
Qed.

Lemma ceil_step (d c : nat) :
  0 < c -> 0 < d -> S ((d - c + (c - 1)) / c) = (d + (c - 1)) / c.
Proof.
  intros Hc Hd.
  replace (d + (c - 1)) with ((d - 1) + 1 * c) by lia.
  rewrite Nat.div_add by lia.
  destruct (decide (c <= d)) as [Hle|Hlt].
  - replace (d - c + (c - 1)) with (d - 1) by lia. lia.
  - replace (d - c + (c - 1)) with (c - 1) by lia.
    rewrite !Nat.div_small by lia. lia.
Qed.

Lemma chunk_loop_bounds (value : string) (fuel i : nat) :
  String.length value - i < fuel ->
  Forall (fun c => 0 < String.length c <= chunkSize) (chunk_loop fuel i value) /\
  length (chunk_loop fuel i value)
  = (String.length value - i + (chunkSize - 1)) / chunkSize.
Proof.
  pose proof chunkSize_pos as Hpos. revert i.
  induction fuel as [|fuel IH]; intros i Hfuel; [lia|].
  cbn [chunk_loop]. case_decide as Hi.
  - destruct (IH (i + chunkSize)) as [Hall Hlen]; [lia|]. split.
    + constructor; [|done].
      rewrite slice_chunk, length_take_string, length_drop_string. lia.
    + cbn [length]. rewrite Hlen.
      replace (String.length value - (i + chunkSize))
        with (String.length value - i - chunkSize) by lia.
      apply ceil_step; lia.
  - split; [constructor|]. cbn [length].
    replace (String.length value - i) with 0 by lia.
    symmetry. apply Nat.div_small. lia.
Qed.

(** X1. Splitting a value for the primitive store gives chunks that are
    never empty and never longer than 2000 characters, and as many of them
    as the length divided by 2000, rounded up. *)
Theorem make_chunks_bounds (value : string) :
  Forall (fun c => 0 < String.length c <= 2000) (make_chunks value) /\
  length (make_chunks value) = (String.length value + 1999) / 2000.
Proof.
  unfold make_chunks.
  destruct (chunk_loop_bounds value (S (String.length value)) 0) as [Hall Hlen];
    [lia|].
  split; [exact Hall|]. rewrite Hlen. by rewrite Nat.sub_0_r.
Qed.

Section MoreStorageProperties.
Variable faulty : nat -> prim_op -> option string.

Lemma setItemAsync_direct_eq (key value : string) :
  String.length value <= 2000 ->
  setItemAsync faulty key value
  = try_catch
      (deleteChunks faulty key ;; SecureStore.setItemAsync faulty key value)
      (fun e => throw e).
Proof.
  intros Hlen. unfold setItemAsync. case_decide; [lia|reflexivity].
Qed.

Lemma read_chunks_cells (key : string) (n i : nat) (acc : string)
    (s : secure_store) :
  cells (read_chunks faulty key n i acc s).2 = cells s.
Proof.
  revert i acc s. induction n as [|n IH]; intros i acc s; [done|].
  cbn [read_chunks]. unfold bind, SecureStore.getItemAsync.
  destruct (faulty (clock s) (OpGet (chunk_key key i))); [done|].
  by rewrite IH.
Qed.

(** X2. [getItemAsync] never rejects and never changes what the primitive
    store holds, whatever the primitive does; a rejected read of the
    manifest is answered with null. *)
Theorem getItemAsync_never_rejects (key : string) (s : secure_store) :
  (exists r, (getItemAsync faulty key s).1 = Ok r) /\
  cells (getItemAsync faulty key s).2 = cells s /\
  match faulty (clock s) (OpGet (manifest_key key)) with
  | Some _ => (getItemAsync faulty key s).1 = Ok None
  | None => True
  end.
Proof.
  unfold getItemAsync, try_catch, bind, SecureStore.getItemAsync.
  destruct (faulty (clock s) (OpGet (manifest_key key))) as [e|] eqn:Hm.
  { cbn. split; [by eexists|]. by split. }
  destruct (Js.truthy (cells s !! manifest_key key)).
  - pose proof (read_chunks_cells key
                  (Js.loop_count (Js.parseInt (default "" (cells s !! manifest_key key))))
                  0 "" (tick s)) as Hcells.
    destruct (read_chunks faulty key _ 0 "" (tick s)) as [[r|e] s1];
      cbn in *; (split; [by eexists|]); by split.
  - destruct (faulty (clock (tick s)) (OpGet key)); cbn;
      (split; [by eexists|]); by split.
Qed.

Lemma store_chunks_frame (key : string) (chunks : list string) (i : nat)
    (s : secure_store) (k : string) :
  (forall j, k <> chunk_key key j) ->
  cells (store_chunks faulty key chunks i s).2 !! k = cells s !! k.
Proof.
  intros Hk. revert i s. induction chunks as [|c chunks IH]; intros i s; [done|].
  cbn [store_chunks]. unfold bind, SecureStore.setItemAsync.
  destruct (faulty (clock s) (OpSet (chunk_key key i) c)); [done|].
  rewrite IH. cbn [cells]. by rewrite lookup_insert_ne.
Qed.

Lemma deleteChunks_frame (key : string) (s : secure_store) (k : string) :
  k <> manifest_key key -> (forall j, k <> chunk_key key j) ->
  cells (deleteChunks faulty key s).2 !! k = cells s !! k.
Proof.
  intros Hm Hc. unfold deleteChunks, try_catch, bind.
  unfold SecureStore.getItemAsync.
  destruct (faulty (clock s) (OpGet (manifest_key key))); [done|].
  destruct (Js.truthy (cells s !! manifest_key key)); [|done].
  match goal with
  | |- context [delete_chunk_loop faulty key ?n 0 ?st] =>
      destruct (delete_chunk_loop_cells faulty key n 0 st) as (s3 & -> & Hout & _)
  end.
  unfold SecureStore.deleteItemAsync.
  destruct (faulty (clock s3) (OpDelete (manifest_key key))); cbn.
  - by rewrite Hout.
  - rewrite lookup_delete_ne by done. by rewrite Hout.
Qed.

Lemma setItemAsync_frame (key value : string) (s : secure_store) (k : string) :
  k <> key -> k <> manifest_key key -> (forall j, k <> chunk_key key j) ->
  cells (setItemAsync faulty key value s).2 !! k = cells s !! k.
Proof.
  intros Hk Hm Hc.
  destruct (decide (2000 < String.length value)) as [Hlen|Hlen].
  - rewrite setItemAsync_chunked_eq by done.
    unfold try_catch at 1. unfold bind.
    unfold SecureStore.setItemAsync at 1.
    destruct (faulty (clock s) (OpSet (manifest_key key) _)); [done|].
    match goal with
    | |- context [store_chunks faulty key ?chunks 0 ?st] =>
        pose proof (store_chunks_frame key chunks 0 st k Hc) as Hstore;
        destruct (store_chunks faulty key chunks 0 st) as [[[]|e] s2]
    end; cbn in Hstore.
    + destruct (swallowed_delete faulty key s2) as (s3 & -> & Hdel).
      cbn. rewrite Hdel, Hstore by done. by rewrite lookup_insert_ne.
    + cbn. rewrite Hstore. by rewrite lookup_insert_ne.
  - rewrite setItemAsync_direct_eq by lia.
    unfold try_catch at 1. unfold bind.
    pose proof (deleteChunks_frame key s k Hm Hc) as Hdc.
    destruct (deleteChunks_never_throws faulty key s) as [s1 Hs1].
    rewrite Hs1 in *. cbn in Hdc. unfold SecureStore.setItemAsync.
    destruct (faulty (clock s1) (OpSet key value)); cbn; [done|].
    by rewrite lookup_insert_ne.
Qed.

Lemma deleteItemAsync_eq (key : string) (s : secure_store) :
  deleteItemAsync faulty key s
  = match faulty (clock s) (OpDelete key) with
    | Some e => (Throw e, tick s)
    | None =>
        deleteChunks faulty key (MkStore (delete key (cells s)) (S (clock s)))
    end.
Proof.
  unfold deleteItemAsync, try_catch at 1, bind, SecureStore.deleteItemAsync at 1.
  destruct (faulty (clock s) (OpDelete key)); [done|].
  match goal with
  | |- context [deleteChunks faulty key ?st] =>
      destruct (deleteChunks_never_throws faulty key st) as [s1 ->]
  end.
  done.
Qed.

Lemma deleteItemAsync_frame (key : string) (s : secure_store) (k : string) :
  k <> key -> k <> manifest_key key -> (forall j, k <> chunk_key key j) ->
  cells (deleteItemAsync faulty key s).2 !! k = cells s !! k.
Proof.
  intros Hk Hm Hc. rewrite deleteItemAsync_eq.
  destruct (faulty (clock s) (OpDelete key)); [done|].
  rewrite deleteChunks_frame by done. cbn. by rewrite lookup_delete_ne.
Qed.

(** X3. Writing or deleting a key touches only that key, its manifest and
    its chunk entries: every other entry of the primitive store is left as
    it was, whether the operation completes or rejects. *)
Theorem storage_operations_frame (key value : string) (s : secure_store)
    (other : string) :
  other <> key -> other <> manifest_key key ->
  (forall j, other <> chunk_key key j) ->
  cells (setItemAsync faulty key value s).2 !! other = cells s !! other /\
  cells (deleteItemAsync faulty key s).2 !! other = cells s !! other.
Proof.
  intros Hk Hm Hc. split.
  - by apply setItemAsync_frame.
  - by apply deleteItemAsync_frame.
Qed.

(** X4. [deleteItemAsync] rejects exactly when the deletion of the direct
    entry does: it then rejects with the same error and leaves the store
    untouched, the chunks included; otherwise it completes, whatever fails
    while the chunks are cleaned up. *)
Theorem deleteItemAsync_outcome (key : string) (s : secure_store) :
  match faulty (clock s) (OpDelete key) with
  | Some e =>
      (deleteItemAsync faulty key s).1 = Throw e /\
      cells (deleteItemAsync faulty key s).2 = cells s
  | None => (deleteItemAsync faulty key s).1 = Ok tt
  end.
Proof.
  rewrite deleteItemAsync_eq.
  destruct (faulty (clock s) (OpDelete key)) as [e|]; [done|].
  match goal with
  | |- context [deleteChunks faulty key ?st] =>
      destruct (deleteChunks_never_throws faulty key st) as [s1 ->]
  end.
  done.
Qed.

Lemma delete_chunk_loop_shrinks (key : string) (n i : nat) (s : secure_store)
    (k : string) :
  cells (delete_chunk_loop faulty key n i s).2 !! k = None \/
  cells (delete_chunk_loop faulty key n i s).2 !! k = cells s !! k.
Proof.
  revert i s. induction n as [|n IH]; intros i s; [by right|].
  cbn [delete_chunk_loop]. unfold bind, try_catch, SecureStore.deleteItemAsync, ret.
  destruct (faulty (clock s) (OpDelete (chunk_key key i))).
  - destruct (IH (S i) (tick s)) as [H|H]; [by left|by right].
  - match goal with
    | |- context [delete_chunk_loop faulty key n (S i) ?st] =>
        destruct (IH (S i) st) as [H|H]; [by left|]
    end.
    rewrite H. cbn [cells].
    destruct (decide (k = chunk_key key i)) as [->|Hne].
    + left. apply lookup_delete_eq.
    + right. by rewrite lookup_delete_ne.
Qed.

Lemma deleteChunks_shrinks (key : string) (s : secure_store) (k : string) :
  cells (deleteChunks faulty key s).2 !! k = None \/
  cells (deleteChunks faulty key s).2 !! k = cells s !! k.
Proof.
  unfold deleteChunks, try_catch, bind, SecureStore.getItemAsync.
  destruct (faulty (clock s) (OpGet (manifest_key key))); [by right|].
  destruct (Js.truthy (cells s !! manifest_key key)); [|by right].
  match goal with
  | |- context [delete_chunk_loop faulty key ?n 0 ?st] =>
      pose proof (delete_chunk_loop_shrinks key n 0 st k) as Hloop;
      destruct (delete_chunk_loop_cells faulty key n 0 st) as (s3 & Hs3 & _ & _)
  end.
  rewrite Hs3 in *. cbn in Hloop. unfold SecureStore.deleteItemAsync.
  destruct (faulty (clock s3) (OpDelete (manifest_key key))); cbn.
  - destruct Hloop as [->| ->]; [by left|by right].
  - destruct (decide (k = manifest_key key)) as [->|Hm].
    + left. apply lookup_delete_eq.
    + rewrite lookup_delete_ne by done.
      destruct Hloop as [->| ->]; [by left|by right].
Qed.

(** Deleting never adds an entry and never changes one. *)
Lemma deleteItemAsync_shrinks (key : string) (s : secure_store) (k : string) :
  cells (deleteItemAsync faulty key s).2 !! k = None \/
  cells (deleteItemAsync faulty key s).2 !! k = cells s !! k.
Proof.
  rewrite deleteItemAsync_eq.
  destruct (faulty (clock s) (OpDelete key)); [by right|].
  match goal with
  | |- context [deleteChunks faulty key ?st] =>
      destruct (deleteChunks_shrinks key st k) as [->| ->]; [by left|]
  end.
  cbn. destruct (decide (k = key)) as [->|Hk].
  - left. apply lookup_delete_eq.
  - right. by rewrite lookup_delete_ne.
Qed.

Lemma getItemAsync_direct_read (key : string) (s : secure_store) :
  never_rejects faulty ->
  Js.truthy (cells s !! manifest_key key) = false ->
  (getItemAsync faulty key s).1 = Ok (cells s !! key).
Proof.
  intros Hrel Hm. unfold getItemAsync, try_catch, bind, SecureStore.getItemAsync.
  rewrite Hrel, Hm. by rewrite Hrel.
Qed.

(** X5. Over a primitive that never rejects, a key that has been deleted
    reads back as null, whatever the store held for it before (a direct
    entry, a manifest with its chunks, or leftovers of both). *)
Theorem get_after_delete (key : string) (s : secure_store) :
  never_rejects faulty ->
  (deleteItemAsync faulty key s).1 = Ok tt /\
  (getItemAsync faulty key (deleteItemAsync faulty key s).2).1 = Ok None.
Proof.
  intros Hrel. rewrite deleteItemAsync_eq, Hrel.
  match goal with
  | |- context [deleteChunks faulty key ?st] =>
      pose proof (deleteChunks_frame key st key) as Hframe;
      destruct (deleteChunks_clears_manifest faulty key st Hrel) as (s1 & Hs1 & Hm)
  end.
  rewrite Hs1 in *. cbn in Hframe. split; [done|]. cbn [snd].
  rewrite getItemAsync_direct_read by done. f_equal.
  rewrite Hframe.
  - apply lookup_delete_eq.
  - apply not_eq_sym, manifest_key_ne_key.
  - intros j. apply not_eq_sym, chunk_key_ne_key.
Qed.

Lemma deleteChunks_removes (key : string) (n : nat) (s : secure_store) :
  never_rejects faulty ->
  cells s !! manifest_key key = Some (pretty n) ->
  exists s',
    deleteChunks faulty key s = (Ok tt, s') /\
    cells s' !! manifest_key key = None /\
    (forall j, j < n -> cells s' !! chunk_key key j = None) /\
    (forall k, k <> manifest_key key -> (forall j, k <> chunk_key key j) ->
       cells s' !! k = cells s !! k).
Proof.
  intros Hrel Hm.
  assert (deletes_reliable faulty) as Hdel by (intros t k; apply Hrel).
  destruct (pretty_nat_nonempty n) as (c & r & Hp).
  pose proof (deleteChunks_frame key s) as Hframe.
  unfold deleteChunks, try_catch, bind, SecureStore.getItemAsync in *.
  rewrite Hrel, Hm in *.
  assert (Js.truthy (Some (pretty n)) = true) as Ht by (by rewrite Hp).
  rewrite Ht in *. cbn [default from_option] in *. unfold id in *.
  rewrite loop_count_pretty in *.
  destruct (delete_chunk_loop_cells faulty key n 0 (tick s))
    as (s3 & Hs3 & Hout & Hin).
  rewrite Hs3 in *. unfold SecureStore.deleteItemAsync in *.
  rewrite Hrel in *. cbn in Hframe.
  eexists. split; [done|]. cbn [cells]. split; [apply lookup_delete_eq|].
  split; [|exact Hframe].
  intros j Hj. rewrite lookup_delete_ne by apply not_eq_sym, chunk_key_ne_manifest.
  apply (Hin Hdel). lia.
Qed.

(** X6. Over a primitive that never rejects, storing a value of at most 2000
    characters under a key whose previous value was chunked removes the
    manifest and every chunk of the previous value, leaves the new value as
    the direct entry, and the key reads back as the new value. *)
Theorem direct_put_replaces_chunked (key previous value : string)
    (s s1 : secure_store) :
  never_rejects faulty ->
  2000 < String.length previous ->
  String.length value <= 2000 ->
  setItemAsync faulty key previous s = (Ok tt, s1) ->
  exists s2,
    setItemAsync faulty key value s1 = (Ok tt, s2) /\
    cells s2 !! key = Some value /\
    cells s2 !! manifest_key key = None /\
    (forall j, j < length (make_chunks previous) ->
       cells s2 !! chunk_key key j = None) /\
    (getItemAsync faulty key s2).1 = Ok (Some value).
Proof.
  intros Hrel Hprev Hlen Hput.
  destruct (setItemAsync_chunked_cells faulty _ _ _ _ Hprev Hput) as (Hm & _ & _).
  destruct (deleteChunks_removes key _ s1 Hrel Hm) as (s' & Hdc & Hnm & Hnc & Hfr).
  rewrite setItemAsync_direct_eq by done.
  unfold try_catch at 1. unfold bind. rewrite Hdc.
  unfold SecureStore.setItemAsync. rewrite Hrel.
  eexists. split; [done|]. cbn [cells].
  assert (<[key:=value]> (cells s') !! manifest_key key = None) as Hm2.
  { by rewrite lookup_insert_ne by apply not_eq_sym, manifest_key_ne_key. }
  split; [apply lookup_insert_eq|]. split; [done|]. split.
  - intros j Hj. rewrite lookup_insert_ne by apply not_eq_sym, chunk_key_ne_key.
    by apply Hnc.
  - rewrite getItemAsync_direct_read; cbn [cells]; [|done|by rewrite Hm2].
    by rewrite lookup_insert_eq.
Qed.

(** X7. Over a primitive that never rejects, when the store holds no chunk
    entry of the key beforehand, deleting the key after a chunked write
    leaves nothing of it: no direct entry, no manifest, no chunk entry at
    any index. *)
Theorem delete_removes_chunked_value (key value : string)
    (s s1 : secure_store) :
  never_rejects faulty ->
  2000 < String.length value ->
  (forall j, cells s !! chunk_key key j = None) ->
  setItemAsync faulty key value s = (Ok tt, s1) ->
  (deleteItemAsync faulty key s1).1 = Ok tt /\
  cells (deleteItemAsync faulty key s1).2 !! key = None /\
  cells (deleteItemAsync faulty key s1).2 !! manifest_key key = None /\
  (forall j, cells (deleteItemAsync faulty key s1).2 !! chunk_key key j = None).
Proof.
  intros Hrel Hlen Hclean Hput.
  destruct (delete_after_chunked_put faulty key value s s1)
    as (s2 & -> & Hk & Hm & Hlow & Hhigh); try done.
  - intros t k. apply Hrel.
  - intros t k. apply Hrel.
  - cbn. repeat split; try done. intros j.
    destruct (decide (j < length (make_chunks value))) as [Hj|Hj].
    + by apply Hlow.
    + rewrite Hhigh by lia. apply Hclean.
Qed.

(** X8. A chunked write is not atomic: when the primitive accepts the
    manifest and rejects the first chunk, [setItemAsync] rejects with that
    error, and the store is left with the new manifest over the chunk
    entries it held before. *)
Theorem chunked_put_torn_by_rejection (key value first error : string)
    (s : secure_store) :
  2000 < String.length value ->
  make_chunks value !! 0 = Some first ->
  faulty (clock s)
    (OpSet (manifest_key key) (pretty (length (make_chunks value)))) = None ->
  faulty (S (clock s)) (OpSet (chunk_key key 0) first) = Some error ->
  (setItemAsync faulty key value s).1 = Throw error /\
  cells (setItemAsync faulty key value s).2
  = <[manifest_key key := pretty (length (make_chunks value))]> (cells s).
Proof.
  intros Hlen Hfirst Hm Hc.
  assert (setItemAsync faulty key value s
          = (Throw error,
             MkStore (<[manifest_key key := pretty (length (make_chunks value))]>
                        (cells s)) (S (S (clock s))))) as ->; [|done].
  rewrite setItemAsync_chunked_eq by done.
  unfold try_catch at 1. unfold bind.
  unfold SecureStore.setItemAsync at 1. rewrite Hm.
  destruct (make_chunks value) as [|c chunks]; [done|].
  injection Hfirst as ->. cbn [store_chunks]. unfold bind.
  unfold SecureStore.setItemAsync at 1. cbn [clock]. rewrite Hc. done.
Qed.

End MoreStorageProperties.

Lemma reliable_never_rejects : never_rejects reliable.
Proof. intros t op. reflexivity. Qed.

Lemma storage_operations_frame_witness :
  let s := MkStore (<["other" := "kept"]> ∅) 0 in
  cells (setItemAsync reliable "k" (repeat_string 2001 "a") s).2 !! "other"
    = Some "kept" /\
  cells (deleteItemAsync reliable "k" s).2 !! "other" = Some "kept".
Proof.
  intros s.
  apply (storage_operations_frame reliable "k" (repeat_string 2001 "a") s "other").
  - discriminate.
  - discriminate.
  - intros j. discriminate.
Defined.

Lemma get_after_delete_witness :
  let s := (setItemAsync reliable "k" (repeat_string 2001 "a") empty_store).2 in
  (deleteItemAsync reliable "k" s).1 = Ok tt /\
  (getItemAsync reliable "k" (deleteItemAsync reliable "k" s).2).1 = Ok None.
Proof.
  intros s. apply (get_after_delete reliable "k" s).
  intros t op. reflexivity.
Defined.

Lemma direct_put_replaces_chunked_witness :
  let s1 := (setItemAsync reliable "k" (repeat_string 4001 "a") empty_store).2 in
  exists s2,
    setItemAsync reliable "k" "short" s1 = (Ok tt, s2) /\
    cells s2 !! "k" = Some "short" /\
    (getItemAsync reliable "k" s2).1 = Ok (Some "short").
Proof.
  intros s1.
  destruct (direct_put_replaces_chunked reliable "k" (repeat_string 4001 "a")
              "short" empty_store s1) as (s2 & H1 & H2 & _ & _ & H5).
  - intros t op. reflexivity.
  - vm_compute. lia.
  - vm_compute. lia.
  - vm_compute. reflexivity.
  - exists s2. auto.
Defined.

Lemma delete_removes_chunked_value_witness :
  let s1 := (setItemAsync reliable "k" (repeat_string 4001 "a") empty_store).2 in
  (deleteItemAsync reliable "k" s1).1 = Ok tt /\
  cells (deleteItemAsync reliable "k" s1).2 !! "k" = None /\
  cells (deleteItemAsync reliable "k" s1).2 !! manifest_key "k" = None /\
  (forall j, cells (deleteItemAsync reliable "k" s1).2 !! chunk_key "k" j = None).
Proof.
  intros s1.
  apply (delete_removes_chunked_value reliable "k" (repeat_string 4001 "a")
           empty_store s1).
  - intros t op. reflexivity.
  - vm_compute. lia.
  - intros j. reflexivity.
  - vm_compute. reflexivity.
Defined.

Lemma chunked_put_torn_by_rejection_witness :
  let value := repeat_string 2001 "a" in
  (setItemAsync (reject_at 1) "k" value empty_store).1
    = Throw "primitive rejected" /\
  cells (setItemAsync (reject_at 1) "k" value empty_store).2
    = <[manifest_key "k" := "2"]> ∅.
Proof.
  intros value.
  apply (chunked_put_torn_by_rejection (reject_at 1) "k" value
           (repeat_string 2000 "a") "primitive rejected" empty_store).
  - vm_compute. lia.
  - vm_compute. reflexivity.
  - reflexivity.
  - reflexivity.
Defined.

(** ** Independent keys *)

Lemma present_chunks_ext (key : string) (m1 m2 : gmap string string) (i n : nat) :
  (forall j, m1 !! chunk_key key j = m2 !! chunk_key key j) ->
  present_chunks key m1 i n = present_chunks key m2 i n.
Proof.
  intros Hsame. unfold present_chunks. f_equal.
  apply map_ext. intros j. by rewrite Hsame.
Qed.

Section IndependentKeys.
Variable faulty : nat -> prim_op -> option string.
Hypothesis Hrel : never_rejects faulty.

Lemma getItemAsync_cells (key : string) (s : secure_store) :
  (getItemAsync faulty key s).1
  = Ok (if Js.truthy (cells s !! manifest_key key)
        then Some (present_chunks key (cells s) 0
                     (Js.loop_count
                        (Js.parseInt (default "" (cells s !! manifest_key key)))))
        else cells s !! key).
Proof.
  destruct (Js.truthy (cells s !! manifest_key key)) eqn:Ht.
  - destruct (cells s !! manifest_key key) as [m|] eqn:Hm; [|done].
    rewrite (getItemAsync_manifest faulty key m s); try done.
    + intros t k. apply Hrel.
    + by destruct m.
  - by apply getItemAsync_direct_read.
Qed.

Lemma getItemAsync_agree (key : string) (s1 s2 : secure_store) :
  (forall k, key_family key k -> cells s1 !! k = cells s2 !! k) ->
  (getItemAsync faulty key s1).1 = (getItemAsync faulty key s2).1.
Proof.
  intros Hsame. rewrite !getItemAsync_cells.
  rewrite (Hsame (manifest_key key)) by (right; by left).
  rewrite (Hsame key) by by left.
  rewrite (present_chunks_ext key (cells s1) (cells s2)); [done|].
  intros j. apply Hsame. right. right. by exists j.
Qed.

Lemma setItemAsync_other_key (a b value : string) (s : secure_store) :
  independent_keys a b ->
  (getItemAsync faulty b (setItemAsync faulty a value s).2).1
  = (getItemAsync faulty b s).1.
Proof.
  intros Hind. apply getItemAsync_agree. intros k Hk.
  apply setItemAsync_frame.
  - intros ->. apply (Hind a); [by left|done].
  - intros ->. apply (Hind (manifest_key a)); [right; by left|done].
  - intros j ->. apply (Hind (chunk_key a j)); [right; right; by exists j|done].
Qed.

Lemma setItemAsync_completes (key value : string) (s : secure_store) :
  (setItemAsync faulty key value s).1 = Ok tt.
Proof. by destruct (storage_roundtrip faulty key value s Hrel) as (s' & -> & _). Qed.

Lemma setItemAsync_then_get (key value : string) (s : secure_store) :
  (getItemAsync faulty key (setItemAsync faulty key value s).2).1
  = Ok (Some value).
Proof. by destruct (storage_roundtrip faulty key value s Hrel) as (s' & -> & ?). Qed.

End IndependentKeys.

Ltac keys_differ :=
  intros k [->|[->|[? ->]]] [H|[H|[? H]]]; discriminate H.

Lemma sessions_interactions_independent :
  independent_keys storageKeys.SESSION_INTERACTIONS storageKeys.SHARIAA_SESSIONS.
Proof. keys_differ. Qed.

Lemma id_terms_independent :
  independent_keys storageKeys.CURRENT_ANALYSIS_TERMS storageKeys.CURRENT_SESSION_ID.
Proof. keys_differ. Qed.

Lemma id_details_independent :
  independent_keys storageKeys.CURRENT_SESSION_DETAILS storageKeys.CURRENT_SESSION_ID.
Proof. keys_differ. Qed.

Lemma terms_details_independent :
  independent_keys storageKeys.CURRENT_SESSION_DETAILS
    storageKeys.CURRENT_ANALYSIS_TERMS.
Proof. keys_differ. Qed.

Lemma terms_id_independent :
  independent_keys storageKeys.CURRENT_SESSION_ID storageKeys.CURRENT_ANALYSIS_TERMS.
Proof. keys_differ. Qed.

Lemma details_id_independent :
  independent_keys storageKeys.CURRENT_SESSION_ID storageKeys.CURRENT_SESSION_DETAILS.
Proof. keys_differ. Qed.

Lemma details_terms_independent :
  independent_keys storageKeys.CURRENT_ANALYSIS_TERMS
    storageKeys.CURRENT_SESSION_DETAILS.
Proof. keys_differ. Qed.

(** ** The web fallback *)

(** X9. On the web, with [localStorage] present and not rejecting, a value of
    any length is stored under its key alone and reads back unchanged;
    without [localStorage], a write completes without storing anything and
    every read is answered with null. *)
Theorem webStorage_roundtrip (faulty : nat -> prim_op -> option string)
    (key value : string) (s : secure_store) :
  never_rejects faulty ->
  cells (webStorage.setItemAsync true faulty key value s).2
    = <[key := value]> (cells s) /\
  (webStorage.getItemAsync true faulty key
     (webStorage.setItemAsync true faulty key value s).2).1 = Ok (Some value) /\
  webStorage.setItemAsync false faulty key value s = (Ok tt, s) /\
  (webStorage.getItemAsync false faulty key s).1 = Ok None.
Proof.
  intros Hrel.
  unfold webStorage.setItemAsync, webStorage.getItemAsync, try_catch,
    localStorage.setItem, localStorage.getItem, ret.
  rewrite Hrel. cbn. rewrite Hrel. cbn. by rewrite lookup_insert_eq.
Qed.

Lemma webStorage_roundtrip_witness :
  let value := repeat_string 4001 "a" in
  (webStorage.getItemAsync true reliable "k"
     (webStorage.setItemAsync true reliable "k" value empty_store).2).1
  = Ok (Some value).
Proof.
  intros value.
  apply (webStorage_roundtrip reliable "k" value empty_store).
  intros t op. reflexivity.
Defined.

(** ** Removing and bookmarking stored sessions *)

Lemma other_session_object (sid : string) (fields : list (string * jsval)) :
  other_session sid (JObj fields) = Ok (negb (has_session_id sid (JObj fields))).
Proof.
  unfold other_session, has_session_id. cbn [Json.prop obind].
  destruct (Json.lookup_field "session_id" fields) as [[]|]; cbn; try done.
Qed.

Lemma filter_outcome_objects (sid : string) (sessions : list jsval) :
  Forall is_object sessions ->
  filter_outcome (other_session sid) sessions
  = Ok (filter (fun s => has_session_id sid s = false) sessions).
Proof.
  induction 1 as [|s sessions Hobj _ IH]; [done|].
  cbn [filter_outcome]. destruct s; try done.
  rewrite other_session_object, IH. cbn [obind]. rewrite filter_cons.
  by destruct (has_session_id sid (JObj fields)).
Qed.

Section HistoryProperties.
Variable faulty : nat -> prim_op -> option string.
Variable JSON_parse : string -> outcome jsval.
Hypothesis Hrel : never_rejects faulty.

(** X10. Over a primitive that never rejects, deleting a session from the
    history writes back the stored records whose identifier differs, in
    their order, removes every interaction of that session from the
    in-memory log and persists the purged log; the active session, if any,
    is left loaded. *)
Theorem deleteLocalSession_purges (sid : string) (c : context)
    (sessions : list jsval) :
  (getLocalSessions faulty JSON_parse (store c)).1 = Ok (JArr sessions) ->
  Forall is_object sessions ->
  let c' := deleteLocalSession faulty JSON_parse sid c in
  (getItemAsync faulty storageKeys.SHARIAA_SESSIONS (store c')).1
  = Ok (Some (Json.stringify
                (JArr (filter (fun s => has_session_id sid s = false) sessions)))) /\
  sessionInteractions c'
  = filter (fun i => i_sessionId i <> sid) (sessionInteractions c) /\
  (getItemAsync faulty storageKeys.SESSION_INTERACTIONS (store c')).1
  = Ok (Some (Json.stringify
                (JArr (map interaction_json (sessionInteractions c'))))) /\
  sessionId c' = sessionId c /\ analysisTerms c' = analysisTerms c.
Proof.
  intros Hstored Hobj c'. subst c'. unfold deleteLocalSession.
  destruct (getLocalSessions faulty JSON_parse (store c)) as [r s1].
  cbn in Hstored. subst r. cbn [obind as_array].
  rewrite filter_outcome_objects by done.
  set (kept := filter (fun s => has_session_id sid s = false) sessions).
  pose proof (setItemAsync_completes faulty Hrel storageKeys.SHARIAA_SESSIONS
                (Json.stringify (JArr kept)) s1) as Hok.
  pose proof (setItemAsync_then_get faulty Hrel storageKeys.SHARIAA_SESSIONS
                (Json.stringify (JArr kept)) s1) as Hget.
  destruct (setItemAsync faulty storageKeys.SHARIAA_SESSIONS
              (Json.stringify (JArr kept)) s1) as [r s2].
  cbn in Hok, Hget. subst r.
  unfold on_store_logged, on_store. cbn [store set_sessionInteractions set_store].
  set (purged := filter (fun i => i_sessionId i <> sid) (sessionInteractions c)).
  pose proof (setItemAsync_then_get faulty Hrel storageKeys.SESSION_INTERACTIONS
                (Json.stringify (JArr (map interaction_json purged))) s2) as Hget2.
  pose proof (setItemAsync_other_key faulty Hrel storageKeys.SESSION_INTERACTIONS
                storageKeys.SHARIAA_SESSIONS
                (Json.stringify (JArr (map interaction_json purged))) s2
                sessions_interactions_independent) as Hother.
  destruct (setItemAsync faulty storageKeys.SESSION_INTERACTIONS
              (Json.stringify (JArr (map interaction_json purged))) s2) as [r3 s3].
  cbn in *. rewrite Hother. done.
Qed.

End HistoryProperties.

Lemma deleteLocalSession_purges_witness :
  let c := set_store history_store
             (set_sessionInteractions
                [MkInteraction "s1" "2024-01-02T00:00:00.000Z" question_asked None JNull;
                 MkInteraction "s2" "2024-01-01T00:00:00.000Z" question_asked None JNull]
                idle_context) in
  let c' := deleteLocalSession reliable (parse_as (JArr history)) "s1" c in
  (getItemAsync reliable storageKeys.SHARIAA_SESSIONS (store c')).1
  = Ok (Some (Json.stringify (JArr [JObj [("session_id", JStr "s2")]]))) /\
  sessionInteractions c'
  = [MkInteraction "s2" "2024-01-01T00:00:00.000Z" question_asked None JNull].
Proof.
  intros c c'.
  destruct (deleteLocalSession_purges reliable (parse_as (JArr history))
              reliable_never_rejects "s1" c history) as (H1 & H2 & _).
  - vm_compute. reflexivity.
  - repeat constructor.
  - split; [exact H1|exact H2].
Defined.

Lemma lookup_field_set_field_eq (k : string) (v : jsval)
    (fields : list (string * jsval)) :
  Json.lookup_field k (set_field k v fields) = Some v.
Proof.
  induction fields as [|[k' x] fields IH]; cbn.
  - by rewrite decide_True.
  - destruct (decide (k' = k)) as [->|Hne]; cbn.
    + by rewrite decide_True.
    + by rewrite decide_False.
Qed.

Lemma lookup_field_set_field_ne (k k' : string) (v : jsval)
    (fields : list (string * jsval)) :
  k <> k' ->
  Json.lookup_field k' (set_field k v fields) = Json.lookup_field k' fields.
Proof.
  intros Hne. induction fields as [|[k0 x] fields IH]; cbn.
  - by rewrite decide_False.
  - destruct (decide (k0 = k)) as [->|Hk0]; cbn.
    + by rewrite !decide_False.
    + destruct (decide (k0 = k')); [done|apply IH].
Qed.

Lemma set_field_restore (k : string) (v w : jsval)
    (fields : list (string * jsval)) :
  Json.lookup_field k fields = Some v ->
  set_field k v (set_field k w fields) = fields.
Proof.
  induction fields as [|[k' x] fields IH]; cbn; [done|].
  destruct (decide (k' = k)) as [->|Hne]; cbn.
  - intros [= ->]. by rewrite decide_True.
  - intros H. rewrite decide_False by done. by rewrite IH.
Qed.

Lemma toggle_bookmark_object (sid : string) (fields : list (string * jsval)) :
  toggle_bookmark sid (JObj fields)
  = Ok (if has_session_id sid (JObj fields)
        then JObj (set_field "isBookmarked"
                     (JBool (negb (js_truthy
                        (default JUndefined
                           (Json.lookup_field "isBookmarked" fields)))))
                     fields)
        else JObj fields).
Proof.
  unfold toggle_bookmark, has_session_id. cbn [Json.prop obind].
  destruct (Json.lookup_field "session_id" fields) as [[]|]; cbn; try done.
  by case_bool_decide.
Qed.

(** What one call of the bookmark toggle does to a stored record. *)
Lemma toggle_bookmark_record (sid : string) (fields : list (string * jsval)) :
  exists fields',
    toggle_bookmark sid (JObj fields) = Ok (JObj fields') /\
    has_session_id sid (JObj fields') = has_session_id sid (JObj fields) /\
    (has_session_id sid (JObj fields) = false -> fields' = fields) /\
    (has_session_id sid (JObj fields) = true ->
     Json.lookup_field "isBookmarked" fields'
     = Some (JBool (negb (js_truthy
                (default JUndefined (Json.lookup_field "isBookmarked" fields)))))) /\
    (forall b, Json.lookup_field "isBookmarked" fields = Some (JBool b) ->
     toggle_bookmark sid (JObj fields') = Ok (JObj fields)).
Proof.
  rewrite toggle_bookmark_object.
  destruct (has_session_id sid (JObj fields)) eqn:Hid.
  - eexists. split; [done|].
    assert (has_session_id sid
              (JObj (set_field "isBookmarked"
                       (JBool (negb (js_truthy
                          (default JUndefined
                             (Json.lookup_field "isBookmarked" fields)))))
                       fields)) = true) as Hid'.
    { unfold has_session_id in *.
      by rewrite lookup_field_set_field_ne. }
    split; [done|]. split; [done|]. split.
    + intros _. apply lookup_field_set_field_eq.
    + intros b Hb. rewrite toggle_bookmark_object, Hid'.
      rewrite lookup_field_set_field_eq, Hb. cbn [default from_option id js_truthy].
      rewrite negb_involutive. by rewrite set_field_restore.
  - eexists. split; [done|]. split; [done|]. split; [done|]. split; [done|].
    intros b _. by rewrite toggle_bookmark_object, Hid.
Qed.

Section BookmarkProperties.
Variable faulty : nat -> prim_op -> option string.
Variable JSON_parse : string -> outcome jsval.
Hypothesis Hrel : never_rejects faulty.

(** X11. Over a primitive that never rejects, bookmarking a session writes
    back a list of the same length in which the records with another
    identifier are untouched and the records with that identifier carry the
    negated bookmark flag (a missing flag counts as false); toggling such a
    record once more gives the stored record back whenever its flag was a
    boolean. *)
Theorem bookmarkSession_toggles (sid : string) (s : secure_store)
    (sessions : list jsval) :
  (getLocalSessions faulty JSON_parse s).1 = Ok (JArr sessions) ->
  Forall is_object sessions ->
  exists toggled,
    (getItemAsync faulty storageKeys.SHARIAA_SESSIONS
       (bookmarkSession faulty JSON_parse sid s).2).1
    = Ok (Some (Json.stringify (JArr toggled))) /\
    Forall2
      (fun before after =>
         has_session_id sid after = has_session_id sid before /\
         (has_session_id sid before = false -> after = before) /\
         (has_session_id sid before = true ->
          exists flag,
            Json.prop before "isBookmarked" = Ok flag /\
            Json.prop after "isBookmarked" = Ok (JBool (negb (js_truthy flag)))) /\
         (forall b, Json.prop before "isBookmarked" = Ok (JBool b) ->
          toggle_bookmark sid after = Ok before))
      sessions toggled.
Proof.
  intros Hstored Hobj.
  assert (exists toggled,
            map_outcome (toggle_bookmark sid) sessions = Ok toggled /\
            Forall2
              (fun before after =>
                 has_session_id sid after = has_session_id sid before /\
                 (has_session_id sid before = false -> after = before) /\
                 (has_session_id sid before = true ->
                  exists flag,
                    Json.prop before "isBookmarked" = Ok flag /\
                    Json.prop after "isBookmarked"
                    = Ok (JBool (negb (js_truthy flag)))) /\
                 (forall b, Json.prop before "isBookmarked" = Ok (JBool b) ->
                  toggle_bookmark sid after = Ok before))
              sessions toggled) as (toggled & Hmap & Hall).
  { clear Hstored. induction Hobj as [|session sessions Hs _ IH].
    - exists []. by split.
    - destruct IH as (rest & Hrest & Hall).
      destruct session as [| | | | | |fields]; try done.
      destruct (toggle_bookmark_record sid fields)
        as (fields' & Htog & Hid & Hsame & Hflag & Hback).
      exists (JObj fields' :: rest). cbn [map_outcome].
      rewrite Htog, Hrest. split; [done|]. constructor; [|done].
      split; [done|]. split; [by intros ->%Hsame|]. split.
      + intros Hyes. eexists. split; [done|]. cbn [Json.prop].
        by rewrite (Hflag Hyes).
      + intros b Hb. apply (Hback b). cbn [Json.prop] in Hb.
        destruct (Json.lookup_field "isBookmarked" fields); by simplify_eq/=. }
  exists toggled. split; [|done].
  unfold bookmarkSession, try_catch at 1. unfold bind.
  destruct (getLocalSessions faulty JSON_parse s) as [r s1].
  cbn in Hstored. subst r. unfold lift. cbn [as_array]. rewrite Hmap.
  pose proof (setItemAsync_completes faulty Hrel storageKeys.SHARIAA_SESSIONS
                (Json.stringify (JArr toggled)) s1) as Hok.
  pose proof (setItemAsync_then_get faulty Hrel storageKeys.SHARIAA_SESSIONS
                (Json.stringify (JArr toggled)) s1) as Hget.
  destruct (setItemAsync faulty storageKeys.SHARIAA_SESSIONS
              (Json.stringify (JArr toggled)) s1) as [r s2].
  cbn in *. by subst r.
Qed.

End BookmarkProperties.

Lemma bookmarkSession_toggles_witness :
  (getItemAsync reliable storageKeys.SHARIAA_SESSIONS
     (bookmarkSession reliable (parse_as (JArr history)) "s1" history_store).2).1
  = Ok (Some (Json.stringify
                (JArr [JObj [("session_id", JStr "s1"); ("isBookmarked", JBool true)];
                       JObj [("session_id", JStr "s2")]]))).
Proof.
  destruct (bookmarkSession_toggles reliable (parse_as (JArr history))
              reliable_never_rejects "s1" history_store history)
    as (toggled & Hget & Hall).
  - vm_compute. reflexivity.
  - repeat constructor.
  - vm_compute. reflexivity.
Defined.

(** ** Persisting and restoring the active session *)

Lemma stringify_array_truthy (items : list jsval) :
  Js.truthy (Some (Json.stringify (JArr items))) = true.
Proof. cbn [Json.stringify]. by rewrite app_cons. Qed.

Lemma stringify_object_truthy (fields : list (string * jsval)) :
  Js.truthy (Some (Json.stringify (JObj fields))) = true.
Proof. cbn [Json.stringify]. by rewrite app_cons. Qed.

Lemma essential_details_object (details essential : jsval) :
  essential_details details = Ok essential ->
  exists fields, essential = JObj fields.
Proof.
  unfold essential_details, obind. intros H.
  repeat match type of H with
         | match ?m with _ => _ end = _ => destruct m; [|done]
         end.
  simplify_eq. eauto.
Qed.

Section ActiveSessionProperties.
Variable faulty : nat -> prim_op -> option string.
Variable JSON_parse : string -> outcome jsval.
Hypothesis Hrel : never_rejects faulty.

Lemma getItemAsync_keeps_cells (key : string) (s : secure_store) :
  cells (getItemAsync faulty key s).2 = cells s.
Proof.
  unfold getItemAsync, try_catch, bind, SecureStore.getItemAsync.
  rewrite Hrel. destruct (Js.truthy (cells s !! manifest_key key)).
  - rewrite read_chunks_reliable by (intros t k; apply Hrel). done.
  - by rewrite Hrel.
Qed.

Lemma getItemAsync_run (key : string) (s : secure_store) :
  exists r, getItemAsync faulty key s = (Ok r, (getItemAsync faulty key s).2) /\
            (getItemAsync faulty key s).1 = Ok r.
Proof.
  pose proof (getItemAsync_cells faulty Hrel key s) as H.
  destruct (getItemAsync faulty key s) as [r s']. cbn in *. subst r. eauto.
Qed.

Lemma bind_set {B} (key value : string) (k : unit -> M B) (s : secure_store) :
  bind (setItemAsync faulty key value) k s
  = k tt (setItemAsync faulty key value s).2.
Proof.
  unfold bind. pose proof (setItemAsync_completes faulty Hrel key value s) as H.
  destruct (setItemAsync faulty key value s) as [r s']. cbn in *. by subst r.
Qed.

(** What [restoreSessionData] does with the three values it reads. *)
Lemma restoreSessionData_reads (s : secure_store)
    (id terms details : option string) :
  (getItemAsync faulty storageKeys.CURRENT_SESSION_ID s).1 = Ok id ->
  (getItemAsync faulty storageKeys.CURRENT_ANALYSIS_TERMS s).1 = Ok terms ->
  (getItemAsync faulty storageKeys.CURRENT_SESSION_DETAILS s).1 = Ok details ->
  (restoreSessionData faulty JSON_parse s).1
  = Ok (if Js.truthy id && Js.truthy terms then
          match JSON_parse (default "" terms) with
          | Throw _ => (id, None, None)
          | Ok t =>
              if Js.truthy details then
                match JSON_parse (default "" details) with
                | Throw _ => (id, Some t, None)
                | Ok d => (id, Some t, Some d)
                end
              else (id, Some t, None)
          end
        else (None, None, None)).
Proof.
  intros Hid Hterms Hdetails. unfold restoreSessionData, bind.
  destruct (getItemAsync_run storageKeys.CURRENT_SESSION_ID s) as (r1 & E1 & H1).
  rewrite Hid in H1. injection H1 as <-. rewrite E1.
  set (s1 := (getItemAsync faulty storageKeys.CURRENT_SESSION_ID s).2).
  assert (cells s1 = cells s) as Hc1 by apply getItemAsync_keeps_cells.
  destruct (getItemAsync_run storageKeys.CURRENT_ANALYSIS_TERMS s1) as (r2 & E2 & H2).
  rewrite (getItemAsync_agree faulty Hrel _ s1 s) in H2 by (intros; by rewrite Hc1).
  rewrite Hterms in H2. injection H2 as <-. rewrite E2.
  set (s2 := (getItemAsync faulty storageKeys.CURRENT_ANALYSIS_TERMS s1).2).
  assert (cells s2 = cells s) as Hc2
    by (unfold s2; by rewrite getItemAsync_keeps_cells).
  destruct (getItemAsync_run storageKeys.CURRENT_SESSION_DETAILS s2) as (r3 & E3 & H3).
  rewrite (getItemAsync_agree faulty Hrel _ s2 s) in H3 by (intros; by rewrite Hc2).
  rewrite Hdetails in H3. injection H3 as <-. rewrite E3.
  destruct (Js.truthy id && Js.truthy terms); [|done].
  destruct (JSON_parse (default "" terms)); [|done].
  destruct (Js.truthy details); [|done].
  by destruct (JSON_parse (default "" details)).
Qed.

(** X12. Over a primitive that never rejects, an active session whose
    essential term and detail projections each serialize to fewer than 2000
    characters survives a restart: after [saveSessionData],
    [restoreSessionData] restores the identifier and hands [JSON.parse]
    exactly the two serialized projections. *)
Theorem save_then_restore (sid : string) (terms essentialTerms : list jsval)
    (details essentialDetails restoredTerms restoredDetails : jsval)
    (s : secure_store) :
  sid <> "" ->
  map_outcome essential_term terms = Ok essentialTerms ->
  js_truthy details = true ->
  essential_details details = Ok essentialDetails ->
  String.length (Json.stringify (JArr essentialTerms)) < 2000 ->
  String.length (Json.stringify essentialDetails) < 2000 ->
  JSON_parse (Json.stringify (JArr essentialTerms)) = Ok restoredTerms ->
  JSON_parse (Json.stringify essentialDetails) = Ok restoredDetails ->
  (restoreSessionData faulty JSON_parse
     (saveSessionData faulty (Some sid) (Some terms) (Some details) s).2).1
  = Ok (Some sid, Some restoredTerms, Some restoredDetails).
Proof.
  intros Hsid Hterms Htruthy Hdetails Hlt Hld Hpt Hpd.
  assert (Js.truthy (Some sid) = true) as Hs by (by destruct sid).
  destruct (essential_details_object _ _ Hdetails) as [fields ->].
  unfold saveSessionData. rewrite Hs. unfold try_catch at 1.
  cbn [default from_option]. unfold id. rewrite bind_set.
  unfold lift, bind at 1. rewrite Hterms, Htruthy. cbn zeta.
  rewrite decide_True by done. rewrite bind_set.
  unfold bind at 1. rewrite Hdetails. rewrite decide_True by done.
  set (s1 := (setItemAsync faulty storageKeys.CURRENT_SESSION_ID sid s).2).
  set (s2 := (setItemAsync faulty storageKeys.CURRENT_ANALYSIS_TERMS _ s1).2).
  pose proof (setItemAsync_completes faulty Hrel storageKeys.CURRENT_SESSION_DETAILS
                (Json.stringify (JObj fields)) s2) as Hok.
  destruct (setItemAsync faulty storageKeys.CURRENT_SESSION_DETAILS
              (Json.stringify (JObj fields)) s2) as [r s3] eqn:Hs3.
  cbn in Hok. subst r. cbn [snd].
  assert (s3 = (setItemAsync faulty storageKeys.CURRENT_SESSION_DETAILS
                  (Json.stringify (JObj fields)) s2).2) as -> by (by rewrite Hs3).
  rewrite (restoreSessionData_reads _ (Some sid)
             (Some (Json.stringify (JArr essentialTerms)))
             (Some (Json.stringify (JObj fields)))).
  - rewrite Hs, stringify_array_truthy, stringify_object_truthy.
    cbn [andb default from_option]. unfold id. by rewrite Hpt, Hpd.
  - rewrite setItemAsync_other_key by (done || apply id_details_independent).
    unfold s2.
    rewrite setItemAsync_other_key by (done || apply id_terms_independent).
    by apply setItemAsync_then_get.
  - rewrite setItemAsync_other_key by (done || apply terms_details_independent).
    by apply setItemAsync_then_get.
  - by apply setItemAsync_then_get.
Qed.

(** X13. Over a primitive that never rejects, when the essential projection
    of the terms serializes to 2000 characters or more, [saveSessionData]
    stores the session identifier and skips the terms; if no terms were
    stored before, the next [restoreSessionData] restores nothing, not even
    the identifier. *)
Theorem oversized_terms_not_restored (sid : string)
    (terms essentialTerms : list jsval) (details : option jsval)
    (s : secure_store) :
  sid <> "" ->
  map_outcome essential_term terms = Ok essentialTerms ->
  2000 <= String.length (Json.stringify (JArr essentialTerms)) ->
  (getItemAsync faulty storageKeys.CURRENT_ANALYSIS_TERMS s).1 = Ok None ->
  let s' := (saveSessionData faulty (Some sid) (Some terms) details s).2 in
  (getItemAsync faulty storageKeys.CURRENT_SESSION_ID s').1 = Ok (Some sid) /\
  (getItemAsync faulty storageKeys.CURRENT_ANALYSIS_TERMS s').1 = Ok None /\
  (restoreSessionData faulty JSON_parse s').1 = Ok (None, None, None).
Proof.
  intros Hsid Hterms Hlong Hnone s'.
  assert (Js.truthy (Some sid) = true) as Hs by (by destruct sid).
  set (s1 := (setItemAsync faulty storageKeys.CURRENT_SESSION_ID sid s).2).
  assert ((getItemAsync faulty storageKeys.CURRENT_SESSION_ID s1).1 = Ok (Some sid))
    as Hid1 by (by apply setItemAsync_then_get).
  assert ((getItemAsync faulty storageKeys.CURRENT_ANALYSIS_TERMS s1).1 = Ok None)
    as Ht1.
  { unfold s1. rewrite setItemAsync_other_key; [done..|].
    apply terms_id_independent. }
  assert (s' = s1 \/
          exists text, s' = (setItemAsync faulty storageKeys.CURRENT_SESSION_DETAILS
                               text s1).2) as Hs'.
  { subst s'.
    destruct (saveSessionData faulty (Some sid) (Some terms) details s)
      as [outcome_ final] eqn:Hrun.
    cbn [snd]. unfold saveSessionData in Hrun. rewrite Hs in Hrun.
    unfold try_catch at 1 in Hrun.
    cbn [default from_option] in Hrun. unfold id in Hrun.
    rewrite bind_set in Hrun. fold s1 in Hrun.
    unfold lift, bind at 1 in Hrun. rewrite Hterms in Hrun. cbn zeta in Hrun.
    rewrite decide_False in Hrun by lia.
    unfold bind at 1, ret at 1 in Hrun.
    destruct details as [d|]; [|left; unfold ret in Hrun; by simplify_eq/=].
    destruct (js_truthy d); [|left; unfold ret in Hrun; by simplify_eq/=].
    unfold bind in Hrun.
    destruct (essential_details d) as [e|];
      [|left; unfold ret in Hrun; by simplify_eq/=].
    case_decide; [|left; unfold ret in Hrun; by simplify_eq/=].
    pose proof (setItemAsync_completes faulty Hrel
                  storageKeys.CURRENT_SESSION_DETAILS (Json.stringify e) s1) as Hok.
    destruct (setItemAsync faulty storageKeys.CURRENT_SESSION_DETAILS
                (Json.stringify e) s1) as [r s3] eqn:Hs3.
    cbn in Hok. subst r. right. exists (Json.stringify e).
    rewrite Hs3. by simplify_eq/=. }
  assert ((getItemAsync faulty storageKeys.CURRENT_SESSION_ID s').1 = Ok (Some sid)
          /\ (getItemAsync faulty storageKeys.CURRENT_ANALYSIS_TERMS s').1 = Ok None)
    as [Hid Ht].
  { destruct Hs' as [->|[text ->]]; [done|].
    rewrite !setItemAsync_other_key;
      [done|done|apply terms_details_independent|done|apply id_details_independent]. }
  split; [done|]. split; [done|].
  destruct (getItemAsync_run storageKeys.CURRENT_SESSION_DETAILS s')
    as (r & _ & Hd).
  rewrite (restoreSessionData_reads s' (Some sid) None r) by done.
  by rewrite andb_false_r.
Qed.

(** X14. Over a primitive that never rejects, with a stored session
    identifier: [restoreSessionData] restores nothing when no terms are
    stored, and when the stored terms are not valid JSON it restores the
    identifier alone, without terms or details. *)
Theorem restore_needs_terms (sid : string) (s : secure_store) :
  sid <> "" ->
  (getItemAsync faulty storageKeys.CURRENT_SESSION_ID s).1 = Ok (Some sid) ->
  ((getItemAsync faulty storageKeys.CURRENT_ANALYSIS_TERMS s).1 = Ok None ->
   (restoreSessionData faulty JSON_parse s).1 = Ok (None, None, None)) /\
  (forall text e,
     (getItemAsync faulty storageKeys.CURRENT_ANALYSIS_TERMS s).1 = Ok (Some text) ->
     text <> "" -> JSON_parse text = Throw e ->
     (restoreSessionData faulty JSON_parse s).1 = Ok (Some sid, None, None)).
Proof.
  intros Hsid Hid.
  destruct (getItemAsync_run storageKeys.CURRENT_SESSION_DETAILS s) as (r & _ & Hd).
  split.
  - intros Hnone. rewrite (restoreSessionData_reads s (Some sid) None r) by done.
    by rewrite andb_false_r.
  - intros text e Htext Hne Hparse.
    rewrite (restoreSessionData_reads s (Some sid) (Some text) r) by done.
    assert (Js.truthy (Some sid) = true) as -> by (by destruct sid).
    assert (Js.truthy (Some text) = true) as -> by (by destruct text).
    cbn [andb default from_option]. unfold id. by rewrite Hparse.
Qed.

End ActiveSessionProperties.

Lemma save_then_restore_witness :
  let parse := parse_table [JArr [sample_essential_term]; sample_essential_details] in
  (restoreSessionData reliable parse
     (saveSessionData reliable (Some "sid-1") (Some [sample_json_term])
        (Some sample_json_details) empty_store).2).1
  = Ok (Some "sid-1", Some (JArr [sample_essential_term]),
        Some sample_essential_details).
Proof.
  intros parse.
  apply (save_then_restore reliable parse reliable_never_rejects "sid-1"
           [sample_json_term] [sample_essential_term] sample_json_details
           sample_essential_details).
  - discriminate.
  - vm_compute. reflexivity.
  - reflexivity.
  - vm_compute. reflexivity.
  - vm_compute. lia.
  - vm_compute. lia.
  - vm_compute. reflexivity.
  - vm_compute. reflexivity.
Defined.

Lemma oversized_terms_not_restored_witness :
  let s' := (saveSessionData reliable (Some "sid-1") (Some [long_json_term])
               (Some sample_json_details) empty_store).2 in
  (getItemAsync reliable storageKeys.CURRENT_SESSION_ID s').1 = Ok (Some "sid-1") /\
  (getItemAsync reliable storageKeys.CURRENT_ANALYSIS_TERMS s').1 = Ok None /\
  (restoreSessionData reliable no_parse s').1 = Ok (None, None, None).
Proof.
  intros s'.
  apply (oversized_terms_not_restored reliable no_parse reliable_never_rejects
           "sid-1" [long_json_term]
           [JObj [("term_id", JStr "t1"); ("is_valid_sharia", JBool true);
                  ("isUserConfirmed", JUndefined);
                  ("userModifiedText", JStr (repeat_string 2000 "a"));
                  ("isReviewedSuggestionValid", JUndefined);
                  ("lastModified", JUndefined);
                  ("interactionCount", JUndefined)]]
           (Some sample_json_details) empty_store).
  - discriminate.
  - vm_compute. reflexivity.
  - vm_compute. lia.
  - vm_compute. reflexivity.
Defined.

Lemma restore_needs_terms_witness :
  let s := MkStore (<["current_session_id" := "sid-1"]> ∅) 0 in
  (restoreSessionData reliable no_parse s).1 = Ok (None, None, None).
Proof.
  intros s.
  apply (restore_needs_terms reliable no_parse reliable_never_rejects "sid-1" s).
  - discriminate.
  - vm_compute. reflexivity.
  - vm_compute. reflexivity.
Defined.

(** * Further properties of the orchestrator *)

Lemma Forall2_map_self {A B} (P : A -> B -> Prop) (f : A -> B) (l : list A) :
  (forall x, P x (f x)) -> Forall2 P l (map f l).
Proof. intros HP. induction l; constructor; auto. Qed.

(** The statistics only look at the verdict fields of the terms. *)
Lemma complianceStats_map (f : FrontendAnalysisTerm -> FrontendAnalysisTerm)
    (terms : list FrontendAnalysisTerm) :
  (forall t, counts_as_compliant (f t) = counts_as_compliant t /\
             has_expert_feedback (f t) = has_expert_feedback t /\
             isUserConfirmed (f t) = isUserConfirmed t) ->
  complianceStats (Some (map f terms)) = complianceStats (Some terms).
Proof.
  intros Hf. unfold complianceStats. rewrite length_map.
  case_decide; [done|].
  assert (forall p : FrontendAnalysisTerm -> bool,
            (forall t, p (f t) = p t) ->
            length (filter (fun t => p t = true) (map f terms))
            = length (filter (fun t => p t = true) terms)) as Hcount.
  { intros p Hp. clear -Hp. induction terms as [|t terms IH]; [done|].
    cbn [map]. rewrite !filter_cons, Hp.
    case_decide; cbn [length]; by rewrite IH. }
  rewrite (Hcount counts_as_compliant) by (intros; apply Hf).
  rewrite (Hcount (fun t => flag (has_expert_feedback t)))
    by (intros t; by destruct (Hf t) as (_ & -> & _)).
  rewrite (Hcount (fun t => flag (isUserConfirmed t)))
    by (intros t; by destruct (Hf t) as (_ & _ & ->)).
  done.
Qed.

Lemma truthy_session (sid : string) : sid <> "" -> Js.truthy (Some sid) = true.
Proof. by destruct sid. Qed.

Section MoreOrchestratorProperties.
Variable faulty : nat -> prim_op -> option string.
Variable JSON_parse : string -> outcome jsval.
Variable api_uploadContract : UploadFile.t -> outcome string.
Variable api_getSessionDetails : string -> outcome jsval.
Variable api_getSessionTerms :
  string -> outcome (option (list FrontendAnalysisTerm)).
Variable api_askQuestion :
  string -> string -> option string -> option string -> outcome string.

Lemma addInteraction_from_fields (captured_id : option string)
    (captured : list SessionInteraction) (type : interaction_type)
    (termId : option string) (data : jsval) (now : string) (c : context) :
  let c' := addInteraction_from faulty captured_id captured type termId data now c in
  sessionId c' = sessionId c /\ selectedSessionId c' = selectedSessionId c /\
  analysisTerms c' = analysisTerms c /\ sessionDetails c' = sessionDetails c /\
  isUploading c' = isUploading c /\ uploadProgress c' = uploadProgress c /\
  isAnalyzingContract c' = isAnalyzingContract c /\
  isFetchingSession c' = isFetchingSession c /\
  isTermProcessing c' = isTermProcessing c /\
  isAskingQuestion c' = isAskingQuestion c /\ error c' = error c /\
  uploadError c' = uploadError c /\ analysisError c' = analysisError c /\
  alerts c' = alerts c /\ api_calls c' = api_calls c /\
  sessionInteractions c'
  = if Js.truthy captured_id
    then MkInteraction (default "" captured_id) now type termId data :: captured
    else sessionInteractions c.
Proof.
  unfold addInteraction_from. destruct (Js.truthy captured_id); [|done].
  unfold on_store_logged, on_store. cbn [store set_sessionInteractions].
  by destruct (setItemAsync faulty _ _ (store c)).
Qed.

(** X15. When the remote client rejects a question about a term, the term
    list, the interaction log and the store are left as they were, the
    answer is null, one alert carries the error, and the busy flags of the
    term and of question answering are down again. *)
Theorem askQuestionAboutTerm_rejected (termId question now sid e : string)
    (c : context) (terms : list FrontendAnalysisTerm)
    (term : FrontendAnalysisTerm) :
  sessionId c = Some sid -> sid <> "" ->
  analysisTerms c = Some terms ->
  find (fun t => bool_decide (term_id t = termId)) terms = Some term ->
  api_askQuestion sid question (Some termId) (Some (term_text term)) = Throw e ->
  let r := askQuestionAboutTerm faulty api_askQuestion termId question now c in
  r.1 = None /\
  analysisTerms r.2 = Some terms /\
  sessionInteractions r.2 = sessionInteractions c /\
  store r.2 = store c /\
  alerts r.2 = alerts c ++ [("Interaction Error", e)] /\
  isTermProcessing r.2 = <[termId := false]> (isTermProcessing c) /\
  isAskingQuestion r.2 = false /\
  api_calls r.2
  = api_calls c ++
    [CallAskQuestion sid question (Some termId) (Some (term_text term))].
Proof.
  intros Hsid Hne Hterms Hfind Hapi. unfold askQuestionAboutTerm.
  rewrite Hsid, (truthy_session sid Hne), Hterms, Hfind.
  cbn [negb default from_option]. unfold id. rewrite Hapi.
  cbn. rewrite insert_insert_eq. by rewrite Hterms.
Qed.

(** X16. When the remote client answers a question about a term, the answer
    is returned and stored on that term, whose interaction counter grows by
    one; the other terms are untouched, the compliance statistics are the
    same as before, one interaction of the active session is put in front
    of the log, and the busy flags are down again. *)
Theorem askQuestionAboutTerm_answered (termId question now sid answer : string)
    (c : context) (terms : list FrontendAnalysisTerm)
    (term : FrontendAnalysisTerm) :
  sessionId c = Some sid -> sid <> "" ->
  analysisTerms c = Some terms ->
  find (fun t => bool_decide (term_id t = termId)) terms = Some term ->
  api_askQuestion sid question (Some termId) (Some (term_text term)) = Ok answer ->
  let r := askQuestionAboutTerm faulty api_askQuestion termId question now c in
  r.1 = Some answer /\
  (exists terms',
     analysisTerms r.2 = Some terms' /\
     Forall2
       (fun t t' =>
          if decide (term_id t = termId) then
            term_id t' = termId /\ currentQaAnswer t' = Some answer /\
            interactionCount t' = Some (default 0 (interactionCount t) + 1) /\
            lastModified t' = Some now
          else t' = t)
       terms terms') /\
  complianceStats (analysisTerms r.2) = complianceStats (analysisTerms c) /\
  sessionInteractions r.2
  = MkInteraction sid now question_asked (Some termId)
      (JObj [("question", JStr question); ("answer", JStr answer)])
    :: sessionInteractions c /\
  isTermProcessing r.2 = <[termId := false]> (isTermProcessing c) /\
  isAskingQuestion r.2 = false.
Proof.
  intros Hsid Hne Hterms Hfind Hapi. unfold askQuestionAboutTerm.
  rewrite Hsid, (truthy_session sid Hne), Hterms, Hfind.
  cbn [negb default from_option]. unfold id. rewrite Hapi.
  match goal with
  | |- context [addInteraction_from faulty ?i ?l ?ty ?t ?d ?n ?c0] =>
      pose proof (addInteraction_from_fields i l ty t d n c0) as Hadd;
      cbv zeta in Hadd;
      destruct Hadd as (_ & _ & Hat & _ & _ & _ & _ & _ & Htp & _ & _ & _ & _ & _
                        & _ & Hlog)
  end.
  cbn [fst snd analysisTerms sessionInteractions isTermProcessing
       isAskingQuestion set_isTermProcessing set_isAskingQuestion].
  rewrite Hat, Htp, Hlog. rewrite (truthy_session sid Hne).
  cbn. rewrite Hterms. cbn [option_map]. rewrite insert_insert_eq.
  split; [done|]. split; [|split; [|done]].
  - eexists. split; [done|]. apply Forall2_map_self.
    intros t. unfold answer_term. by case_decide.
  - apply complianceStats_map. intros t. unfold answer_term. by case_decide.
Qed.

End MoreOrchestratorProperties.

Lemma askQuestionAboutTerm_rejected_witness :
  let r := askQuestionAboutTerm reliable rejecting_answer "t1" "why?"
             "2024-01-01T00:00:00.000Z" loaded_context in
  r.1 = None /\ analysisTerms r.2 = Some [sample_term] /\
  alerts r.2 = [("Interaction Error", "503 Service Unavailable")].
Proof.
  intros r.
  destruct (askQuestionAboutTerm_rejected reliable rejecting_answer "t1" "why?"
              "2024-01-01T00:00:00.000Z" "sid-1" "503 Service Unavailable"
              loaded_context [sample_term] sample_term)
    as (H1 & H2 & _ & _ & H5 & _); try reflexivity.
  - discriminate.
  - split; [exact H1|split; [exact H2|exact H5]].
Defined.

Lemma askQuestionAboutTerm_answered_witness :
  let r := askQuestionAboutTerm reliable sample_answer "t1" "why?"
             "2024-01-01T00:00:00.000Z" loaded_context in
  r.1 = Some "an answer" /\
  complianceStats (analysisTerms r.2) = complianceStats (Some [sample_term]).
Proof.
  intros r.
  destruct (askQuestionAboutTerm_answered reliable sample_answer "t1" "why?"
              "2024-01-01T00:00:00.000Z" "sid-1" "an answer"
              loaded_context [sample_term] sample_term)
    as (H1 & _ & H3 & _); try reflexivity.
  - discriminate.
  - split; [exact H1|exact H3].
Defined.

(** ** Clearing, loading and uploading *)

Lemma on_store_logged_fields (m : M unit) (c : context) :
  let c' := on_store_logged m c in
  sessionId c' = sessionId c /\ selectedSessionId c' = selectedSessionId c /\
  analysisTerms c' = analysisTerms c /\ sessionDetails c' = sessionDetails c /\
  sessionInteractions c' = sessionInteractions c /\
  isUploading c' = isUploading c /\ uploadProgress c' = uploadProgress c /\
  isAnalyzingContract c' = isAnalyzingContract c /\
  isFetchingSession c' = isFetchingSession c /\
  isTermProcessing c' = isTermProcessing c /\
  isAskingQuestion c' = isAskingQuestion c /\ error c' = error c /\
  uploadError c' = uploadError c /\ analysisError c' = analysisError c /\
  alerts c' = alerts c /\ api_calls c' = api_calls c /\
  store c' = (m (store c)).2.
Proof. unfold on_store_logged, on_store. by destruct (m (store c)). Qed.

Lemma starts_with_app (p post : string) : Js.starts_with p (p ++ post) = true.
Proof.
  induction p as [|a p IH]; [done|].
  change (String a p +:+ post) with (String a (p +:+ post)).
  cbn [Js.starts_with]. by destruct (decide (a = a)).
Qed.

(** [includes] finds the pattern wherever it occurs. *)
Lemma includes_app (p pre post : string) :
  Js.includes p (pre ++ p ++ post) = true.
Proof.
  induction pre as [|a pre IH].
  - change ("" +:+ p +:+ post) with (p +:+ post).
    destruct (p +:+ post) eqn:E; cbn [Js.includes];
      rewrite <- E, starts_with_app; done.
  - change (String a pre +:+ p +:+ post) with (String a (pre +:+ p +:+ post)).
    cbn [Js.includes]. rewrite IH. apply orb_true_r.
Qed.

Lemma getSessionInteractions_filter (l : list SessionInteraction) (sid : string) :
  getSessionInteractions l (JStr sid) = filter (fun i => i_sessionId i = sid) l.
Proof.
  unfold getSessionInteractions. induction l as [|i l IH]; [done|].
  rewrite !filter_cons, IH. cbn [Json.strict_eq].
  destruct (decide (i_sessionId i = sid)) as [Heq|Hne].
  - rewrite decide_True; [done|]. by apply bool_decide_eq_true.
  - rewrite decide_False; [done|]. by rewrite bool_decide_eq_false_2.
Qed.

Section SessionLifecycle.
Variable faulty : nat -> prim_op -> option string.
Variable JSON_parse : string -> outcome jsval.
Variable api_uploadContract : UploadFile.t -> outcome string.
Variable api_getSessionDetails : string -> outcome jsval.
Variable api_getSessionTerms :
  string -> outcome (option (list FrontendAnalysisTerm)).
Variable terms_settle_first : string -> bool.

Lemma clearSession_fields (c : context) :
  let c' := clearSession faulty c in
  sessionId c' = None /\ selectedSessionId c' = selectedSessionId c /\
  analysisTerms c' = None /\ sessionDetails c' = None /\
  sessionInteractions c' = sessionInteractions c /\
  isUploading c' = false /\ uploadProgress c' = 0%float /\
  isAnalyzingContract c' = false /\ isFetchingSession c' = false /\
  isTermProcessing c' = ∅ /\ isAskingQuestion c' = false /\
  error c' = None /\ uploadError c' = None /\ analysisError c' = None /\
  alerts c' = alerts c /\ api_calls c' = api_calls c.
Proof.
  unfold clearSession.
  match goal with
  | |- context [on_store_logged ?m ?c1] =>
      pose proof (on_store_logged_fields m c1) as H; cbv zeta in H;
      destruct H as (-> & -> & -> & -> & -> & -> & -> & -> & -> & -> & -> & ->
                     & -> & -> & -> & -> & _)
  end.
  done.
Qed.

Lemma clearSession_store (c : context) :
  never_rejects faulty ->
  store (clearSession faulty c)
  = (deleteItemAsync faulty storageKeys.CURRENT_SESSION_DETAILS
       (deleteItemAsync faulty storageKeys.CURRENT_ANALYSIS_TERMS
          (deleteItemAsync faulty storageKeys.CURRENT_SESSION_ID (store c)).2).2).2.
Proof.
  intros Hrel. unfold clearSession.
  match goal with
  | |- context [on_store_logged ?m ?c1] =>
      pose proof (on_store_logged_fields m c1) as H; cbv zeta in H;
      destruct H as (_ & _ & _ & _ & _ & _ & _ & _ & _ & _ & _ & _ & _ & _ & _
                     & _ & ->)
  end.
  cbn [store]. unfold bind.
  destruct (deleteItemAsync_completes faulty
              storageKeys.CURRENT_SESSION_ID (store c) (Hrel _ _)) as [s1 ->].
  destruct (deleteItemAsync_completes faulty
              storageKeys.CURRENT_ANALYSIS_TERMS s1 (Hrel _ _)) as [s2 E2].
  cbn [snd]. rewrite E2.
  destruct (deleteItemAsync_completes faulty
              storageKeys.CURRENT_SESSION_DETAILS s2 (Hrel _ _)) as [s3 E3].
  cbn [snd]. by rewrite E3.
Qed.

Lemma deleted_key_reads_null (key : string) (s : secure_store) :
  never_rejects faulty ->
  (getItemAsync faulty key (deleteItemAsync faulty key s).2).1 = Ok None.
Proof.
  intros Hrel. rewrite deleteItemAsync_eq, Hrel.
  match goal with
  | |- context [deleteChunks faulty key ?st] =>
      pose proof (deleteChunks_frame faulty key st key) as Hframe;
      destruct (deleteChunks_clears_manifest faulty key st Hrel) as (s1 & Hs1 & Hm)
  end.
  rewrite Hs1 in *. cbn in Hframe. cbn [snd].
  rewrite getItemAsync_direct_read by done. f_equal.
  rewrite Hframe.
  - apply lookup_delete_eq.
  - apply not_eq_sym, manifest_key_ne_key.
  - intros j. apply not_eq_sym, chunk_key_ne_key.
Qed.

Lemma null_read_survives_shrinking (key : string) (s s' : secure_store) :
  never_rejects faulty ->
  (getItemAsync faulty key s).1 = Ok None ->
  (forall k, cells s' !! k = None \/ cells s' !! k = cells s !! k) ->
  (getItemAsync faulty key s').1 = Ok None.
Proof.
  intros Hrel Hnull Hshrink.
  rewrite (getItemAsync_cells faulty Hrel) in *.
  destruct (Js.truthy (cells s !! manifest_key key)) eqn:Ht; [done|].
  injection Hnull as Hkey.
  assert (Js.truthy (cells s' !! manifest_key key) = false) as ->.
  { destruct (Hshrink (manifest_key key)) as [->| ->]; done. }
  f_equal. destruct (Hshrink key) as [->| ->]; done.
Qed.

(** X17. Over a primitive that never rejects, clearing the session resets
    the in-memory session (identifier, terms, details, busy flags and error
    fields) while the interaction log and the selected identifier stay,
    only removes entries from the store, and leaves nothing for the next
    start to restore: restoring right after it yields no session. *)
Theorem clearSession_forgets (c : context) :
  never_rejects faulty ->
  let c' := clearSession faulty c in
  sessionId c' = None /\ analysisTerms c' = None /\ sessionDetails c' = None /\
  isTermProcessing c' = ∅ /\
  error c' = None /\ uploadError c' = None /\ analysisError c' = None /\
  sessionInteractions c' = sessionInteractions c /\
  selectedSessionId c' = selectedSessionId c /\
  (forall k, cells (store c') !! k = None \/
             cells (store c') !! k = cells (store c) !! k) /\
  (restoreSessionData faulty JSON_parse (store c')).1 = Ok (None, None, None).
Proof.
  intros Hrel c'.
  destruct (clearSession_fields c)
    as (H1 & H2 & H3 & H4 & H5 & _ & _ & _ & _ & H10 & _ & H12 & H13 & H14 & _).
  do 9 (split; [done|]).
  unfold c'. rewrite (clearSession_store c Hrel).
  set (s1 := (deleteItemAsync faulty storageKeys.CURRENT_SESSION_ID (store c)).2).
  set (s2 := (deleteItemAsync faulty storageKeys.CURRENT_ANALYSIS_TERMS s1).2).
  set (s3 := (deleteItemAsync faulty storageKeys.CURRENT_SESSION_DETAILS s2).2).
  assert (forall k, cells s1 !! k = None \/ cells s1 !! k = cells (store c) !! k)
    as Hs1 by (intros k; apply deleteItemAsync_shrinks).
  assert (forall k, cells s2 !! k = None \/ cells s2 !! k = cells s1 !! k)
    as Hs2 by (intros k; apply deleteItemAsync_shrinks).
  assert (forall k, cells s3 !! k = None \/ cells s3 !! k = cells s2 !! k)
    as Hs3 by (intros k; apply deleteItemAsync_shrinks).
  split.
  - intros k. destruct (Hs3 k) as [->| ->]; [by left|].
    destruct (Hs2 k) as [->| ->]; [by left|]. apply Hs1.
  - rewrite (restoreSessionData_reads faulty JSON_parse Hrel s3 None None None);
      [done| | |].
    + apply (null_read_survives_shrinking _ s2); [done| |done].
      apply (null_read_survives_shrinking _ s1); [done| |done].
      by apply deleted_key_reads_null.
    + apply (null_read_survives_shrinking _ s2); [done| |done].
      by apply deleted_key_reads_null.
    + by apply deleted_key_reads_null.
Qed.

Abbreviation loadSessionData' :=
  (loadSessionData faulty JSON_parse api_getSessionDetails api_getSessionTerms
     terms_settle_first).
Abbreviation uploadAndAnalyzeContract' :=
  (uploadAndAnalyzeContract faulty JSON_parse api_uploadContract
     api_getSessionDetails api_getSessionTerms terms_settle_first).

(** The message a session load is rejected with: that of the only request
    that rejects, or, when both reject, that of the one that rejects
    first. *)
Lemma promise_all_rejects (sid e : string) :
  (exists terms, api_getSessionDetails sid = Throw e /\
                 api_getSessionTerms sid = Ok terms) \/
  (exists details, api_getSessionDetails sid = Ok details /\
                   api_getSessionTerms sid = Throw e) \/
  (exists e1 e2, api_getSessionDetails sid = Throw e1 /\
                 api_getSessionTerms sid = Throw e2 /\
                 e = if terms_settle_first sid then e2 else e1) ->
  promise_all (terms_settle_first sid)
    (api_getSessionDetails sid) (api_getSessionTerms sid) = Throw e.
Proof.
  intros [(t & -> & ->)|[(d & -> & ->)|(e1 & e2 & -> & -> & ->)]]; done.
Qed.

(** X18. When a session load is rejected (one of its two requests
    rejects, or both do), the session is cleared, one alert carries the
    message of the request that rejected first, both requests have been
    issued, the fetching flag is down again, and the error field ends
    empty: the message set by the handler is reset by the clearing that
    follows it. The interaction log is kept. *)
Theorem loadSessionData_rejected (sid now e : string) (c : context) :
  (exists terms, api_getSessionDetails sid = Throw e /\
                 api_getSessionTerms sid = Ok terms) \/
  (exists details, api_getSessionDetails sid = Ok details /\
                   api_getSessionTerms sid = Throw e) \/
  (exists e1 e2, api_getSessionDetails sid = Throw e1 /\
                 api_getSessionTerms sid = Throw e2 /\
                 e = if terms_settle_first sid then e2 else e1) ->
  let c' := loadSessionData' sid now c in
  sessionId c' = None /\ analysisTerms c' = None /\ sessionDetails c' = None /\
  error c' = None /\
  alerts c' = alerts c ++ [("Session Load Error", e)] /\
  api_calls c' = api_calls c ++ [CallGetSessionDetails sid; CallGetSessionTerms sid] /\
  isFetchingSession c' = false /\
  sessionInteractions c' = sessionInteractions c /\
  selectedSessionId c' = selectedSessionId c.
Proof.
  intros Hrej. unfold loadSessionData.
  rewrite (promise_all_rejects sid e Hrej). cbn [obind].
  match goal with
  | |- context [clearSession faulty ?c0] =>
      destruct (clearSession_fields c0)
        as (H1 & H2 & H3 & H4 & H5 & _ & _ & _ & _ & _ & _ & H12 & _ & _ & H15 & H16)
  end.
  cbn [sessionId analysisTerms sessionDetails error alerts api_calls
       isFetchingSession sessionInteractions selectedSessionId
       set_isFetchingSession].
  rewrite H1, H2, H3, H4, H5, H12, H15, H16. cbn. by rewrite <- app_assoc.
Qed.

Lemma enrich_term_verdict (mine : list SessionInteraction)
    (t : FrontendAnalysisTerm) :
  term_id (enrich_term mine t) = term_id t /\
  counts_as_compliant (enrich_term mine t) = counts_as_compliant t /\
  has_expert_feedback (enrich_term mine t) = has_expert_feedback t /\
  isUserConfirmed (enrich_term mine t) = isUserConfirmed t.
Proof. done. Qed.

(** X19. When both requests of a session load resolve and the details are
    an object, the active and the selected identifier become the
    session_id of the answer, every term of the answer is kept in order
    with its verdict, its interaction counter being the number of logged
    interactions of the requested session for that term; a terms answer
    that is not an array gives the empty list. The compliance statistics
    are those of the answer, no alert is raised and the interaction log is
    kept. *)
Theorem loadSessionData_resolved (sid now : string) (c : context)
    (fields : list (string * jsval))
    (termsData : option (list FrontendAnalysisTerm)) :
  api_getSessionDetails sid = Ok (JObj fields) ->
  api_getSessionTerms sid = Ok termsData ->
  let c' := loadSessionData' sid now c in
  let id :=
    match Json.lookup_field "session_id" fields with
    | Some (JStr s) => Some s
    | _ => None
    end in
  sessionId c' = id /\ selectedSessionId c' = id /\
  (exists terms',
     analysisTerms c' = Some terms' /\
     Forall2
       (fun t t' =>
          term_id t' = term_id t /\
          counts_as_compliant t' = counts_as_compliant t /\
          interactionCount t'
          = Some (length
                    (filter (fun i => i_sessionId i = sid /\
                                      i_termId i = Some (term_id t))
                       (sessionInteractions c))))
       (default [] termsData) terms') /\
  complianceStats (analysisTerms c') = complianceStats (Some (default [] termsData)) /\
  isFetchingSession c' = false /\ error c' = None /\
  alerts c' = alerts c /\
  sessionInteractions c' = sessionInteractions c.
Proof.
  intros Hd Ht. unfold loadSessionData. rewrite Hd, Ht.
  cbn [promise_all obind Json.prop fst snd].
  match goal with
  | |- context [on_store_logged ?m ?c0] =>
      pose proof (on_store_logged_fields m c0) as H; cbv zeta in H;
      destruct H as (H1 & H2 & H3 & _ & H5 & _ & _ & _ & _ & _ & _ & H12 & _ & _
                     & H15 & _)
  end.
  cbn [sessionId analysisTerms sessionDetails error alerts api_calls
       isFetchingSession sessionInteractions selectedSessionId
       set_isFetchingSession].
  rewrite H1, H2, H3, H5, H12, H15. cbn.
  assert (forall o : option jsval,
            match default JUndefined o with JStr s => Some s | _ => None end
            = match o with Some (JStr s) => Some s | _ => None end) as Hid
    by (by intros [[]|]).
  rewrite Hid. do 2 (split; [done|]). split; [|split; [|done]].
  - eexists. split; [done|]. apply Forall2_map_self. intros t.
    do 2 (split; [done|]). cbn. do 2 f_equal.
    rewrite getSessionInteractions_filter, list_filter_filter.
    apply list_filter_iff. intros i. tauto.
  - apply complianceStats_map. intros t. apply enrich_term_verdict.
Qed.

Lemma loadSessionData_keeps_log (sid now : string) (c : context) :
  sessionInteractions (loadSessionData' sid now c) = sessionInteractions c.
Proof.
  unfold loadSessionData.
  destruct (let? both :=
              promise_all (terms_settle_first sid)
                (api_getSessionDetails sid) (api_getSessionTerms sid) in
            let? session_id := Json.prop both.1 "session_id" in
            Ok (both.1, both.2, session_id)) as [[[sd td] si]|e].
  - match goal with
    | |- context [on_store_logged ?m ?c0] =>
        pose proof (on_store_logged_fields m c0) as H; cbv zeta in H;
        destruct H as (_ & _ & _ & _ & H5 & _)
    end.
    cbn [sessionInteractions set_isFetchingSession]. by rewrite H5.
  - match goal with
    | |- context [clearSession faulty ?c0] =>
        destruct (clearSession_fields c0) as (_ & _ & _ & _ & H5 & _)
    end.
    cbn [sessionInteractions set_isFetchingSession]. by rewrite H5.
Qed.

(** X20. When the server rejects the upload of a well-formed file, the
    result is null, the raw message is kept in the analysis error and the
    error field and shown in one alert, and the upload error is the
    invalid-format text for a message that contains 400 (also when it
    contains 413 as well), the too-large text for one that contains 413
    only, the raw message otherwise. The previous session has been cleared
    all the same, exactly one request was made, and the busy flags are down
    again. *)
Theorem upload_rejected_by_server (file : UploadFile.t) (now e : string)
    (c : context) :
  Js.truthy (UploadFile.name file) = true ->
  Js.truthy (UploadFile.type file) = true ->
  api_uploadContract file = Throw e ->
  let r := uploadAndAnalyzeContract' file now c in
  r.1 = None /\
  uploadError r.2
  = Some (if Js.includes "400" e then
            "Invalid file format. Please check your file and try again."
          else if Js.includes "413" e then
            "File too large. Please use a smaller file."
          else e) /\
  (forall pre post : string, e = pre +:+ "400" +:+ post ->
     uploadError r.2
     = Some "Invalid file format. Please check your file and try again.") /\
  analysisError r.2 = Some e /\ error r.2 = Some e /\
  alerts r.2 = alerts c ++ [("Analysis Error", e)] /\
  api_calls r.2 = api_calls c ++ [CallUploadContract file] /\
  sessionId r.2 = None /\ analysisTerms r.2 = None /\
  sessionInteractions r.2 = sessionInteractions c /\
  isUploading r.2 = false /\ isAnalyzingContract r.2 = false.
Proof.
  intros Hname Htype Hapi. unfold uploadAndAnalyzeContract.
  rewrite Hname, Htype. cbn [negb]. rewrite Hapi.
  pose proof (clearSession_fields c) as H. cbv zeta in H.
  set (c0 := clearSession faulty c) in *. clearbody c0.
  destruct H as (H1 & _ & H3 & _ & H5 & _ & _ & _ & _ & _ & _ & _ & _ & _ & H15 & H16).
  destruct c0. cbn in *. subst.
  do 2 (split; [done|]). split; [|done].
  intros pre post ->. by rewrite includes_app.
Qed.

(** X21. When the upload resolves but the load of the new session is
    rejected (one of its two requests rejects, or both do), the caller
    still receives the new session identifier, while no session is active
    and none of the three error fields is set; the only trace of the
    failure is the alert of the load, with the message of the request that
    rejected first. The three requests were made in order. *)
Theorem upload_survives_failed_load (file : UploadFile.t) (now sid e : string)
    (c : context) :
  Js.truthy (UploadFile.name file) = true ->
  Js.truthy (UploadFile.type file) = true ->
  api_uploadContract file = Ok sid ->
  (exists terms, api_getSessionDetails sid = Throw e /\
                 api_getSessionTerms sid = Ok terms) \/
  (exists details, api_getSessionDetails sid = Ok details /\
                   api_getSessionTerms sid = Throw e) \/
  (exists e1 e2, api_getSessionDetails sid = Throw e1 /\
                 api_getSessionTerms sid = Throw e2 /\
                 e = if terms_settle_first sid then e2 else e1) ->
  let r := uploadAndAnalyzeContract' file now c in
  r.1 = Some sid /\
  sessionId r.2 = None /\ analysisTerms r.2 = None /\
  error r.2 = None /\ uploadError r.2 = None /\ analysisError r.2 = None /\
  alerts r.2 = alerts c ++ [("Session Load Error", e)] /\
  api_calls r.2
  = api_calls c ++
    [CallUploadContract file; CallGetSessionDetails sid; CallGetSessionTerms sid] /\
  isUploading r.2 = false /\ isAnalyzingContract r.2 = false.
Proof.
  intros Hname Htype Hup Hrej. unfold uploadAndAnalyzeContract.
  rewrite Hname, Htype. cbn [negb]. rewrite Hup.
  match goal with
  | |- context [addInteraction_from faulty ?i ?l ?ty ?t ?d ?n ?c3] =>
      pose proof (addInteraction_from_fields faulty i l ty t d n c3) as Hadd;
      cbv zeta in Hadd;
      destruct Hadd as (A1 & _ & A3 & _ & _ & _ & _ & _ & _ & _ & A11 & A12 & A13
                        & A14 & A15 & _)
  end.
  cbn [fst snd sessionId analysisTerms error uploadError analysisError alerts
       api_calls isUploading isAnalyzingContract set_uploadProgress
       set_isAnalyzingContract set_isUploading].
  rewrite A1, A3, A11, A12, A13, A14, A15.
  unfold loadSessionData. rewrite (promise_all_rejects sid e Hrej). cbn [obind].
  match goal with
  | |- context [clearSession faulty ?c0] =>
      destruct (clearSession_fields c0)
        as (H1 & _ & H3 & _ & _ & _ & _ & _ & _ & _ & _ & H12 & H13 & H14 & H15 & H16)
  end.
  cbn [sessionId analysisTerms error uploadError analysisError alerts
       api_calls set_isFetchingSession].
  rewrite H1, H3, H12, H13, H14, H15, H16.
  pose proof (clearSession_fields c) as H. cbv zeta in H.
  destruct H as (_ & _ & _ & _ & _ & _ & _ & _ & _ & _ & _ & _ & _ & _ & C15 & C16).
  cbn. rewrite C15, C16. by rewrite <- !app_assoc.
Qed.

(** X22. When the upload resolves, the upload marker added to the
    interaction log is stamped with the session that was active when the
    upload was started, not with the new one, and it is put in front of the
    log of that moment; when no session was active, no marker is logged at
    all. This holds whether the load of the new session succeeds or not. *)
Theorem upload_marker_uses_previous_session (file : UploadFile.t)
    (now sid : string) (c : context) :
  Js.truthy (UploadFile.name file) = true ->
  Js.truthy (UploadFile.type file) = true ->
  api_uploadContract file = Ok sid ->
  let r := uploadAndAnalyzeContract' file now c in
  r.1 = Some sid /\
  sessionInteractions r.2
  = match sessionId c with
    | Some previous =>
        if decide (previous = "") then sessionInteractions c
        else MkInteraction previous now question_asked None
               (JObj [("action", JStr "contract_uploaded");
                      ("filename", JStr (default "" (UploadFile.name file)))])
             :: sessionInteractions c
    | None => sessionInteractions c
    end.
Proof.
  intros Hname Htype Hup. unfold uploadAndAnalyzeContract.
  rewrite Hname, Htype. cbn [negb]. rewrite Hup.
  match goal with
  | |- context [addInteraction_from faulty ?i ?l ?ty ?t ?d ?n ?c3] =>
      pose proof (addInteraction_from_fields faulty i l ty t d n c3) as Hadd;
      cbv zeta in Hadd;
      destruct Hadd as (_ & _ & _ & _ & _ & _ & _ & _ & _ & _ & _ & _ & _
                        & _ & _ & A16)
  end.
  cbn [fst snd sessionInteractions set_uploadProgress
       set_isAnalyzingContract set_isUploading].
  rewrite A16, loadSessionData_keeps_log.
  split; [done|].
  assert (sessionInteractions
            (record_call (CallUploadContract file)
               (set_analysisError None (set_uploadError None (set_error None
                  (set_isAnalyzingContract true (set_uploadProgress 0%float
                     (set_isUploading true (clearSession faulty c))))))))
          = sessionInteractions c) as ->.
  { destruct (clearSession_fields c) as (_ & _ & _ & _ & H5 & _). exact H5. }
  destruct (sessionId c) as [[|a previous]|]; done.
Qed.

End SessionLifecycle.

Lemma clearSession_forgets_witness :
  let c' := clearSession reliable (set_store history_store loaded_context) in
  sessionId c' = None /\
  (restoreSessionData reliable no_parse (store c')).1 = Ok (None, None, None).
Proof.
  intros c'.
  destruct (clearSession_forgets reliable no_parse
              (set_store history_store loaded_context) reliable_never_rejects)
    as (H1 & _ & _ & _ & _ & _ & _ & _ & _ & _ & H11).
  split; [exact H1|exact H11].
Defined.

Lemma loadSessionData_rejected_witness :
  let c' := loadSessionData reliable no_parse rejecting_details rejecting_terms
              terms_first "sid-2" "2024-01-01T00:00:00.000Z" loaded_context in
  sessionId c' = None /\ error c' = None /\
  alerts c' = [("Session Load Error", "timeout of 30000ms exceeded")].
Proof.
  intros c'.
  destruct (loadSessionData_rejected reliable no_parse rejecting_details
              rejecting_terms terms_first "sid-2" "2024-01-01T00:00:00.000Z"
              "timeout of 30000ms exceeded" loaded_context)
    as (H1 & _ & _ & H4 & H5 & _).
  - right. right. exists "Network Error", "timeout of 30000ms exceeded".
    repeat split.
  - split; [exact H1|split; [exact H4|exact H5]].
Defined.

Lemma loadSessionData_resolved_witness :
  let c' := loadSessionData reliable no_parse sample_details sample_terms
              details_first "sid-2" "2024-01-01T00:00:00.000Z" loaded_context in
  sessionId c' = Some "sid-2" /\
  complianceStats (analysisTerms c') = complianceStats (Some [sample_term]).
Proof.
  intros c'.
  destruct (loadSessionData_resolved reliable no_parse sample_details
              sample_terms details_first "sid-2" "2024-01-01T00:00:00.000Z" loaded_context
              [("session_id", JStr "sid-2");
               ("original_filename", JStr "contract.pdf")]
              (Some [sample_term]))
    as (H1 & _ & _ & H4 & _); try reflexivity.
  split; [exact H1|exact H4].
Defined.

Lemma upload_rejected_by_server_witness :
  let r := uploadAndAnalyzeContract reliable no_parse rejecting_upload
             sample_details sample_terms details_first sample_file
             "2024-01-01T00:00:00.000Z" loaded_context in
  r.1 = None /\
  uploadError r.2
  = Some "Invalid file format. Please check your file and try again." /\
  analysisError r.2 = Some "Request failed with status code 400".
Proof.
  intros r.
  destruct (upload_rejected_by_server reliable no_parse rejecting_upload
              sample_details sample_terms details_first sample_file
              "2024-01-01T00:00:00.000Z" "Request failed with status code 400"
              loaded_context)
    as (H1 & _ & H3 & H4 & _); try reflexivity.
  split; [exact H1|split; [|exact H4]].
  apply (H3 "Request failed with status code " ""). reflexivity.
Defined.

Lemma upload_survives_failed_load_witness :
  let r := uploadAndAnalyzeContract reliable no_parse sample_upload
             sample_details rejecting_terms details_first sample_file
             "2024-01-01T00:00:00.000Z" idle_context in
  r.1 = Some "sid-1" /\ sessionId r.2 = None /\ error r.2 = None /\
  uploadError r.2 = None /\
  alerts r.2 = [("Session Load Error", "timeout of 30000ms exceeded")].
Proof.
  intros r.
  destruct (upload_survives_failed_load reliable no_parse sample_upload
              sample_details rejecting_terms details_first sample_file
              "2024-01-01T00:00:00.000Z" "sid-1" "timeout of 30000ms exceeded"
              idle_context)
    as (H1 & H2 & _ & H4 & H5 & _ & H7 & _); try reflexivity.
  - right. left. eexists. split; reflexivity.
  - split; [exact H1|split; [exact H2|split; [exact H4|split; [exact H5|exact H7]]]].
Defined.

Lemma upload_marker_uses_previous_session_witness :
  let r := uploadAndAnalyzeContract reliable no_parse sample_upload
             sample_details sample_terms details_first sample_file
             "2024-01-01T00:00:00.000Z"
             (set_sessionId (Some "sid-0") idle_context) in
  r.1 = Some "sid-1" /\
  sessionInteractions r.2
  = [MkInteraction "sid-0" "2024-01-01T00:00:00.000Z" question_asked None
       (JObj [("action", JStr "contract_uploaded");
              ("filename", JStr "contract.pdf")])].
Proof.
  intros r.
  apply (upload_marker_uses_previous_session reliable no_parse sample_upload
           sample_details sample_terms details_first sample_file
           "2024-01-01T00:00:00.000Z" "sid-1"
           (set_sessionId (Some "sid-0") idle_context)); reflexivity.
Defined.

(** ** Logging an interaction and modifying a term *)

Section TermOperationProperties.
Variable faulty : nat -> prim_op -> option string.
Variable api_askQuestion :
  string -> string -> option string -> option string -> outcome string.
Variable api_reviewUserModification :
  string -> string -> string -> string -> outcome ReviewResponse.
Variable api_confirmTermModification :
  string -> string -> string -> outcome unit.

(** X23. With an active session, [addInteraction] puts the interaction,
    stamped with the session and the time, in front of the in-memory log
    whatever the primitive store does; the terms are untouched. When the
    primitive never rejects, the log read back from the store is the
    serialization of the new in-memory log, and the stored session history
    reads as before. *)
Theorem addInteraction_logs (type : interaction_type) (termId : option string)
    (data : jsval) (now sid : string) (c : context) :
  sessionId c = Some sid -> sid <> "" ->
  let c' := addInteraction faulty type termId data now c in
  sessionInteractions c'
  = MkInteraction sid now type termId data :: sessionInteractions c /\
  analysisTerms c' = analysisTerms c /\
  (never_rejects faulty ->
   (getItemAsync faulty storageKeys.SESSION_INTERACTIONS (store c')).1
   = Ok (Some (Json.stringify
                 (JArr (map interaction_json (sessionInteractions c')))))
   /\
   (getItemAsync faulty storageKeys.SHARIAA_SESSIONS (store c')).1
   = (getItemAsync faulty storageKeys.SHARIAA_SESSIONS (store c)).1).
Proof.
  intros Hsid Hne c'.
  pose proof (addInteraction_from_fields faulty (sessionId c)
                (sessionInteractions c) type termId data now c) as H.
  cbv zeta in H. fold (addInteraction faulty type termId data now c) in H.
  fold c' in H.
  destruct H as (_ & _ & H3 & _ & _ & _ & _ & _ & _ & _ & _ & _ & _ & _ & _ & H16).
  rewrite Hsid, (truthy_session sid Hne) in H16. cbn [default from_option] in H16.
  unfold id in H16.
  do 2 (split; [done|]). intros Hrel. rewrite H16.
  unfold c', addInteraction, addInteraction_from.
  rewrite Hsid, (truthy_session sid Hne). cbn [default from_option]. unfold id.
  match goal with
  | |- context [on_store_logged ?m ?c1] =>
      pose proof (on_store_logged_fields m c1) as H; cbv zeta in H;
      destruct H as (_ & _ & _ & _ & _ & _ & _ & _ & _ & _ & _ & _ & _ & _ & _
                     & _ & ->)
  end.
  cbn [store set_sessionInteractions]. split.
  - by apply setItemAsync_then_get.
  - apply setItemAsync_other_key; [done|].
    apply sessions_interactions_independent.
Qed.

Lemma updateTermLocally_fields (params : TermUpdate) (now : string)
    (c : context) :
  let c' := updateTermLocally params now c in
  sessionId c' = sessionId c /\
  sessionInteractions c' = sessionInteractions c /\
  isTermProcessing c' = isTermProcessing c /\
  alerts c' = alerts c /\ store c' = store c /\
  analysisTerms c'
  = option_map
      (map (fun t =>
              if decide (term_id t = u_term_id params)
              then merge_update params now t else t))
      (analysisTerms c).
Proof. done. Qed.

(** X24. When the remote client accepts the confirmation of a term, the
    answer is true, the addressed term is marked confirmed with the
    confirmed text, so that it counts as compliant exactly when the expert
    override says so or, without an override, unless a review found the
    suggestion invalid; its interaction counter grows by one and the other
    terms are untouched. One term_modified interaction is put in front of
    the log, one request was made, and the busy flag of the term is down
    again. *)
Theorem confirmTermModification_confirmed (termId text now sid : string)
    (p : provider) (terms : list FrontendAnalysisTerm) :
  sessionId (base p) = Some sid -> sid <> "" ->
  analysisTerms (base p) = Some terms ->
  api_confirmTermModification sid termId text = Ok tt ->
  let r := confirmTermModification faulty api_confirmTermModification
             termId text now p in
  r.1 = true /\
  (exists terms',
     analysisTerms (base r.2) = Some terms' /\
     Forall2
       (fun t t' =>
          if decide (term_id t = termId) then
            term_id t' = termId /\
            isUserConfirmed t' = Some true /\
            userModifiedText t' = Some text /\
            counts_as_compliant t'
            = nullish (expert_override_is_valid_sharia t)
                (nullish (isReviewedSuggestionValid t) true) /\
            interactionCount t' = Some (default 0 (interactionCount t) + 1)
          else t' = t)
       terms terms') /\
  sessionInteractions (base r.2)
  = MkInteraction sid now term_modified (Some termId)
      (JObj [("confirmedText", JStr text); ("action", JStr "confirmed")])
    :: sessionInteractions (base p) /\
  isTermProcessing (base r.2) = <[termId := false]> (isTermProcessing (base p)) /\
  modification_calls r.2
  = modification_calls p ++ [CallConfirmTermModification sid termId text].
Proof.
  intros Hsid Hne Hterms Hapi. unfold confirmTermModification.
  rewrite Hsid, (truthy_session sid Hne). cbn [negb default from_option].
  unfold id. rewrite Hapi.
  match goal with
  | |- context [addInteraction_from faulty ?i ?l ?ty ?t ?d ?n ?c0] =>
      pose proof (addInteraction_from_fields faulty i l ty t d n c0) as Hadd;
      cbv zeta in Hadd;
      destruct Hadd as (_ & _ & Hat & _ & _ & _ & _ & _ & Htp & _ & _ & _ & _ & _
                        & _ & Hlog)
  end.
  cbn [fst snd base analysisTerms sessionInteractions isTermProcessing
       modification_calls set_isTermProcessing].
  rewrite Hat, Htp, Hlog, (truthy_session sid Hne).
  cbn. rewrite Hterms, insert_insert_eq. cbn [option_map].
  split; [done|]. split; [|done].
  eexists. split; [done|]. apply Forall2_map_self.
  intros t. case_decide; [|done]. by cbn.
Qed.

(** X25. When the remote client answers a review of a modification, the
    answer is true and the addressed term takes the reviewed text as its
    modified text and as its reviewed suggestion, with the verdict of the
    review, and is marked not confirmed: it counts as compliant exactly as
    its expert override or, without one, its original verdict says, even if
    it had been confirmed before. The other terms are untouched, one
    term_modified interaction is put in front of the log, and the reviewing
    flag of the term is down again. *)
Theorem reviewUserModification_reviewed (termId userText originalText now sid : string)
    (p : provider) (terms : list FrontendAnalysisTerm) (resp : ReviewResponse) :
  sessionId (base p) = Some sid -> sid <> "" ->
  analysisTerms (base p) = Some terms ->
  api_reviewUserModification sid termId userText originalText = Ok resp ->
  let r := reviewUserModification faulty api_reviewUserModification
             termId userText originalText now p in
  r.1 = true /\
  (exists terms',
     analysisTerms (base r.2) = Some terms' /\
     Forall2
       (fun t t' =>
          if decide (term_id t = termId) then
            term_id t' = termId /\
            isUserConfirmed t' = Some false /\
            userModifiedText t' = Some (reviewed_text resp) /\
            reviewedSuggestion t' = Some (reviewed_text resp) /\
            isReviewedSuggestionValid t' = Some (is_still_valid_sharia resp) /\
            counts_as_compliant t'
            = nullish (expert_override_is_valid_sharia t) (is_valid_sharia t) /\
            interactionCount t' = Some (default 0 (interactionCount t) + 1)
          else t' = t)
       terms terms') /\
  sessionInteractions (base r.2)
  = MkInteraction sid now term_modified (Some termId)
      (JObj [("originalText", JStr originalText);
             ("reviewedText", JStr (reviewed_text resp));
             ("isValid", JBool (is_still_valid_sharia resp))])
    :: sessionInteractions (base p) /\
  isReviewingModification r.2
  = <[termId := false]> (isReviewingModification p) /\
  modification_calls r.2
  = modification_calls p ++
    [CallReviewUserModification sid termId userText originalText].
Proof.
  intros Hsid Hne Hterms Hapi. unfold reviewUserModification.
  rewrite Hsid, (truthy_session sid Hne). cbn [negb default from_option].
  unfold id. rewrite Hapi.
  match goal with
  | |- context [addInteraction_from faulty ?i ?l ?ty ?t ?d ?n ?c0] =>
      pose proof (addInteraction_from_fields faulty i l ty t d n c0) as Hadd;
      cbv zeta in Hadd;
      destruct Hadd as (_ & _ & Hat & _ & _ & _ & _ & _ & _ & _ & _ & _ & _ & _
                        & _ & Hlog)
  end.
  cbn [fst snd base analysisTerms sessionInteractions isReviewingModification
       modification_calls].
  rewrite Hat, Hlog, (truthy_session sid Hne).
  cbn. rewrite Hterms, insert_insert_eq. cbn [option_map].
  split; [done|]. split; [|done].
  eexists. split; [done|]. apply Forall2_map_self.
  intros t. case_decide; [|done]. by cbn.
Qed.

(** X26. A review followed by a confirmation of the same term, both
    accepted by the remote client: the term ends confirmed with the
    confirmed text, keeps the reviewed suggestion, and counts as compliant
    exactly as its expert override or, without one, the verdict of the
    review says; its interaction counter has grown by two, the other terms
    are untouched, and the log has the confirmation in front of the
    review. *)
Theorem review_then_confirm (termId userText originalText text now1 now2 sid : string)
    (p : provider) (terms : list FrontendAnalysisTerm) (resp : ReviewResponse) :
  sessionId (base p) = Some sid -> sid <> "" ->
  analysisTerms (base p) = Some terms ->
  api_reviewUserModification sid termId userText originalText = Ok resp ->
  api_confirmTermModification sid termId text = Ok tt ->
  let r1 := reviewUserModification faulty api_reviewUserModification
              termId userText originalText now1 p in
  let r2 := confirmTermModification faulty api_confirmTermModification
              termId text now2 r1.2 in
  r1.1 = true /\ r2.1 = true /\
  (exists terms'',
     analysisTerms (base r2.2) = Some terms'' /\
     Forall2
       (fun t t'' =>
          if decide (term_id t = termId) then
            isUserConfirmed t'' = Some true /\
            userModifiedText t'' = Some text /\
            reviewedSuggestion t'' = Some (reviewed_text resp) /\
            counts_as_compliant t''
            = nullish (expert_override_is_valid_sharia t)
                (is_still_valid_sharia resp) /\
            interactionCount t'' = Some (default 0 (interactionCount t) + 2)
          else t'' = t)
       terms terms'') /\
  sessionInteractions (base r2.2)
  = MkInteraction sid now2 term_modified (Some termId)
      (JObj [("confirmedText", JStr text); ("action", JStr "confirmed")])
    :: MkInteraction sid now1 term_modified (Some termId)
         (JObj [("originalText", JStr originalText);
                ("reviewedText", JStr (reviewed_text resp));
                ("isValid", JBool (is_still_valid_sharia resp))])
    :: sessionInteractions (base p).
Proof.
  intros Hsid Hne Hterms Hrev Hconf r1 r2.
  assert (r1.1 = true /\
          sessionId (base r1.2) = Some sid /\
          analysisTerms (base r1.2)
          = Some (map (fun t =>
                         if decide (term_id t = termId)
                         then merge_update
                                (MkUpdate termId None None (Some (Some false))
                                   (Some (Some (reviewed_text resp)))
                                   (Some (Some (reviewed_text resp)))
                                   (Some (Some (is_still_valid_sharia resp)))
                                   (Some (if Js.truthy (new_sharia_issue resp)
                                          then new_sharia_issue resp else None)))
                                now1 t
                         else t) terms) /\
          sessionInteractions (base r1.2)
          = MkInteraction sid now1 term_modified (Some termId)
              (JObj [("originalText", JStr originalText);
                     ("reviewedText", JStr (reviewed_text resp));
                     ("isValid", JBool (is_still_valid_sharia resp))])
            :: sessionInteractions (base p)) as (E1 & Esid & Eterms & Elog).
  { unfold r1, reviewUserModification.
    rewrite Hsid, (truthy_session sid Hne). cbn [negb default from_option].
    unfold id. rewrite Hrev.
    match goal with
    | |- context [addInteraction_from faulty ?i ?l ?ty ?t ?d ?n ?c0] =>
        pose proof (addInteraction_from_fields faulty i l ty t d n c0) as Hadd;
        cbv zeta in Hadd;
        destruct Hadd as (Hid & _ & Hat & _ & _ & _ & _ & _ & _ & _ & _ & _ & _ & _
                          & _ & Hlog)
    end.
    cbn [fst snd base]. rewrite Hid, Hat, Hlog, (truthy_session sid Hne).
    cbn. by rewrite Hterms, Hsid. }
  split; [done|]. clearbody r1.
  unfold r2, confirmTermModification.
  rewrite Esid, (truthy_session sid Hne). cbn [negb default from_option].
  unfold id. rewrite Hconf.
  match goal with
  | |- context [addInteraction_from faulty ?i ?l ?ty ?t ?d ?n ?c0] =>
      pose proof (addInteraction_from_fields faulty i l ty t d n c0) as Hadd;
      cbv zeta in Hadd;
      destruct Hadd as (_ & _ & Hat & _ & _ & _ & _ & _ & _ & _ & _ & _ & _ & _
                        & _ & Hlog)
  end.
  cbn [fst snd base analysisTerms sessionInteractions set_isTermProcessing].
  rewrite Hat, Hlog, (truthy_session sid Hne).
  cbn. rewrite Eterms, Elog. cbn [option_map].
  split; [done|]. split; [|done].
  eexists. split; [done|]. rewrite map_map. apply Forall2_map_self.
  intros t. destruct (decide (term_id t = termId)) as [Heq|Hneq].
  - cbn. rewrite decide_True by done. cbn.
    do 4 (split; [done|]). f_equal.
    destruct (interactionCount t); cbn; lia.
  - by rewrite decide_False.
Qed.

(** X27. When the remote client rejects the review of a modification, the
    answer is false, the terms, the interaction log and the store are left
    as they were, one alert titled Review Error carries the message, and the
    reviewing flag of the term is down again. *)
Theorem reviewUserModification_rejected (termId userText originalText now sid e : string)
    (p : provider) :
  sessionId (base p) = Some sid -> sid <> "" ->
  api_reviewUserModification sid termId userText originalText = Throw e ->
  let r := reviewUserModification faulty api_reviewUserModification
             termId userText originalText now p in
  r.1 = false /\
  analysisTerms (base r.2) = analysisTerms (base p) /\
  sessionInteractions (base r.2) = sessionInteractions (base p) /\
  store (base r.2) = store (base p) /\
  alerts (base r.2) = alerts (base p) ++ [("Review Error", e)] /\
  isReviewingModification r.2
  = <[termId := false]> (isReviewingModification p).
Proof.
  intros Hsid Hne Hapi. unfold reviewUserModification.
  rewrite Hsid, (truthy_session sid Hne). cbn [negb default from_option].
  unfold id. rewrite Hapi. cbn. by rewrite insert_insert_eq.
Qed.

(** X28. When the remote client rejects the confirmation of a term, the
    answer is false, the terms (the confirmation mark included), the
    compliance statistics, the interaction log and the store are left as
    they were, one alert titled Confirmation Error carries the message, and
    the busy flag of the term is down again. *)
Theorem confirmTermModification_rejected (termId text now sid e : string)
    (p : provider) :
  sessionId (base p) = Some sid -> sid <> "" ->
  api_confirmTermModification sid termId text = Throw e ->
  let r := confirmTermModification faulty api_confirmTermModification
             termId text now p in
  r.1 = false /\
  analysisTerms (base r.2) = analysisTerms (base p) /\
  complianceStats (analysisTerms (base r.2))
  = complianceStats (analysisTerms (base p)) /\
  sessionInteractions (base r.2) = sessionInteractions (base p) /\
  store (base r.2) = store (base p) /\
  alerts (base r.2) = alerts (base p) ++ [("Confirmation Error", e)] /\
  isTermProcessing (base r.2) = <[termId := false]> (isTermProcessing (base p)).
Proof.
  intros Hsid Hne Hapi. unfold confirmTermModification.
  rewrite Hsid, (truthy_session sid Hne). cbn [negb default from_option].
  unfold id. rewrite Hapi. cbn. by rewrite insert_insert_eq.
Qed.

(** X29. With an active session, a general question about the contract
    makes one request without term; when it resolves, the answer is
    returned and one question_asked interaction without term, marked
    general, is put in front of the log; when it is rejected, the answer
    is null, the log is left as it was and one alert carries the message.
    In both cases the terms are untouched and both question flags are down
    again. *)
Theorem askGeneralContractQuestion_outcome (question now sid : string)
    (p : provider) :
  sessionId (base p) = Some sid -> sid <> "" ->
  let r := askGeneralContractQuestion faulty api_askQuestion question now p in
  match api_askQuestion sid question None None with
  | Ok answer =>
      r.1 = Some answer /\
      sessionInteractions (base r.2)
      = MkInteraction sid now question_asked None
          (JObj [("question", JStr question); ("answer", JStr answer);
                 ("type", JStr "general")])
        :: sessionInteractions (base p) /\
      alerts (base r.2) = alerts (base p)
  | Throw e =>
      r.1 = None /\
      sessionInteractions (base r.2) = sessionInteractions (base p) /\
      alerts (base r.2) = alerts (base p) ++ [("Interaction Error", e)]
  end /\
  analysisTerms (base r.2) = analysisTerms (base p) /\
  api_calls (base r.2)
  = api_calls (base p) ++ [CallAskQuestion sid question None None] /\
  isAskingQuestion (base r.2) = false /\
  isProcessingGeneralQuestion r.2 = false.
Proof.
  intros Hsid Hne. unfold askGeneralContractQuestion.
  rewrite Hsid, (truthy_session sid Hne). cbn [negb default from_option].
  unfold id. destruct (api_askQuestion sid question None None) as [answer|e].
  - match goal with
    | |- context [addInteraction_from faulty ?i ?l ?ty ?t ?d ?n ?c0] =>
        pose proof (addInteraction_from_fields faulty i l ty t d n c0) as Hadd;
        cbv zeta in Hadd;
        destruct Hadd as (_ & _ & Hat & _ & _ & _ & _ & _ & _ & _ & _ & _ & _
                          & Hal & Hcalls & Hlog)
    end.
    cbn [fst snd base analysisTerms sessionInteractions alerts api_calls
         isAskingQuestion isProcessingGeneralQuestion set_isAskingQuestion].
    rewrite Hat, Hal, Hcalls, Hlog, (truthy_session sid Hne). done.
  - done.
Qed.

(** X30. Without an active session (the identifier is null or the empty
    string), reviewing a modification, confirming a term and asking a
    general question answer false, false and null, and leave the whole
    provider state as it was: no flag is raised, no request is made, nothing
    is logged or stored. *)
Theorem term_operations_need_session (termId a b question now : string)
    (p : provider) :
  Js.truthy (sessionId (base p)) = false ->
  reviewUserModification faulty api_reviewUserModification termId a b now p
  = (false, p) /\
  confirmTermModification faulty api_confirmTermModification termId a now p
  = (false, p) /\
  askGeneralContractQuestion faulty api_askQuestion question now p
  = (None, p).
Proof.
  intros Hidle.
  unfold reviewUserModification, confirmTermModification,
    askGeneralContractQuestion.
  by rewrite Hidle.
Qed.

End TermOperationProperties.

Lemma addInteraction_logs_witness :
  let c' := addInteraction reliable question_asked (Some "t1") JNull
              "2024-01-01T00:00:00.000Z" loaded_context in
  sessionInteractions c'
  = [MkInteraction "sid-1" "2024-01-01T00:00:00.000Z" question_asked
       (Some "t1") JNull] /\
  (getItemAsync reliable storageKeys.SESSION_INTERACTIONS (store c')).1
  = Ok (Some (Json.stringify
                (JArr (map interaction_json (sessionInteractions c'))))).
Proof.
  intros c'.
  destruct (addInteraction_logs reliable question_asked (Some "t1") JNull
              "2024-01-01T00:00:00.000Z" "sid-1" loaded_context)
    as (H1 & _ & H3).
  - reflexivity.
  - discriminate.
  - split; [exact H1|]. exact (proj1 (H3 reliable_never_rejects)).
Defined.

Lemma confirmTermModification_confirmed_witness :
  let r := confirmTermModification reliable sample_confirm "t1" "my text"
             "2024-01-01T00:00:00.000Z" (provider_of loaded_context) in
  r.1 = true /\
  modification_calls r.2 = [CallConfirmTermModification "sid-1" "t1" "my text"].
Proof.
  intros r.
  destruct (confirmTermModification_confirmed reliable sample_confirm "t1"
              "my text" "2024-01-01T00:00:00.000Z" "sid-1"
              (provider_of loaded_context) [sample_term])
    as (H1 & _ & _ & _ & H5); try reflexivity.
  - discriminate.
  - split; [exact H1|exact H5].
Defined.

Lemma reviewUserModification_reviewed_witness :
  let r := reviewUserModification reliable sample_review "t1" "my text"
             "clause one" "2024-01-01T00:00:00.000Z"
             (provider_of loaded_context) in
  r.1 = true /\
  modification_calls r.2
  = [CallReviewUserModification "sid-1" "t1" "my text" "clause one"].
Proof.
  intros r.
  destruct (reviewUserModification_reviewed reliable sample_review "t1"
              "my text" "clause one" "2024-01-01T00:00:00.000Z" "sid-1"
              (provider_of loaded_context) [sample_term]
              (MkReview "a revised clause" false (Some "interest is charged")))
    as (H1 & _ & _ & _ & H5); try reflexivity.
  - discriminate.
  - split; [exact H1|exact H5].
Defined.

Lemma review_then_confirm_witness :
  let r1 := reviewUserModification reliable sample_review "t1" "my text"
              "clause one" "2024-01-01T00:00:00.000Z"
              (provider_of loaded_context) in
  let r2 := confirmTermModification reliable sample_confirm "t1"
              "a revised clause" "2024-01-02T00:00:00.000Z" r1.2 in
  r1.1 = true /\ r2.1 = true /\
  length (sessionInteractions (base r2.2)) = 2.
Proof.
  intros r1 r2.
  destruct (review_then_confirm reliable sample_review sample_confirm "t1"
              "my text" "clause one" "a revised clause"
              "2024-01-01T00:00:00.000Z" "2024-01-02T00:00:00.000Z" "sid-1"
              (provider_of loaded_context) [sample_term]
              (MkReview "a revised clause" false (Some "interest is charged")))
    as (H1 & H2 & _ & H4); try reflexivity.
  - discriminate.
  - split; [exact H1|split; [exact H2|]].
    exact (f_equal length H4).
Defined.

Lemma reviewUserModification_rejected_witness :
  let r := reviewUserModification reliable rejecting_review "t1" "my text"
             "clause one" "2024-01-01T00:00:00.000Z"
             (provider_of loaded_context) in
  r.1 = false /\ analysisTerms (base r.2) = Some [sample_term] /\
  alerts (base r.2) = [("Review Error", "Network Error")].
Proof.
  intros r.
  destruct (reviewUserModification_rejected reliable rejecting_review "t1"
              "my text" "clause one" "2024-01-01T00:00:00.000Z" "sid-1"
              "Network Error" (provider_of loaded_context))
    as (H1 & H2 & _ & _ & H5 & _); try reflexivity.
  - discriminate.
  - split; [exact H1|split; [exact H2|exact H5]].
Defined.

Lemma confirmTermModification_rejected_witness :
  let r := confirmTermModification reliable
             (fun _ _ _ => Throw "Network Error") "t1" "my text"
             "2024-01-01T00:00:00.000Z" (provider_of loaded_context) in
  r.1 = false /\ analysisTerms (base r.2) = Some [sample_term] /\
  alerts (base r.2) = [("Confirmation Error", "Network Error")].
Proof.
  intros r.
  destruct (confirmTermModification_rejected reliable
              (fun _ _ _ => Throw "Network Error") "t1" "my text"
              "2024-01-01T00:00:00.000Z" "sid-1" "Network Error"
              (provider_of loaded_context))
    as (H1 & H2 & _ & _ & _ & H6 & _); try reflexivity.
  - discriminate.
  - split; [exact H1|split; [exact H2|exact H6]].
Defined.

Lemma askGeneralContractQuestion_outcome_witness :
  let r := askGeneralContractQuestion reliable sample_answer "is it valid?"
             "2024-01-01T00:00:00.000Z" (provider_of loaded_context) in
  r.1 = Some "an answer" /\ isAskingQuestion (base r.2) = false.
Proof.
  intros r.
  destruct (askGeneralContractQuestion_outcome reliable sample_answer
              "is it valid?" "2024-01-01T00:00:00.000Z" "sid-1"
              (provider_of loaded_context))
    as ((H1 & _) & _ & _ & H4 & _); try reflexivity.
  - discriminate.
  - split; [exact H1|exact H4].
Defined.

Lemma term_operations_need_session_witness :
  confirmTermModification reliable sample_confirm "t1" "my text"
    "2024-01-01T00:00:00.000Z" (provider_of idle_context)
  = (false, provider_of idle_context).
Proof.
  destruct (term_operations_need_session reliable sample_answer sample_review
              sample_confirm "t1" "my text" "clause one" "why?"
              "2024-01-01T00:00:00.000Z" (provider_of idle_context))
    as (_ & H2 & _); [reflexivity|exact H2].
Defined.
